(** * Token price allocation: [scripts/calculate_token_prices.py]

    A shallow embedding of [calculate_token_prices] and the properties of
    the allocation it computes.
    The script around the function and the functions of the other scripts
    that do not drive a browser are embedded after it.

    Conventions of the embedding.
    - A Python [float] is a primitive binary64 [float]; [+ - * /], [abs]
      and the comparisons are the IEEE operations of [PrimFloat].
    - A Python [int] is a [Z].
    - A Python [str] is a [string] read as the sequence of its code points,
      each [ascii] being one code point of the range U+0000..U+00FF.
    - A CSV row (a [dict] from column name to text) is a
      [gmap string string]: every value is a [str], as [csv.DictReader]
      gives them for a file whose lines have all their fields.
      [product_challenges] is the list of rows, each row an object of its
      own, and a reference to a row is its position in that list, so that
      the in-place writes of the last loop are writes into the list.
    - A raised exception ends the computation: [exc] is the error monad.
    - Of the console output only the [[!]] lines are kept, as [event]s.
    - The module constant [TARGET_SUM] is an argument of the functions that
      read it; the program runs them at [TARGET_SUM = 11000]. *)

From Stdlib Require Import ZArith Lia Floats Ascii.
From stdpp Require Import gmap strings list sorting pretty.

Open Scope Z_scope.

(** ** Exceptions *)

Inductive pyexn := ValueError | OverflowError | KeyError | ZeroDivisionError.

Inductive exc (A : Type) :=
  | Ok (a : A)
  | Raise (e : pyexn).
Arguments Ok {A} a.
Arguments Raise {A} e.

#[global] Instance exc_ret : MRet exc := @Ok.
#[global] Instance exc_bind : MBind exc := λ A B f m,
  match m with
  | Ok a => f a
  | Raise e => Raise e
  end.
#[global] Instance exc_fmap : FMap exc := λ A B f m,
  match m with
  | Ok a => Ok (f a)
  | Raise e => Raise e
  end.

(** ** Numbers *)

Module Py.

(** The binary64 value nearest to the integer [n] (ties to even),
    [infinity] past the largest finite value. *)
Definition nearest_float (n : Z) : float :=
  SF2Prim (binary_normalize prec emax n 0 false).

(** The conversion of an [int] operand in mixed [int]/[float] arithmetic:
    [OverflowError] when the integer is too large for a float. *)
Definition float_of_int (n : Z) : exc float :=
  let f := nearest_float n in
  if is_infinity f then Raise OverflowError else Ok f.

(** [x / y] on floats: [ZeroDivisionError] on a zero divisor. *)
Definition truediv (x y : float) : exc float :=
  if (y =? 0)%float then Raise ZeroDivisionError else Ok (x / y)%float.

(** The integer nearest to [m * 2 ^ e], ties to even. *)
Definition round_half_even (m : positive) (e : Z) : Z :=
  if 0 <=? e then Z.pos m * 2 ^ e
  else
    let d := 2 ^ (- e) in
    let q := Z.pos m / d in
    let r := Z.pos m mod d in
    match 2 * r ?= d with
    | Lt => q
    | Gt => q + 1
    | Eq => if Z.even q then q else q + 1
    end.

(** [round(x)] of a float, one argument: the nearest integer, ties to
    even; [ValueError] on NaN and [OverflowError] on an infinity. *)
Definition round (x : float) : exc Z :=
  match Prim2SF x with
  | S754_zero _ => Ok 0
  | S754_nan => Raise ValueError
  | S754_infinity _ => Raise OverflowError
  | S754_finite s m e => Ok (cond_Zopp s (round_half_even m e))
  end.

(** [int(x)] of a float: truncation toward zero, with the errors of
    [round]. *)
Definition int_of_float (x : float) : exc Z :=
  match Prim2SF x with
  | S754_zero _ => Ok 0
  | S754_nan => Raise ValueError
  | S754_infinity _ => Raise OverflowError
  | S754_finite s m e =>
      Ok (cond_Zopp s (if 0 <=? e then Z.pos m * 2 ^ e else Z.pos m / 2 ^ (- e)))
  end.

(** [x == n] for a float [x] and an int [n]: Python compares the two
    exact values. *)
Definition float_eq_int (x : float) (n : Z) : bool :=
  match Prim2SF x with
  | S754_zero _ => n =? 0
  | S754_finite s m e =>
      if 0 <=? e then cond_Zopp s (Z.pos m * 2 ^ e) =? n
      else cond_Zopp s (Z.pos m) =? n * 2 ^ (- e)
  | _ => false
  end.

(** [sum(xs)] of floats, from the int [0]: the left-to-right fold of
    float addition. (CPython 3.12 and later carry a compensation term along
    the fold; it is zero as long as every partial sum is exact.) *)
Definition sum (xs : list float) : float :=
  foldl PrimFloat.add 0%float xs.

(** ** Text *)

(** [c.isspace()] on U+0000..U+00FF: the characters [str.strip] removes. *)
Definition isspace (c : ascii) : bool :=
  let n := Z.of_N (N_of_ascii c) in
  ((9 <=? n) && (n <=? 13)) || ((28 <=? n) && (n <=? 32))
  || (n =? 133) || (n =? 160).

Fixpoint lstrip (s : string) : string :=
  match s with
  | EmptyString => EmptyString
  | String c s' => if isspace c then lstrip s' else s
  end.

Fixpoint rstrip (s : string) : string :=
  match s with
  | EmptyString => EmptyString
  | String c s' =>
      match rstrip s' with
      | EmptyString => if isspace c then EmptyString else String c EmptyString
      | r => String c r
      end
  end.

Definition strip (s : string) : string := rstrip (lstrip s).

(** The decimal digits [0]..[9], with their value. *)
Definition decimal_value (c : ascii) : option Z :=
  let n := Z.of_N (N_of_ascii c) in
  if (48 <=? n) && (n <=? 57) then Some (n - 48) else None.

(** [c.isdigit()] on U+0000..U+00FF: the decimal digits and the
    superscripts U+00B2, U+00B3 and U+00B9, which are digits without being
    decimal. *)
Definition isdigit_char (c : ascii) : bool :=
  let n := Z.of_N (N_of_ascii c) in
  ((48 <=? n) && (n <=? 57)) || (n =? 178) || (n =? 179) || (n =? 185).

Fixpoint all_digits (s : string) : bool :=
  match s with
  | EmptyString => true
  | String c s' => isdigit_char c && all_digits s'
  end.

(** [s.isdigit()]: at least one character, and only digits. *)
Definition isdigit (s : string) : bool :=
  match s with
  | EmptyString => false
  | _ => all_digits s
  end.

(** Truth value of a [str]. *)
Definition nonempty (s : string) : bool :=
  match s with
  | EmptyString => false
  | _ => true
  end.

(** The integer written by a string of decimal digits, [None] when a
    character is not one. *)
Fixpoint decimal_of (acc : Z) (s : string) : option Z :=
  match s with
  | EmptyString => Some acc
  | String c s' =>
      match decimal_value c with
      | Some d => decimal_of (10 * acc + d) s'
      | None => None
      end
  end.

(** [float(s)] on the strings the program passes to it, those with
    [s.isdigit()]: the float nearest to the integer written, [ValueError]
    when a digit is not decimal (and on the empty string). *)
Definition float_of_str (s : string) : exc float :=
  match s, decimal_of 0 s with
  | String _ _, Some n => Ok (nearest_float n)
  | _, _ => Raise ValueError
  end.

(** [str(n)] of an int. *)
Definition str_of_int (n : Z) : string := pretty n.

(** ** More text *)

(** [sep.join(l)] *)
Fixpoint join (sep : string) (l : list string) : string :=
  match l with
  | [] => EmptyString
  | [x] => x
  | x :: rest => x +:+ sep +:+ join sep rest
  end.

(** [s.rstrip(c)] for a string [c] of one character. *)
Fixpoint rstrip_char (c : ascii) (s : string) : string :=
  match s with
  | EmptyString => EmptyString
  | String d s' =>
      match rstrip_char c s' with
      | EmptyString => if decide (d = c) then EmptyString else String d EmptyString
      | r => String d r
      end
  end.

(** [s.replace(c, '')] for a string [c] of one character. *)
Fixpoint remove_char (c : ascii) (s : string) : string :=
  match s with
  | EmptyString => EmptyString
  | String d s' => if decide (d = c) then remove_char c s' else String d (remove_char c s')
  end.

(** [s.replace(abc, '')] for a string [abc] of three characters: the
    occurrences are taken from the left and do not overlap. *)
Fixpoint remove_three (a b c : ascii) (s : string) : string :=
  match s with
  | EmptyString => EmptyString
  | String x s1 =>
      match s1 with
      | String y (String z s3) =>
          if decide (x = a ∧ y = b ∧ z = c) then remove_three a b c s3
          else String x (remove_three a b c s1)
      | _ => String x (remove_three a b c s1)
      end
  end.

(** The decimal digits, the characters [\d] stands for in a pattern on
    U+0000..U+00FF. *)
Definition is_decimal (c : ascii) : bool := bool_decide (is_Some (decimal_value c)).

(** [re.findall(r'\d+', s)]: the maximal runs of decimal digits, from the
    left. [run] holds the digits of the run being read. *)
Fixpoint digit_runs (run : string) (s : string) : list string :=
  match s with
  | EmptyString => if nonempty run then [run] else []
  | String c s' =>
      if is_decimal c then digit_runs (run +:+ String c EmptyString) s'
      else if nonempty run then run :: digit_runs EmptyString s'
      else digit_runs EmptyString s'
  end.

(** The longest text [int] converts, [sys.int_info.default_max_str_digits]
    of CPython 3.11 and later. *)
Definition int_max_str_digits : nat := 4300.

(** [int(s)] on a string of decimal digits: [ValueError] past the limit
    on the number of digits. *)
Definition int_of_str (s : string) : exc Z :=
  if (int_max_str_digits <? String.length s)%nat then Raise ValueError
  else
    match s, decimal_of 0 s with
    | String _ _, Some n => Ok n
    | _, _ => Raise ValueError
    end.

(** [max(l)] of a list of ints that is not empty. *)
Definition max_of (n : Z) (l : list Z) : Z := foldl Z.max n l.

(** [c.lower()] on U+0000..U+00FF: the capital letters are [A]..[Z] and
    U+00C0..U+00DE but for the multiplication sign U+00D7, each 32 below
    its small letter. *)
Definition lower_char (c : ascii) : ascii :=
  let n := N_of_ascii c in
  if ((65 <=? n) && (n <=? 90) || (192 <=? n) && (n <=? 222) && negb (n =? 215))%N
  then ascii_of_N (n + 32) else c.

Fixpoint lower (s : string) : string :=
  match s with
  | EmptyString => EmptyString
  | String c s' => String (lower_char c) (lower s')
  end.

(** [s.startswith(prefix)] *)
Fixpoint starts_with (prefix s : string) : bool :=
  match prefix, s with
  | EmptyString, _ => true
  | String a prefix', String b s' => bool_decide (a = b) && starts_with prefix' s'
  | String _ _, EmptyString => false
  end.

(** [needle in hay] *)
Fixpoint contains (needle hay : string) : bool :=
  starts_with needle hay
  || match hay with
     | EmptyString => false
     | String _ hay' => contains needle hay'
     end.

(** [s.split()]: the maximal runs of characters that are not white
    space. [word] holds the characters of the run being read. *)
Fixpoint split_from (word : string) (s : string) : list string :=
  match s with
  | EmptyString => if nonempty word then [word] else []
  | String c s' =>
      if isspace c then
        if nonempty word then word :: split_from EmptyString s'
        else split_from EmptyString s'
      else split_from (word +:+ String c EmptyString) s'
  end.

Definition split (s : string) : list string := split_from EmptyString s.

End Py.

(** ** Rows *)

Abbreviation row := (gmap string string).

(** [pc.get(key, '')] *)
Definition get (pc : row) (key : string) : string := default EmptyString (pc !! key).

(** The row a reference points to. *)
Definition deref (store : list row) (ref : nat) : row := default ∅ (store !! ref).

(** An entry of [valid_records]. *)
Record valid_record := {
  vr_record : nat;
  vr_pvp : float;
  vr_stock_initial : float;
}.

(** An entry of [token_allocations]. The keys [target_weighted] and
    [target_token_price] are added by the second loop; before it they hold
    [0] here and are not read. *)
Record allocation := {
  record : nat;
  token_price_float : float;
  token_price_int : Z;
  stock_initial : float;
  weighted_value : float;
  target_weighted : float;
  target_token_price : float;
}.

(** The [[!]] lines of the console. *)
Inductive event :=
  | NoValidRecords
  | TotalIsZero
  | SumMismatch (difference : float).

(** What a call leaves behind: the rows as mutated, the [[!]] lines printed
    and the value returned or the exception raised. *)
Record outcome := {
  out_records : list row;
  out_console : list event;
  out_return : exc bool;
}.

(** ** Stable sorting

    [list.sort(key=...)] computes the key of every element and orders the
    elements by [<] on the keys, elements with equal keys staying in their
    original order, also under [reverse=True]. Keys that are NaN, for
    which [<] is no order, do not occur where the program sorts: a NaN or
    infinite target price makes [round] raise first. *)

Section Sort.
Context {A : Type}.

Fixpoint insert_asc (x : float * A) (l : list (float * A)) : list (float * A) :=
  match l with
  | [] => [x]
  | y :: l' => if (y.1 <? x.1)%float then y :: insert_asc x l' else x :: l
  end.

Fixpoint insert_desc (x : float * A) (l : list (float * A)) : list (float * A) :=
  match l with
  | [] => [x]
  | y :: l' => if (x.1 <? y.1)%float then y :: insert_desc x l' else x :: l
  end.

Definition sort_asc (l : list (float * A)) : list A := (foldr insert_asc [] l).*2.
Definition sort_desc (l : list (float * A)) : list A := (foldr insert_desc [] l).*2.
End Sort.

(** ** The allocator *)

Section Allocator.
(** The module constant, read at each use. *)
Variable TARGET_SUM : Z.

(** Lines 38-51: the filter. [i] is the position of the first row. *)
Fixpoint valid_records_from (i : nat) (product_challenges : list row)
  : exc (list valid_record) :=
  match product_challenges with
  | [] => Ok []
  | pc :: rest =>
      let pvp := Py.strip (get pc "pvp_number") in
      let stock_initial := Py.strip (get pc "nr_provogrammers_number") in
      if Py.nonempty pvp && Py.isdigit pvp
         && Py.nonempty stock_initial && Py.isdigit stock_initial
      then
        pvp_val ← Py.float_of_str pvp;
        stock_val ← Py.float_of_str stock_initial;
        if (0 <? pvp_val)%float && (0 <? stock_val)%float
        then
          valid ← valid_records_from (S i) rest;
          Ok ({| vr_record := i; vr_pvp := pvp_val; vr_stock_initial := stock_val |}
              :: valid)
        else valid_records_from (S i) rest
      else valid_records_from (S i) rest
  end.

Definition valid_records (product_challenges : list row) : exc (list valid_record) :=
  valid_records_from 0 product_challenges.

(** Lines 61 and 110. *)
Definition total_pvp_stock (valid : list valid_record) : float :=
  Py.sum ((λ r, vr_pvp r * vr_stock_initial r)%float <$> valid).

(** Line 76. *)
Definition scaling_factor (total : float) : exc float :=
  target ← Py.float_of_int TARGET_SUM;
  Py.truediv target total.

(** [alloc['token_price_int'] = v] followed by the refresh of
    [alloc['weighted_value']], as every adjustment does. *)
Definition set_token_price (v : Z) (alloc : allocation) : exc allocation :=
  tokens ← Py.float_of_int v;
  Ok {| record := record alloc;
        token_price_float := token_price_float alloc;
        token_price_int := v;
        stock_initial := stock_initial alloc;
        weighted_value := (tokens * stock_initial alloc)%float;
        target_weighted := target_weighted alloc;
        target_token_price := target_token_price alloc |}.

(** Lines 85-102, one record. The running [total_weighted_sum] of line 102
    is not read afterwards and is left out. *)
Definition first_allocation (k : float) (r : valid_record) : exc allocation :=
  let token_price_float := (vr_pvp r * k)%float in
  rounded ← Py.round token_price_float;
  let token_price_int := if rounded <? 1 then 1 else rounded in
  tokens ← Py.float_of_int token_price_int;
  Ok {| record := vr_record r;
        token_price_float := token_price_float;
        token_price_int := token_price_int;
        stock_initial := vr_stock_initial r;
        weighted_value := (tokens * vr_stock_initial r)%float;
        target_weighted := 0;
        target_token_price := 0 |}.

(** Lines 111-117, one allocation. *)
Definition set_target (store : list row) (total : float) (alloc : allocation)
  : exc allocation :=
  let pvp := Py.strip (get (deref store (record alloc)) "pvp_number") in
  pvp_val ← (if Py.nonempty pvp then Py.float_of_str pvp else Ok 0%float);
  let stock := stock_initial alloc in
  share ← Py.truediv (pvp_val * stock) total;
  target ← Py.float_of_int TARGET_SUM;
  let target_weighted := (share * target)%float in
  target_token_price ←
    (if (0 <? stock)%float then Py.truediv target_weighted stock else Ok 0%float);
  Ok {| record := record alloc;
        token_price_float := token_price_float alloc;
        token_price_int := token_price_int alloc;
        stock_initial := stock;
        weighted_value := weighted_value alloc;
        target_weighted := target_weighted;
        target_token_price := target_token_price |}.

(** Lines 120-122, one allocation. *)
Definition round_target (alloc : allocation) : exc allocation :=
  rounded ← Py.round (target_token_price alloc);
  set_token_price (Z.max 1 rounded) alloc.

(** Lines 82-122: the allocations as they stand before any adjustment. *)
Definition initial_allocations (store : list row) (valid : list valid_record)
  : exc (list allocation) :=
  let total := total_pvp_stock valid in
  k ← scaling_factor total;
  token_allocations ← mapM (first_allocation k) valid;
  token_allocations ← mapM (set_target store total) token_allocations;
  mapM round_target token_allocations.

(** Lines 125, 154 and 179. *)
Definition weighted_sum (token_allocations : list allocation) : float :=
  Py.sum (weighted_value <$> token_allocations).

(** Lines 126 and 155. *)
Definition residual (token_allocations : list allocation) : exc float :=
  target ← Py.float_of_int TARGET_SUM;
  Ok (target - weighted_sum token_allocations)%float.

(** Lines 132-135: the key, and the sort by it in decreasing order. *)
Definition rounding_error (alloc : allocation) : exc float :=
  tokens ← Py.float_of_int (token_price_int alloc);
  Ok (abs (target_token_price alloc - tokens)).

Definition sort_by_rounding_error (token_allocations : list allocation)
  : exc (list allocation) :=
  keys ← mapM rounding_error token_allocations;
  Ok (sort_desc (zip keys token_allocations)).

(** Lines 140-144. The loop returns the allocations and the last value of
    [difference]. *)
Fixpoint increase (difference : float) (token_allocations : list allocation)
  : exc (list allocation * float) :=
  match token_allocations with
  | [] => Ok ([], difference)
  | alloc :: rest =>
      if (0 <? difference)%float then
        alloc' ← set_token_price (token_price_int alloc + 1) alloc;
        '(rest', d) ← increase (difference - stock_initial alloc) rest;
        Ok (alloc' :: rest', d)
      else
        '(rest', d) ← increase difference rest;
        Ok (alloc :: rest', d)
  end.

(** Lines 147-151. *)
Fixpoint decrease (difference : float) (token_allocations : list allocation)
  : exc (list allocation * float) :=
  match token_allocations with
  | [] => Ok ([], difference)
  | alloc :: rest =>
      if (difference <? 0)%float && (1 <? token_price_int alloc) then
        alloc' ← set_token_price (token_price_int alloc - 1) alloc;
        '(rest', d) ← decrease (difference + stock_initial alloc) rest;
        Ok (alloc' :: rest', d)
      else
        '(rest', d) ← decrease difference rest;
        Ok (alloc :: rest', d)
  end.

(** Lines 132-151: the coarse pass, entered with [difference != 0]. *)
Definition coarse_pass (difference : float) (token_allocations : list allocation)
  : exc (list allocation) :=
  sorted ← sort_by_rounding_error token_allocations;
  if (0 <? difference)%float
  then fst <$> increase difference sorted
  else fst <$> decrease difference sorted.

(** Lines 162-176: the loop of the fine pass, left at the first
    [abs(remaining_diff) == 0]. *)
Fixpoint fine_loop (remaining_diff : float) (token_allocations : list allocation)
  : exc (list allocation * float) :=
  match token_allocations with
  | [] => Ok ([], remaining_diff)
  | alloc :: rest =>
      let stock := stock_initial alloc in
      '(alloc', remaining_diff') ←
        (if (0 <? remaining_diff)%float then
           alloc' ← set_token_price (token_price_int alloc + 1) alloc;
           Ok (alloc', remaining_diff - stock)%float
         else if (remaining_diff <? 0)%float && (1 <? token_price_int alloc) then
           alloc' ← set_token_price (token_price_int alloc - 1) alloc;
           Ok (alloc', remaining_diff + stock)%float
         else Ok (alloc, remaining_diff));
      if (abs remaining_diff' =? 0)%float then Ok (alloc' :: rest, remaining_diff')
      else
        '(rest', d) ← fine_loop remaining_diff' rest;
        Ok (alloc' :: rest', d)
  end.

(** Line 159. *)
Definition sort_by_stock (token_allocations : list allocation) : list allocation :=
  sort_asc (zip (stock_initial <$> token_allocations) token_allocations).

(** Lines 154-176: the fine pass. *)
Definition fine_pass (token_allocations : list allocation) : exc (list allocation) :=
  remaining_diff ← residual token_allocations;
  if (0 <? abs remaining_diff)%float
  then fst <$> fine_loop remaining_diff (sort_by_stock token_allocations)
  else Ok token_allocations.

(** Lines 125-176: both passes, run when the initial rounding misses the
    target. *)
Definition redistribute (token_allocations : list allocation) : exc (list allocation) :=
  difference ← residual token_allocations;
  if negb (difference =? 0)%float then
    token_allocations ← coarse_pass difference token_allocations;
    fine_pass token_allocations
  else Ok token_allocations.

(** Lines 82-176. *)
Definition token_allocations (store : list row) (valid : list valid_record)
  : exc (list allocation) :=
  initial ← initial_allocations store valid;
  redistribute initial.

(** Lines 179-184: the final sum and the warning line, if any. *)
Definition verify_sum (final_sum : float) : exc (list event) :=
  if negb (Py.float_eq_int final_sum TARGET_SUM) then
    target ← Py.float_of_int TARGET_SUM;
    Ok [SumMismatch (final_sum - target)%float]
  else Ok [].

(** Lines 199-200. *)
Definition write_tokens (tokens : Z) (r : row) : row :=
  <["price_currency_option_currency_type" := "token"]>
    (<["token_price_number" := Py.str_of_int tokens]> r).

(** Lines 192-209: the update of the rows, in the final order of the
    allocations. For each one: the price is read again (line 195), the two
    columns are written (lines 199-200), and the report reads
    [record['_id']] (line 204, [KeyError] when the column is missing),
    [int(pvp)] and [int(stock_initial)] (lines 205-206). The rows are
    returned as they are when the loop ends or raises. *)
Fixpoint update_records (allocations : list allocation) (store : list row)
  : list row * exc unit :=
  match allocations with
  | [] => (store, Ok tt)
  | alloc :: rest =>
      let ref := record alloc in
      let text := Py.strip (get (deref store ref) "pvp_number") in
      match (if Py.nonempty text then Py.float_of_str text else Ok 0%float) with
      | Raise e => (store, Raise e)
      | Ok pvp =>
          let store' := alter (write_tokens (token_price_int alloc)) ref store in
          match deref store' ref !! "_id" with
          | None => (store', Raise KeyError)
          | Some _ =>
              match (_ ← Py.int_of_float pvp; Py.int_of_float (stock_initial alloc)) with
              | Raise e => (store', Raise e)
              | Ok _ => update_records rest store'
              end
          end
      end
  end.

(** Lines 191 and 202: [total_stock] is the running sum of the stocks, in
    the final order of the allocations; it is read after the loop only. *)
Definition total_stock (allocations : list allocation) : float :=
  Py.sum (stock_initial <$> allocations).

(** Lines 211-214: the closing report. The average divides by
    [total_stock] only when it is positive; [int(total_stock)] raises
    [OverflowError] when the stocks add up to infinity. *)
Definition closing_report (final_sum : float) (allocations : list allocation)
  : exc unit :=
  let total_stock := total_stock allocations in
  avg_price ← (if (0 <? total_stock)%float then Py.truediv final_sum total_stock
               else Ok 0%float);
  _ ← Py.int_of_float total_stock;
  Ok tt.

(** The function. *)
Definition calculate_token_prices (product_challenges : list row) : outcome :=
  let stop e := {| out_records := product_challenges; out_console := [];
                   out_return := Raise e |} in
  match valid_records product_challenges with
  | Raise e => stop e
  | Ok [] =>
      {| out_records := product_challenges; out_console := [NoValidRecords];
         out_return := Ok false |}
  | Ok valid =>
      if (total_pvp_stock valid =? 0)%float then
        {| out_records := product_challenges; out_console := [TotalIsZero];
           out_return := Ok false |}
      else
        match token_allocations product_challenges valid with
        | Raise e => stop e
        | Ok allocations =>
            match verify_sum (weighted_sum allocations) with
            | Raise e => stop e
            | Ok console =>
                let '(store, done) := update_records allocations product_challenges in
                {| out_records := store; out_console := console;
                   out_return :=
                     _ ← done;
                     _ ← closing_report (weighted_sum allocations) allocations;
                     Ok true |}
            end
        end
  end.
End Allocator.

(** Line 25. *)
Definition TARGET_SUM : Z := 11000.


(** ** The script around the function: lines 218-259

    A CSV file is the list of its lines, a line being the list of its
    fields, as the [csv] module reads and writes them. *)

Definition csv_file := list (list string).

(** [dict(zip(fieldnames, line))]: of two fields of the same name the later
    one stays. *)
Definition dict_of_line (fieldnames line : list string) : row :=
  list_to_map (reverse (zip fieldnames line)).

(** [csv.DictReader(f)]: the field names and [list(reader)], on a file
    whose lines have as many fields as the header; empty lines are
    skipped. *)
Definition DictReader (f : csv_file) : list string * list row :=
  match f with
  | [] => ([], [])
  | fieldnames :: lines =>
      (fieldnames, dict_of_line fieldnames <$> filter (λ line, line ≠ []) lines)
  end.

(** [DictWriter._dict_to_list], with the defaults [restval=''] and
    [extrasaction='raise']: a key that is no field name is a
    [ValueError]. *)
Definition dict_to_list (fieldnames : list string) (rowdict : row) : exc (list string) :=
  let wrong_fields : gset string := dom rowdict ∖ list_to_set fieldnames in
  if decide (wrong_fields = ∅) then Ok (get rowdict <$> fieldnames)
  else Raise ValueError.

(** [writer.writerows(rowdicts)]: each row is converted and written in
    turn, so that the lines before a row that raises are in the file. *)
Fixpoint writerows (fieldnames : list string) (rowdicts : list row) (f : csv_file)
  : csv_file * exc unit :=
  match rowdicts with
  | [] => (f, Ok tt)
  | rowdict :: rest =>
      match dict_to_list fieldnames rowdict with
      | Raise e => (f, Raise e)
      | Ok line => writerows fieldnames rest (f ++ [line])
      end
  end.

(** Lines 231-259, for a file that exists: the file as the script leaves
    it, and how the script ends. Opening the file for writing empties it;
    [writeheader] writes the field names. *)
Definition script (T : Z) (f : csv_file) : csv_file * exc unit :=
  let product_challenges := (DictReader f).2 in
  let out := calculate_token_prices T product_challenges in
  match out_return out with
  | Raise e => (f, Raise e)
  | Ok false => (f, Ok tt)
  | Ok true =>
      let fieldnames := (DictReader f).1 in
      writerows fieldnames (out_records out) [fieldnames]
  end.

(** * The final prices: [scripts/update_final_token_prices.py] *)

Module update_final_token_prices.

(** Lines 21-72. *)
Definition final_value (id tokens : string) : row :=
  {[ "_id" := id; "token_price_number" := tokens;
     "price_currency_option_currency_type" := "token" ]}.

Definition final_values : list row :=
  [ final_value "1765145428310x333400327492867400" "6";
    final_value "1765145429762x164234135966944350" "7";
    final_value "1765145430800x127220685623587340" "2";
    final_value "1765145431963x751118130443184600" "3";
    final_value "1765145433052x654690137555272700" "4";
    final_value "1765145434224x100938318907304320" "7";
    final_value "1765145435476x138923755421354930" "4";
    final_value "1765145436520x425172236358683650" "7";
    final_value "1765145437540x340180091913216800" "7";
    final_value "1765145438838x831403677751094700" "7" ].

(** Line 75: a later value of the same [_id] replaces an earlier one.
    Every value has the three keys, so that the subscripts of lines 75, 99
    and 100 find them. *)
Definition final_lookup : gmap string row :=
  foldl (λ lookup v, <[get v "_id" := v]> lookup) ∅ final_values.

(** Lines 96-101, one record: the record as the loop leaves it, and whether
    it was counted. *)
Definition update_record (record : row) : row * bool :=
  let record_id := Py.strip (get record "_id") in
  match final_lookup !! record_id with
  | Some final_data =>
      (<["price_currency_option_currency_type" :=
           get final_data "price_currency_option_currency_type"]>
         (<["token_price_number" := get final_data "token_price_number"]> record),
       true)
  | None => (record, false)
  end.

(** Lines 94-101: the records and [updated_count]. *)
Definition update_records (records : list row) : list row * Z :=
  let updated := update_record <$> records in
  (updated.*1, Z.of_nat (length (filter (λ p, p.2 = true) updated))).

(** Lines 86-111, for a file that has a header line: the file as the
    script leaves it, and how the script ends. The file is written whatever
    the loop did. *)
Definition script (fieldnames : list string) (lines : list (list string))
  : csv_file * exc unit :=
  let records := (DictReader (fieldnames :: lines)).2 in
  writerows fieldnames (update_records records).1 [fieldnames].

End update_final_token_prices.

(** * The image fields: [scripts/fix_program_image_format.py] *)

Module fix_program_image_format.

(** The characters of the class of line 28: any but the two quotes, white
    space, the two square brackets and the comma. *)
Definition url_char (c : ascii) : bool :=
  negb (bool_decide (c ∈ ["'"; "034"; "["; "]"; ","]%char) || Py.isspace c).

(** The longest prefix of [s] made of such characters, and what follows
    it. *)
Fixpoint span_url (s : string) : string * string :=
  match s with
  | EmptyString => (EmptyString, EmptyString)
  | String c s' =>
      if url_char c then let '(body, rest) := span_url s' in (String c body, rest)
      else (EmptyString, s)
  end.

(** [re.findall] with the pattern of line 28: the matches are looked for from
    the left; one starts at two slashes followed by at least one character
    of the class, takes all the characters of the class that follow, and
    the search goes on after it. [fuel] bounds the number of positions
    tried. *)
Fixpoint findall_from (fuel : nat) (s : string) : list string :=
  match fuel with
  | O => []
  | S fuel =>
      match s with
      | EmptyString => []
      | String "/" (String "/" s2 as s1) =>
          match span_url s2 with
          | (EmptyString, _) => findall_from fuel s1
          | (body, rest) => ("//" +:+ body) :: findall_from fuel rest
          end
      | String _ s1 => findall_from fuel s1
      end
  end.

Definition findall (s : string) : list string := findall_from (String.length s) s.

(** Line 35. *)
Definition trim (url : string) : string :=
  Py.rstrip_char ")" (Py.rstrip_char "]" (Py.rstrip_char "'"
    (Py.rstrip_char "034" (Py.rstrip_char "092" url)))).

(** Lines 31-38: [seen] holds the URLs of [unique_urls]. *)
Fixpoint unique (urls unique_urls : list string) : list string :=
  match urls with
  | [] => unique_urls
  | url :: rest =>
      let url := trim url in
      if Py.nonempty url && negb (bool_decide (url ∈ unique_urls))
      then unique rest (unique_urls ++ [url])
      else unique rest unique_urls
  end.

(** Lines 22-40. *)
Definition clean_image_urls (value : string) : string :=
  if negb (Py.nonempty value) || negb (Py.nonempty (Py.strip value)) then EmptyString
  else Py.join "," (unique (findall value) []).

(** Lines 58-71, one row. *)
Definition clean_row (r : row) : row :=
  let r :=
    match r !! "banners_list_image" with
    | Some old_val => <["banners_list_image" := clean_image_urls old_val]> r
    | None => r
    end in
  match r !! "posters_square_list_image" with
  | Some old_val => <["posters_square_list_image" := clean_image_urls old_val]> r
  | None => r
  end.

(** Lines 50-77, for a file that has a header line: the file as the script
    leaves it, and how the script ends. *)
Definition script (fieldnames : list string) (lines : list (list string))
  : csv_file * exc unit :=
  let rows := (DictReader (fieldnames :: lines)).2 in
  writerows fieldnames (clean_row <$> rows) [fieldnames].

End fix_program_image_format.

(** * The scrapers: [scripts/scrape_jumbo_prices.py] and
      [scripts/scrape_jumbo_images.py]

    Of these scripts the code that does not drive the browser. *)

(** The text that both scripts spell with U+00C3 and U+00B3 in the place
    of the accented [o] (line 197 of the first, line 151 of the
    second). *)
Definition oleo_misread : string :=
  String "195" (String "179" "leo extraordinario").

Module scrape_jumbo_prices.

(** Lines 62-79, on a [str]: [None], an [int], or the [ValueError] of
    [int]. *)
Definition extract_price_from_text (text : string) : exc (option Z) :=
  if negb (Py.nonempty text) then Ok None
  else
    let text :=
      Py.strip (Py.remove_three "c" "l" "p"
                  (Py.remove_three "C" "L" "P" (Py.remove_char "$" text))) in
    let text := Py.remove_char "." text in
    let text := Py.remove_char "," text in
    let numbers := Py.digit_runs EmptyString text in
    match numbers with
    | [] => Ok None
    | n :: rest =>
        first ← Py.int_of_str n;
        others ← mapM Py.int_of_str rest;
        Ok (Some (Py.max_of first others))
    end.

(** Lines 180-218, on a [str]. A branch of a conditional that ends without
    [return] falls out of it to the end of the function, which returns
    [None]. *)
Definition build_search_query_from_product_name (name : string) : option string :=
  if negb (Py.nonempty name) then None
  else
    let name_lower := Py.lower name in
    let has word := Py.contains word name_lower in
    if has "elvive" then
      if has "hialuronico" || has "micelar" then Some "elvive hialuronico shampoo"
      else if has "color vive" then
        if has "shampoo" then Some "elvive color vive shampoo violeta"
        else if has "acondicionador" then Some "elvive color vive acondicionador violeta"
        else None
      else if has "oleo extraordinario" || has oleo_misread then
        if has "shampoo" then Some "elvive oleo extraordinario shampoo"
        else Some "elvive oleo extraordinario tratamiento"
      else None
    else if has "infallible" || has "infaillible" then
      if has "matte resistance" then
        if has "625" || has "summer fling" then Some "infallible matte resistance 625"
        else if has "fairytale" then Some "infallible matte resistance fairytale"
        else None
      else Some "infallible matte"
    else if has "telescopic" then Some "loreal telescopic lift mascara"
    else if has "glycolic" || has "gloss" || has "acidifier"
    then Some "elvive glycolic gloss"
    else if has "revitalift" || (has "crema" && has "noche")
    then Some "loreal revitalift crema noche"
    else
      let words :=
        take 4 (filter (λ w, (3 < String.length w)%nat) (Py.split name_lower)) in
      match words with
      | [] => Some name_lower
      | _ => Some (Py.join " " words)
      end.

(** Lines 276-281: whether the loop skips a product as one that has a
    price already. The message of line 279 converts the price with
    [int]. *)
Definition already_priced (pc : row) : exc bool :=
  let current_price := Py.strip (get pc "pvp_number") in
  if Py.nonempty current_price && Py.isdigit current_price then
    _ ← Py.int_of_str current_price;
    Ok true
  else Ok false.

End scrape_jumbo_prices.

Module scrape_jumbo_images.

(** Lines 136-173, the cascade of the products loop: the value of the
    variable [search_query] after it, from its value before, [None] when
    the variable is not bound. A branch that assigns nothing leaves the
    variable as the previous product left it. *)
Definition search_query_after (search_query : option string) (product_name : string)
  : option string :=
  let name := Py.lower product_name in
  let has word := Py.contains word name in
  if has "elvive" then
    if has "hialuronico" || has "micelar" then Some "elvive hialuronico shampoo"
    else if has "color vive" then
      if has "shampoo" then Some "elvive color vive shampoo violeta"
      else if has "acondicionador" then Some "elvive color vive acondicionador violeta"
      else search_query
    else if has "oleo extraordinario" || has oleo_misread then
      if has "shampoo" then Some "elvive oleo extraordinario shampoo"
      else Some "elvive oleo extraordinario tratamiento"
    else search_query
  else if has "infallible" || has "infaillible" then
    if has "matte resistance" then
      if has "625" || has "summer fling" then Some "infallible matte resistance 625"
      else if has "fairytale" then Some "infallible matte resistance fairytale"
      else search_query
    else Some "infallible matte"
  else if has "telescopic" then Some "loreal telescopic lift mascara"
  else if has "glycolic" || has "gloss" || has "acidifier"
  then Some "elvive glycolic gloss"
  else if has "revitalift" || (has "crema" && has "noche")
  then Some "loreal revitalift crema noche"
  else
    Some (Py.join " "
            (take 4 (filter (λ w, (3 < String.length w)%nat) (Py.split name)))).

End scrape_jumbo_images.

(** * Statements

    The vocabulary of the properties proved below. *)

(** ** Reading a result *)

(** [on_ok P m]: [P] holds of the value of [m], if [m] has one. *)
Definition on_ok {A} (P : A → Prop) (m : exc A) : Prop :=
  match m with
  | Ok a => P a
  | Raise _ => True
  end.

(** The final allocations of a call, when it gets that far. *)
Definition final_allocations (T : Z) (product_challenges : list row)
  : exc (list allocation) :=
  valid ← valid_records product_challenges;
  token_allocations T product_challenges valid.

(** The prices of a list of allocations, alone and with the row each
    belongs to. *)
Definition prices (l : list allocation) : list Z := token_price_int <$> l.

Definition placed_prices (l : list allocation) : list (nat * Z) :=
  (λ a, (record a, token_price_int a)) <$> l.

(** [final_sum == TARGET_SUM], as line 182 tests it. *)
Definition hits_target (T : Z) (l : list allocation) : bool :=
  Py.float_eq_int (weighted_sum l) T.

(** The column [token_price_number] of each row. *)
Definition token_prices (rows : list row) : list (option string) :=
  (λ r : row, r !! "token_price_number") <$> rows.

(** [raises_only P m]: an exception raised by [m] satisfies [P]. *)
Definition raises_only {A} (P : pyexn → Prop) (m : exc A) : Prop :=
  ∀ e, m = Raise e → P e.

Definition not_zero_division (e : pyexn) : Prop := e ≠ ZeroDivisionError.

(** ** Allocations *)

(** The floor of one token. *)
Definition floor_ok (a : allocation) : Prop := 1 ≤ token_price_int a.

(** [adjusted a a']: [a'] is [a] with its price kept, raised by one, or
    lowered by one from a price above [1]; the row, the stock and the
    target price are those of [a]. *)
Definition adjusted (a a' : allocation) : Prop :=
  record a' = record a
  ∧ stock_initial a' = stock_initial a
  ∧ target_token_price a' = target_token_price a
  ∧ (a' = a
     ∨ token_price_int a' = token_price_int a + 1
     ∨ (1 < token_price_int a ∧ token_price_int a' = token_price_int a - 1)).

(** Decreasing order of the sort keys: an element is not less than the
    next one. *)
Definition keys_descend {A} (x y : float * A) : Prop := (x.1 <? y.1)%float = false.

(** ** The coarse pass in the words of the specification

    The specification speaks of items, each with a multiplicity, an
    assigned value and an ideal value. The items are put in decreasing
    order of the absolute rounding error [|idealValue - assignedValue|] and
    the list is walked once; while the residual is positive the next item
    is raised by one and its multiplicity taken off the residual, while it
    is negative the next item is lowered by one, if above 1, and its
    multiplicity added back. The walk is over as soon as the residual has
    lost the sign it started with, and the items not reached stay as they
    are. *)

Record item := {
  multiplicity : float;
  assignedValue : Z;
  idealValue : float;
}.

(** [|idealValue - assignedValue|], the assigned value taken as the float
    nearest to it. *)
Definition absolute_rounding_error (i : item) : float :=
  abs (idealValue i - Py.nearest_float (assignedValue i)).

(** The error of [i] is not less than the error of [j]. *)
Definition descending_error (i j : item) : Prop :=
  (absolute_rounding_error i <? absolute_rounding_error j)%float = false.

Definition incremented (i : item) : item :=
  {| multiplicity := multiplicity i;
     assignedValue := assignedValue i + 1;
     idealValue := idealValue i |}.

Definition decremented (i : item) : item :=
  {| multiplicity := multiplicity i;
     assignedValue := assignedValue i - 1;
     idealValue := idealValue i |}.

Fixpoint spec_raise (residual : float) (ordered : list item) : list item :=
  match ordered with
  | [] => []
  | i :: rest =>
      if (0 <? residual)%float
      then incremented i :: spec_raise (residual - multiplicity i) rest
      else ordered
  end.

Fixpoint spec_lower (residual : float) (ordered : list item) : list item :=
  match ordered with
  | [] => []
  | i :: rest =>
      if (residual <? 0)%float then
        if 1 <? assignedValue i
        then decremented i :: spec_lower (residual + multiplicity i) rest
        else i :: spec_lower residual rest
      else ordered
  end.

Definition spec_walk (residual : float) (ordered : list item) : list item :=
  if (0 <? residual)%float then spec_raise residual ordered
  else spec_lower residual ordered.

(** The item an allocation stands for. *)
Definition item_of (a : allocation) : item :=
  {| multiplicity := stock_initial a;
     assignedValue := token_price_int a;
     idealValue := target_token_price a |}.

(** [has_error e a]: the absolute rounding error of [a] equals [e]. *)
Definition has_error (e : float) (a : allocation) : Prop :=
  Is_true (absolute_rounding_error (item_of a) =? e)%float.

#[global] Instance has_error_dec (e : float) (a : allocation) : Decision (has_error e a) :=
  Is_true_dec _.

(** [in_the_order_of_specification l ordered]: [ordered] holds the
    allocations of [l] in decreasing order of absolute rounding error (no
    error is less than the next one, nor, when no error is NaN, than any
    later one), those of equal error in the order they have in [l]. *)
Definition in_the_order_of_specification (l ordered : list allocation) : Prop :=
  ordered ≡ₚ l
  ∧ Sorted descending_error (item_of <$> ordered)
  ∧ (Forall (λ a, is_nan (absolute_rounding_error (item_of a)) = false) l →
       StronglySorted descending_error (item_of <$> ordered))
  ∧ ∀ e, filter (has_error e) ordered = filter (has_error e) l.

(** An integer within one of the price of [a] that no float holds. *)
Definition price_without_float (a : allocation) : Prop :=
  ∃ n, token_price_int a - 1 ≤ n ≤ token_price_int a + 1
       ∧ Py.float_of_int n = Raise OverflowError.

(** ** Rows *)

(** [frame r r']: [r'] is [r] but for the two columns the update writes,
    and the currency column, if it changed, holds ["token"]. *)
Definition frame (r r' : row) : Prop :=
  (∀ k, k ≠ "token_price_number" → k ≠ "price_currency_option_currency_type" →
        r' !! k = r !! k)
  ∧ (r' !! "price_currency_option_currency_type"
       = r !! "price_currency_option_currency_type"
     ∨ r' !! "price_currency_option_currency_type" = Some "token").

(** [pvp_val > 0 and stock_val > 0], as line 46 tests it. *)
Definition positive_record (r : valid_record) : Prop :=
  (0 <? vr_pvp r)%float = true ∧ (0 <? vr_stock_initial r)%float = true.

(** [reads_positive text n]: stripped of surrounding whitespace, [text]
    passes [isdigit] and writes the positive integer [n] in decimal. *)
Definition reads_positive (text : string) (n : Z) : Prop :=
  Py.isdigit (Py.strip text) = true ∧ Py.decimal_of 0 (Py.strip text) = Some n ∧ 1 ≤ n.

(** A row the filter accepts, with the integers its two columns write. *)
Definition accepted (pc : row) (n k : Z) : Prop :=
  reads_positive (get pc "pvp_number") n
  ∧ reads_positive (get pc "nr_provogrammers_number") k.

(** ** Floats *)

(** [at_least_one s]: [s] is [+infinity] or a positive normal number, of
    value at least [1]. *)
Definition at_least_one (s : spec_float) : Prop :=
  s = S754_infinity false
  ∨ ∃ m e, s = S754_finite false m e ∧ 2 ^ 52 ≤ Z.pos m < 2 ^ 53 ∧ -52 ≤ e ≤ 971.

Definition is_at_least_one (x : float) : Prop := at_least_one (Prim2SF x).

(** A record whose price and stock are at least one. *)
Definition usable (r : valid_record) : Prop :=
  is_at_least_one (vr_pvp r) ∧ is_at_least_one (vr_stock_initial r).

Definition finite_or_infinite (s : spec_float) : Prop :=
  (∃ sx, s = S754_infinity sx) ∨ ∃ sx m e, s = S754_finite sx m e.

(** ** Three statements that do not hold *)

(** [reachable T multiplicities]: [T] is a sum of the multiplicities with
    integer weights of at least one. *)
Definition reachable (T : Z) (multiplicities : list Z) : Prop :=
  ∃ values : list Z,
    length values = length multiplicities
    ∧ Forall (λ v, 1 ≤ v) values
    ∧ foldr Z.add 0 (zip_with Z.mul values multiplicities) = T.

(** A reachable target is always met. *)
Definition exactness_claim : Prop :=
  ∀ (product_challenges : list row) (valid : list valid_record)
    (multiplicities : list Z) (final : list allocation),
    valid_records product_challenges = Ok valid →
    valid ≠ [] →
    vr_stock_initial <$> valid = Py.nearest_float <$> multiplicities →
    reachable TARGET_SUM multiplicities →
    token_allocations TARGET_SUM product_challenges valid = Ok final →
    hits_target TARGET_SUM final = true.

(** The function returns [True] exactly when the final weighted sum equals
    the target. *)
Definition flag_claim : Prop :=
  ∀ (product_challenges : list row) (final : list allocation),
    final_allocations TARGET_SUM product_challenges = Ok final →
    (out_return (calculate_token_prices TARGET_SUM product_challenges) = Ok true
     ↔ hits_target TARGET_SUM final = true).

(** The two columns of a record that takes part are themselves strings of
    digits. *)
Definition digits_only_claim : Prop :=
  ∀ (product_challenges : list row) (valid : list valid_record) (i : nat) (pc : row),
    valid_records product_challenges = Ok valid →
    product_challenges !! i = Some pc →
    i ∈ vr_record <$> valid →
    Py.isdigit (get pc "pvp_number") = true
    ∧ Py.isdigit (get pc "nr_provogrammers_number") = true.

(** ** Batches and allocations used as examples *)

(** A row with the three columns the function reads. *)
Definition challenge (id pvp stock : string) : row :=
  {[ "_id" := id; "pvp_number" := pvp; "nr_provogrammers_number" := stock ]}.

(** Two products of price 1 with stocks 4 and 3, and the records the
    filter keeps of them. *)
Definition stocks_4_3 : list row := [challenge "a" "1" "4"; challenge "b" "1" "3"].

Definition valid_4_3 : list valid_record :=
  [ {| vr_record := 0; vr_pvp := 1; vr_stock_initial := 4 |};
    {| vr_record := 1; vr_pvp := 1; vr_stock_initial := 3 |} ].

(** A batch without a usable record: a price that is not a number and a
    stock of zero. *)
Definition unusable_batch : list row :=
  [challenge "a" "abc" "4"; challenge "b" "12" "0"].

(** A price written with a leading blank. *)
Definition padded_batch : list row := [challenge "a" " 5" "2"].

(** Scenario B: two products of price 1 and stock 1. *)
Definition scenario_B : list row := [challenge "a" "1" "1"; challenge "b" "1" "1"].

(** Scenario D: two products of price 1 and stock 5. *)
Definition scenario_D : list row := [challenge "a" "1" "5"; challenge "b" "1" "5"].

(** An allocation of scenario D after the initial rounding: one token, a
    stock of 5. *)
Definition pinned (a : allocation) : Prop :=
  token_price_int a = 1 ∧ stock_initial a = 5%float ∧ weighted_value a = 5%float.

(** The allocation of row [ref] with the price [tokens], the stock [stock]
    and the target price [ideal]. *)
Definition example_allocation (ref : nat) (tokens : Z) (stock ideal : float)
  : allocation :=
  {| record := ref;
     token_price_float := ideal;
     token_price_int := tokens;
     stock_initial := stock;
     weighted_value := Py.nearest_float tokens * stock;
     target_weighted := ideal * stock;
     target_token_price := ideal |}.

(** ** Further vocabulary *)

Definition consistent (a : allocation) : Prop :=
  weighted_value a = (Py.nearest_float (token_price_int a) * stock_initial a)%float.

Definition within_two (a a' : allocation) : Prop :=
  record a' = record a
  ∧ stock_initial a' = stock_initial a
  ∧ target_token_price a' = target_token_price a
  ∧ 1 ≤ token_price_int a'
  ∧ token_price_int a - 2 ≤ token_price_int a' ≤ token_price_int a + 2.

(** [finite_float x]: [x] is a nonzero finite number. *)
Definition finite_float (x : float) : Prop := ∃ s m e, Prim2SF x = S754_finite s m e.

(** The allocation the first three loops make of the record [v]. *)
Definition initial_allocation_of (target total : float) (v : valid_record)
    (a : allocation) : Prop :=
  let share := (vr_pvp v * vr_stock_initial v / total)%float in
  record a = vr_record v
  ∧ stock_initial a = vr_stock_initial v
  ∧ token_price_float a = (vr_pvp v * (target / total))%float
  ∧ target_weighted a = (share * target)%float
  ∧ target_token_price a = (share * target / vr_stock_initial v)%float
  ∧ (∃ first, Py.round (token_price_float a) = Ok first)
  ∧ ∃ rounded, Py.round (target_token_price a) = Ok rounded
               ∧ token_price_int a = Z.max 1 rounded.

(** The exceptions of the arithmetic: all but [KeyError]. *)
Definition not_key_error (e : pyexn) : Prop := e ≠ KeyError.

(** The price of the row of [a], read again as line 195 does. *)
Definition price_read (store : list row) (a : allocation) : exc float :=
  let text := Py.strip (get (deref store (record a)) "pvp_number") in
  if Py.nonempty text then Py.float_of_str text else Ok 0%float.

(** A product without the column [_id]. *)
Definition no_id_batch : list row :=
  [ {[ "pvp_number" := "1"; "nr_provogrammers_number" := "1" ]} ].

(** Two products whose stocks are written [1] followed by 308 zeros: each
    is a finite float, their sum is not. *)
Definition huge_stocks : list row :=
  [ challenge "a" "1" (Py.str_of_int (10 ^ 308));
    challenge "b" "1" (Py.str_of_int (10 ^ 308)) ].

(** [same_inputs r r']: the rows [r] and [r'] differ at most in the two
    columns the update writes. *)
Definition same_inputs (r r' : row) : Prop :=
  ∀ k, k ≠ "token_price_number" → k ≠ "price_currency_option_currency_type" →
       r' !! k = r !! k.

(** Increasing order of the sort keys, and of the stocks: an element is
    not greater than the next one. *)
Definition keys_ascend {A} (x y : float * A) : Prop := (y.1 <? x.1)%float = false.

Definition not_larger_stock (a b : allocation) : Prop :=
  (stock_initial b <? stock_initial a)%float = false.

(** [first_visit d a a']: [a'] is [a] after the fine pass has visited it
    with the residual [d]: raised by one under a positive residual; under a
    negative one, lowered by one from a price above [1] and kept
    otherwise. *)
Definition first_visit (d : float) (a a' : allocation) : Prop :=
  ((0 <? d)%float = true → token_price_int a' = token_price_int a + 1)
  ∧ ((d <? 0)%float = true → 1 < token_price_int a →
       token_price_int a' = token_price_int a - 1)
  ∧ ((d <? 0)%float = true → token_price_int a ≤ 1 → a' = a).

(** [stops_when_met d a rest rest']: when the adjustment of [a], visited
    with the residual [d], brings the residual to zero, the allocations
    [rest] that come after it are left as they are. *)
Definition stops_when_met (d : float) (a : allocation) (rest rest' : list allocation)
  : Prop :=
  ((0 <? d)%float = true → (abs (d - stock_initial a) =? 0)%float = true → rest' = rest)
  ∧ ((d <? 0)%float = true → 1 < token_price_int a →
       (abs (d + stock_initial a) =? 0)%float = true → rest' = rest).

(** [unreadable pc]: the two columns of [pc] pass [isdigit] once stripped,
    and one of them holds a digit that is not decimal. *)
Definition unreadable (pc : row) : Prop :=
  let pvp := Py.strip (get pc "pvp_number") in
  let stock_initial := Py.strip (get pc "nr_provogrammers_number") in
  Py.isdigit pvp = true ∧ Py.isdigit stock_initial = true
  ∧ (Py.decimal_of 0 pvp = None ∨ Py.decimal_of 0 stock_initial = None).

(** A price written with the superscript two, U+00B2. *)
Definition superscript_batch : list row :=
  [challenge "a" "7" "2"; challenge "b" (String "178"%char EmptyString) "1"].

(** ** The other scripts *)

(** The prices of the table. *)
Definition final_prices : list string := ["2"; "3"; "4"; "6"; "7"].

(** [listed r]: the [_id] of [r], stripped, is one of the table. *)
Definition listed (r : row) : Prop :=
  is_Some (update_final_token_prices.final_lookup !! Py.strip (get r "_id")).

(** [all_chars p s]: every character of [s] satisfies [p]. *)
Fixpoint all_chars (p : ascii → bool) (s : string) : bool :=
  match s with
  | EmptyString => true
  | String c s' => p c && all_chars p s'
  end.

(** The last character of a string. *)
Fixpoint last_char (s : string) : option ascii :=
  match s with
  | EmptyString => None
  | String c EmptyString => Some c
  | String _ s' => last_char s'
  end.

(** [url_shaped u]: two slashes followed by characters of the class. *)
Definition url_shaped (u : string) : Prop :=
  ∃ body, u = "//" +:+ body ∧ all_chars fix_program_image_format.url_char body = true.

(** [clean_url u]: a URL that [trim] leaves as it is: two slashes, at
    least one character of the class after them, and neither a backslash
    nor a closing parenthesis at the end. *)
Definition clean_url (u : string) : Prop :=
  ∃ body, u = "//" +:+ body
    ∧ all_chars fix_program_image_format.url_char body = true
    ∧ ∃ c, last_char body = Some c ∧ c ≠ "092"%char ∧ c ≠ ")"%char.

(** The field of the column [name] as the script leaves it. *)
Definition cleaned_field (name v : string) : string :=
  if bool_decide (name ∈ ["banners_list_image"; "posters_square_list_image"])
  then fix_program_image_format.clean_image_urls v else v.

(** [any_char p s]: some character of [s] satisfies [p]. *)
Fixpoint any_char (p : ascii → bool) (s : string) : bool :=
  match s with
  | EmptyString => false
  | String c s' => p c || any_char p s'
  end.

(** The characters of [s] that satisfy [p], in their order. *)
Fixpoint keep_chars (p : ascii → bool) (s : string) : string :=
  match s with
  | EmptyString => EmptyString
  | String c s' => if p c then String c (keep_chars p s') else keep_chars p s'
  end.

(** A decimal digit, a dollar sign, a dot or a comma. *)
Definition price_char (c : ascii) : bool :=
  Py.is_decimal c || bool_decide (c ∈ ["$"; "."; ","]%char).

(** The text after lines 68-72: without the currency marks, the
    surrounding white space, the dots and the commas. *)
Definition bare (text : string) : string :=
  Py.remove_char "," (Py.remove_char "."
    (Py.strip (Py.remove_three "c" "l" "p"
       (Py.remove_three "C" "L" "P" (Py.remove_char "$" text))))).

(** A product name with the accented capital [O], U+00D3. *)
Definition accented_name : string :=
  "Elvive " +:+ String "211" "leo Extraordinario 400ml".

(** ** Further examples *)

(** The batch [stocks_4_3] with a price of 9 tokens already written in
    every row. *)
Definition priced_4_3 : list row := write_tokens 9 <$> stocks_4_3.

(** A product of the table of final prices. *)
Definition listed_batch : list row :=
  [challenge "1765145428310x333400327492867400" "1" "1"].

(** The header and the lines of [file_with_columns] and of
    [file_without_columns]. *)
Definition header_with_columns : list string :=
  ["_id"; "pvp_number"; "nr_provogrammers_number"; "token_price_number";
   "price_currency_option_currency_type"].

Definition lines_with_columns : list (list string) :=
  [ ["a"; "x"; "4"; EmptyString; "CLP"];
    ["b"; "1"; "1"; EmptyString; "CLP"];
    ["c"; "1"; "1"; "9"; "CLP"] ].

Definition header_without_columns : list string :=
  ["_id"; "pvp_number"; "nr_provogrammers_number"].

Definition lines_without_columns : list (list string) :=
  [ ["a"; "x"; "4"]; ["b"; "1"; "1"]; ["c"; "1"; "1"] ].

(** A file of programs: a name and a list of banners in the nested
    format. *)
Definition program_header : list string := ["name_text"; "banners_list_image"].

Definition program_lines : list (list string) :=
  [ ["p"; "['//a.com/x.png', '//a.com/x.png', '//b.com/y.png)']"] ].

(** Lines for these two headers, the second with an [_id] of the table of
    final prices. *)
Definition final_lines_with_columns : list (list string) :=
  [ ["x"; "1"; "1"; EmptyString; "CLP"];
    ["1765145428310x333400327492867400"; "1"; "1"; "9"; "CLP"] ].

Definition final_lines_without_columns : list (list string) :=
  [ ["x"; "1"; "1"];
    ["1765145428310x333400327492867400"; "1"; "1"];
    ["y"; "1"; "1"] ].

(** * Proofs *)

(** ** The error monad *)

Lemma bind_Ok {A B} (m : exc A) (k : A → exc B) (b : B) :
  (m ≫= k) = Ok b ↔ ∃ a, m = Ok a ∧ k a = Ok b.
Proof.
  destruct m as [a|e]; simpl; split.
  - intros H. exists a. done.
  - intros (a' & [= ->] & H). done.
  - discriminate.
  - intros (a' & [=] & _).
Qed.

Lemma fmap_Ok {A B} (f : A → B) (m : exc A) (b : B) :
  (f <$> m) = Ok b ↔ ∃ a, m = Ok a ∧ b = f a.
Proof.
  destruct m as [a|e]; simpl; split.
  - intros [= <-]. by exists a.
  - intros (a' & [= ->] & ->). done.
  - discriminate.
  - intros (a' & [=] & _).
Qed.

(** Takes the successful binds of a hypothesis apart. *)
Ltac exc_inv H :=
  repeat match type of H with
  | (_ ≫= _) = Ok _ =>
      let a := fresh "a" in let Ha := fresh "Ha" in
      apply bind_Ok in H as (a & Ha & H)
  | (_ <$> _) = Ok _ =>
      let a := fresh "a" in let Ha := fresh "Ha" in
      apply fmap_Ok in H as (a & Ha & H)
  end.

Lemma mapM_Ok {A B} (f : A → exc B) (l : list A) (k : list B) :
  mapM f l = Ok k ↔ Forall2 (λ x y, f x = Ok y) l k.
Proof.
  revert k. induction l as [|x l IH]; intros k; simpl.
  - split.
    + intros [= <-]. constructor.
    + intros H. by inversion H.
  - split.
    + intros H. exc_inv H. injection H as <-.
      constructor; [done|]. by apply IH.
    + intros H. inversion H as [|? y ? k' Hx Hl]; subst.
      apply bind_Ok. exists y. split; [done|].
      apply bind_Ok. exists k'. split; [by apply IH|done].
Qed.

Lemma on_ok_intro {A} (P : A → Prop) (m : exc A) :
  (∀ a, m = Ok a → P a) → on_ok P m.
Proof. destruct m; simpl; auto. Qed.

Lemma Forall2_fmap_eq {A B C} (g : B → C) (h : A → C) (l : list A) (k : list B) :
  Forall2 (λ x y, g y = h x) l k → g <$> k = h <$> l.
Proof. induction 1; csimpl; congruence. Qed.

Lemma mapM_fmap_eq {A B C} (f : A → exc B) (g : B → C) (h : A → C)
    (l : list A) (k : list B) :
  (∀ x y, f x = Ok y → g y = h x) → mapM f l = Ok k → g <$> k = h <$> l.
Proof.
  intros Hf H. apply mapM_Ok in H. apply Forall2_fmap_eq.
  eapply Forall2_impl; [done|]. auto.
Qed.

Lemma raises_only_Ok {A} (P : pyexn → Prop) (a : A) : raises_only P (Ok a).
Proof. by intros e. Qed.

Lemma raises_only_bind {A B} (P : pyexn → Prop) (m : exc A) (k : A → exc B) :
  raises_only P m → (∀ a, m = Ok a → raises_only P (k a)) → raises_only P (m ≫= k).
Proof. intros Hm Hk e. destruct m as [a|e']; simpl; [by apply Hk|]. intros [= <-]. by apply Hm. Qed.

Lemma raises_only_fmap {A B} (P : pyexn → Prop) (m : exc A) (f : A → B) :
  raises_only P m → raises_only P (f <$> m).
Proof. intros Hm e. destruct m as [a|e']; simpl; [done|]. intros [= <-]. by apply Hm. Qed.

Lemma raises_only_mapM {A B} (P : pyexn → Prop) (f : A → exc B) (l : list A) :
  (∀ x, raises_only P (f x)) → raises_only P (mapM f l).
Proof.
  intros Hf. induction l as [|x l IH]; simpl; [apply raises_only_Ok|].
  apply raises_only_bind; [done|]. intros y _.
  apply raises_only_bind; [done|]. intros k _. apply raises_only_Ok.
Qed.

(** ** Order of floats *)

Lemma SFcompare_antisym (x y : spec_float) (c : comparison) :
  SFcompare x y = Some c → SFcompare y x = Some (CompOpp c).
Proof.
  destruct x as [sx|sx| |sx mx ex], y as [sy|sy| |sy my ey]; simpl;
    try discriminate; try (intros [= <-]; by destruct sx, sy || by destruct sx || by destruct sy).
  intros [= <-]. f_equal.
  rewrite (Z.compare_antisym ex ey).
  change (Pos.compare_cont Eq my mx) with (Pos.compare_cont (CompOpp Eq) my mx).
  rewrite <- (Pos.compare_cont_antisym mx my Eq).
  destruct sx, sy; try done; by destruct (ex ?= ey), (Pos.compare_cont Eq mx my).
Qed.

Lemma ltb_asym (x y : float) : (x <? y)%float = true → (y <? x)%float = false.
Proof.
  rewrite !ltb_spec. unfold SFltb.
  destruct (SFcompare (Prim2SF x) (Prim2SF y)) as [c|] eqn:Hc; [|done].
  rewrite (SFcompare_antisym _ _ _ Hc). by destruct c.
Qed.

Lemma SFcompare_Eq_trans (x y z : spec_float) :
  SFcompare x z = Some Eq → SFcompare y z = Some Eq → SFcompare x y = Some Eq.
Proof.
  destruct x as [sx|sx| |sx mx ex], y as [sy|sy| |sy my ey], z as [sz|sz| |sz mz ez];
    simpl; try done; try by destruct sx, sy, sz.
  intros Hx Hy.
  assert (sx = sz ∧ ex = ez ∧ mx = mz) as (-> & -> & ->).
  { destruct sx, sz; try done; destruct (ex ?= ez) eqn:He; try done;
      apply Z.compare_eq in He;
      destruct (Pos.compare_cont Eq mx mz) eqn:Hm; try done;
      apply Pos.compare_eq in Hm; done. }
  assert (sy = sz ∧ ey = ez ∧ my = mz) as (-> & -> & ->).
  { destruct sy, sz; try done; destruct (ey ?= ez) eqn:He; try done;
      apply Z.compare_eq in He;
      destruct (Pos.compare_cont Eq my mz) eqn:Hm; try done;
      apply Pos.compare_eq in Hm; done. }
  rewrite Z.compare_refl.
  change (Pos.compare_cont Eq mz mz) with (mz ?= mz)%positive.
  rewrite Pos.compare_refl. by destruct sz.
Qed.

(** Two floats equal to a third are not below one another. *)
Lemma eqb_not_ltb (x y e : float) :
  (x =? e)%float = true → (y =? e)%float = true → (x <? y)%float = false.
Proof.
  rewrite !FloatAxioms.eqb_spec, ltb_spec. unfold SFeqb, SFltb.
  destruct (SFcompare (Prim2SF x) (Prim2SF e)) as [[]|] eqn:Hx; try done.
  destruct (SFcompare (Prim2SF y) (Prim2SF e)) as [[]|] eqn:Hy; try done.
  by rewrite (SFcompare_Eq_trans _ _ _ Hx Hy).
Qed.

Lemma compare_cont_spec (p q : positive) :
  CompareSpec (p = q) (p < q)%positive (q < p)%positive (Pos.compare_cont Eq p q).
Proof. apply Pos.compare_spec. Qed.

Lemma SFltb_false_trans (x y z : spec_float) :
  x ≠ S754_nan → y ≠ S754_nan → z ≠ S754_nan →
  SFltb x y = false → SFltb y z = false → SFltb x z = false.
Proof.
  unfold SFltb.
  destruct x as [sx|sx| |sx mx ex], y as [sy|sy| |sy my ey], z as [sz|sz| |sz mz ez];
    simpl; try done; intros _ _ _;
    try (by destruct sx, sy, sz).
  destruct sx, sy, sz; try done;
    destruct (Z.compare_spec ex ey), (Z.compare_spec ey ez), (Z.compare_spec ex ez);
    try done; try lia; subst;
    destruct (compare_cont_spec mx my), (compare_cont_spec my mz),
      (compare_cont_spec mx mz);
    simpl; try done; try lia.
Qed.

Lemma is_nan_spec (x : float) : is_nan x = false → Prim2SF x ≠ S754_nan.
Proof.
  unfold is_nan. rewrite FloatAxioms.eqb_spec. intros H Hx. by rewrite Hx in H.
Qed.

(** Among floats that are not NaN, not being less is transitive. *)
Lemma ltb_false_trans (x y z : float) :
  is_nan x = false → is_nan y = false → is_nan z = false →
  (x <? y)%float = false → (y <? z)%float = false → (x <? z)%float = false.
Proof.
  rewrite !ltb_spec. intros Hx Hy Hz.
  apply SFltb_false_trans; by apply is_nan_spec.
Qed.

Lemma Prim2SF_zero : Prim2SF 0 = S754_zero false.
Proof. reflexivity. Qed.

Lemma positive_nonzero (x : float) : (0 <? x)%float = true → (x =? 0)%float = false.
Proof.
  rewrite ltb_spec, FloatAxioms.eqb_spec, Prim2SF_zero.
  by destruct (Prim2SF x) as [|[]| |[]].
Qed.

(** ** Rounding to binary64 *)

Lemma digits2_pos_bounds (p : positive) :
  2 ^ (Z.pos (digits2_pos p) - 1) ≤ Z.pos p < 2 ^ Z.pos (digits2_pos p).
Proof.
  induction p as [p IH|p IH|]; simpl digits2_pos.
  - rewrite Pos2Z.inj_succ, (Pos2Z.inj_xI p).
    replace (Z.succ (Z.pos (digits2_pos p)) - 1) with (Z.succ (Z.pos (digits2_pos p) - 1)) by lia.
    rewrite !Z.pow_succ_r by lia. lia.
  - rewrite Pos2Z.inj_succ, (Pos2Z.inj_xO p).
    replace (Z.succ (Z.pos (digits2_pos p)) - 1) with (Z.succ (Z.pos (digits2_pos p) - 1)) by lia.
    rewrite !Z.pow_succ_r by lia. lia.
  - simpl. lia.
Qed.

Lemma digits2_pos_unique (p : positive) (d : Z) :
  2 ^ (d - 1) ≤ Z.pos p < 2 ^ d → Z.pos (digits2_pos p) = d.
Proof.
  intros [Hlo Hhi]. pose proof (digits2_pos_bounds p) as [Hlo' Hhi'].
  set (d' := Z.pos (digits2_pos p)) in *.
  assert (0 < d).
  { destruct (Z.lt_ge_cases 0 d) as [|Hd]; [done|].
    apply Z.le_lteq in Hd as [Hd| ->]; [|simpl in Hhi; lia].
    rewrite (Z.pow_neg_r 2 d) in Hhi by done. lia. }
  assert (0 < d') by (unfold d'; lia).
  destruct (Z.lt_trichotomy d d') as [Hlt|[Heq|Hgt]]; [|done|].
  - assert (2 ^ d ≤ 2 ^ (d' - 1)) by (apply Z.pow_le_mono_r; lia). lia.
  - assert (2 ^ d' ≤ 2 ^ (d - 1)) by (apply Z.pow_le_mono_r; lia). lia.
Qed.

(** Shifting a mantissa right. *)
Lemma shr_1_m (r : shr_record) : 0 ≤ shr_m r → shr_m (shr_1 r) = shr_m r / 2.
Proof.
  destruct r as [m b s]. simpl. intros Hm.
  destruct m as [|[p|p|]|p]; simpl; [done| | |done|lia].
  - rewrite (Pos2Z.inj_xI p). apply (Z.div_unique _ _ _ 1); lia.
  - rewrite (Pos2Z.inj_xO p). apply (Z.div_unique _ _ _ 0); lia.
Qed.

Lemma iter_pos_shr_1_m (p : positive) (r : shr_record) :
  0 ≤ shr_m r → shr_m (SpecFloat.iter_pos shr_1 p r) = shr_m r / 2 ^ Z.pos p.
Proof.
  revert r. induction p as [p IH|p IH|]; intros r Hr; simpl SpecFloat.iter_pos;
    try assert (0 < 2 ^ Z.pos p) by (apply Z.pow_pos_nonneg; lia).
  - assert (0 ≤ shr_m (shr_1 r)) by (rewrite shr_1_m by done; apply Z.div_pos; lia).
    assert (0 ≤ shr_m (SpecFloat.iter_pos shr_1 p (shr_1 r)))
      by (rewrite IH by done; apply Z.div_pos; lia).
    rewrite !IH, shr_1_m by done.
    replace (Z.pos p~1) with (1 + Z.pos p + Z.pos p) by lia.
    rewrite !Z.pow_add_r by lia. change (2 ^ 1) with 2.
    rewrite !Z.div_div by lia; try (f_equal; lia).
  - assert (0 ≤ shr_m (SpecFloat.iter_pos shr_1 p r))
      by (rewrite IH by done; apply Z.div_pos; lia).
    rewrite !IH by done.
    replace (Z.pos p~0) with (Z.pos p + Z.pos p) by lia.
    rewrite !Z.pow_add_r by lia.
    rewrite !Z.div_div by lia; try (f_equal; lia).
  - by rewrite shr_1_m.
Qed.

Lemma shr_value (r : shr_record) (e n : Z) :
  0 ≤ shr_m r →
  shr_m (shr r e n).1 = shr_m r / 2 ^ Z.max n 0 ∧ (shr r e n).2 = e + Z.max n 0.
Proof.
  intros Hr. destruct n as [|p|p]; simpl.
  - rewrite Z.div_1_r. lia.
  - rewrite iter_pos_shr_1_m by done. rewrite Z.max_l by lia. lia.
  - rewrite Z.div_1_r. lia.
Qed.

Lemma shr_m_of_loc (m : Z) (l : location) : shr_m (shr_record_of_loc m l) = m.
Proof. by destruct l as [|[]]. Qed.

Lemma shr_fexp_value (m : positive) (e d : Z) (l : location) :
  2 ^ (d - 1) ≤ Z.pos m < 2 ^ d →
  let n := Z.max (fexp prec emax (d + e) - e) 0 in
  shr_m (shr_fexp prec emax (Z.pos m) e l).1 = Z.pos m / 2 ^ n
  ∧ (shr_fexp prec emax (Z.pos m) e l).2 = e + n.
Proof.
  intros Hm n. unfold shr_fexp. simpl Zdigits2.
  rewrite (digits2_pos_unique m d Hm).
  pose proof (shr_value (shr_record_of_loc (Z.pos m) l) e (fexp prec emax (d + e) - e)) as H.
  rewrite shr_m_of_loc in H. apply H. lia.
Qed.

Lemma round_nearest_even_bounds (m : Z) (l : location) :
  m ≤ round_nearest_even m l ≤ m + 1.
Proof. destruct l as [|[]]; simpl; try lia. destruct (Z.even m); lia. Qed.

Lemma pow2_pos (n : Z) : 0 ≤ n → 0 < 2 ^ n.
Proof. intros. apply Z.pow_pos_nonneg; lia. Qed.

Lemma round_at_least_one (m : positive) (e d : Z) :
  2 ^ (d - 1) ≤ Z.pos m < 2 ^ d → 53 ≤ d → 1 ≤ d + e →
  at_least_one (binary_round_aux prec emax false (Z.pos m) e loc_Exact).
Proof.
  intros Hm Hd He. unfold binary_round_aux.
  pose proof (shr_fexp_value m e d loc_Exact Hm) as [Hm1 He1].
  destruct (shr_fexp prec emax (Z.pos m) e loc_Exact) as [r1 e1]. simpl in Hm1, He1.
  assert (fexp prec emax (d + e) - e = d - 53) as Hn
    by (unfold fexp, SpecFloat.emin, prec, emax; lia).
  rewrite Hn, Z.max_l in Hm1, He1 by lia.
  pose proof (pow2_pos (d - 53) ltac:(lia)) as Hpos.
  assert (2 ^ (d - 1) = 2 ^ (d - 53) * 2 ^ 52) as Hlo
    by (rewrite <- Z.pow_add_r by lia; f_equal; lia).
  assert (2 ^ d = 2 ^ (d - 53) * 2 ^ 53) as Hhi
    by (rewrite <- Z.pow_add_r by lia; f_equal; lia).
  assert (2 ^ 52 ≤ shr_m r1 < 2 ^ 53) as Hr1.
  { rewrite Hm1. split.
    - apply Z.div_le_lower_bound; lia.
    - apply Z.div_lt_upper_bound; lia. }
  pose proof (round_nearest_even_bounds (shr_m r1) (loc_of_shr_record r1)) as Hr2.
  destruct (round_nearest_even (shr_m r1) (loc_of_shr_record r1)) as [|m2|m2]; try lia.
  destruct (Z.eq_dec (Z.pos m2) (2 ^ 53)) as [Heq|Hne].
  - assert (2 ^ (54 - 1) ≤ Z.pos m2 < 2 ^ 54) as Hm2 by (rewrite Heq; simpl; lia).
    pose proof (shr_fexp_value m2 e1 54 loc_Exact Hm2) as [Hm3 He3].
    destruct (shr_fexp prec emax (Z.pos m2) e1 loc_Exact) as [r3 e3]. simpl in Hm3, He3.
    assert (fexp prec emax (54 + e1) - e1 = 1) as Hn3
      by (unfold fexp, SpecFloat.emin, prec, emax; lia).
    rewrite Hn3 in Hm3, He3. rewrite Heq in Hm3. simpl in Hm3, He3.
    rewrite Hm3. simpl.
    destruct (e3 <=? emax - prec) eqn:Hle; [|by left].
    right. eexists _, _. split; [done|]. apply Z.leb_le in Hle.
    unfold emax, prec in Hle. simpl. lia.
  - assert (2 ^ (53 - 1) ≤ Z.pos m2 < 2 ^ 53) as Hm2 by (simpl; simpl in Hr1; lia).
    pose proof (shr_fexp_value m2 e1 53 loc_Exact Hm2) as [Hm3 He3].
    destruct (shr_fexp prec emax (Z.pos m2) e1 loc_Exact) as [r3 e3]. simpl in Hm3, He3.
    assert (fexp prec emax (53 + e1) - e1 = 0) as Hn3
      by (unfold fexp, SpecFloat.emin, prec, emax; lia).
    rewrite Hn3 in Hm3, He3. simpl in Hm3, He3. rewrite Z.div_1_r in Hm3.
    rewrite Hm3.
    destruct (e3 <=? emax - prec) eqn:Hle; [|by left].
    right. eexists _, _. split; [done|]. apply Z.leb_le in Hle.
    unfold emax, prec in Hle. simpl in Hm2. lia.
Qed.

Lemma at_least_one_valid (s : spec_float) : at_least_one s → valid_binary s = true.
Proof.
  intros [->|(m & e & -> & Hm & He)]; [done|]. simpl.
  unfold bounded, canonical_mantissa.
  rewrite (digits2_pos_unique m 53) by (simpl; simpl in Hm; lia).
  unfold fexp, SpecFloat.emin, prec, emax.
  apply andb_true_intro. split; [apply Z.eqb_eq|apply Z.leb_le]; lia.
Qed.

(** Left shifts. *)
Lemma iter_xO_value (k m : positive) : Z.pos (Pos.iter xO m k) = Z.pos m * 2 ^ Z.pos k.
Proof.
  revert m. induction k as [|k IH] using Pos.peano_ind; intros m.
  - simpl. lia.
  - rewrite Pos.iter_succ, Pos2Z.inj_succ, Z.pow_succ_r by lia.
    rewrite (Pos2Z.inj_xO (Pos.iter xO m k)), IH. lia.
Qed.

Lemma shl_align_value (m : positive) (e e' : Z) :
  let '(m', e'') := shl_align m e e' in
  e'' = Z.min e e' ∧ Z.pos m' = Z.pos m * 2 ^ (e - e'').
Proof.
  unfold shl_align. destruct (e' - e) as [|k|k] eqn:Hk.
  - rewrite Z.min_l by lia. rewrite Z.sub_diag. simpl. lia.
  - rewrite Z.min_l by lia. rewrite Z.sub_diag. simpl. lia.
  - rewrite Z.min_r by lia. rewrite iter_xO_value.
    replace (e - e') with (Z.pos k) by lia. done.
Qed.

(** The float nearest to a positive integer is at least one. *)
Lemma binary_round_at_least_one (m : positive) (e : Z) :
  -52 ≤ e → 1 ≤ Z.pos (digits2_pos m) + e →
  at_least_one (binary_round prec emax false m e).
Proof.
  intros He Hd. unfold binary_round.
  pose proof (digits2_pos_bounds m) as Hm.
  set (d := Z.pos (digits2_pos m)) in *.
  pose proof (shl_align_value m e (fexp prec emax (d + e))) as Hs.
  destruct (shl_align m e (fexp prec emax (d + e))) as [m' e'].
  destruct Hs as [He' Hm'].
  assert (fexp prec emax (d + e) = d + e - 53) as Hf
    by (unfold fexp, SpecFloat.emin, prec, emax; lia).
  rewrite Hf in He'.
  pose proof (pow2_pos (e - e') ltac:(lia)) as Hpos.
  apply (round_at_least_one m' e' (d + (e - e'))); [|lia..].
  rewrite Hm'. replace (d + (e - e') - 1) with ((d - 1) + (e - e')) by lia.
  rewrite !Z.pow_add_r by lia. nia.
Qed.

Lemma nearest_float_at_least_one (n : Z) : 1 ≤ n → is_at_least_one (Py.nearest_float n).
Proof.
  intros Hn. unfold is_at_least_one, Py.nearest_float.
  destruct n as [|p|p]; try lia. simpl binary_normalize.
  assert (at_least_one (binary_round prec emax false p 0)) as H.
  { apply binary_round_at_least_one; lia. }
  by rewrite Prim2SF_SF2Prim by by apply at_least_one_valid.
Qed.

Lemma mul_at_least_one (x y : float) :
  is_at_least_one x → is_at_least_one y → is_at_least_one (x * y).
Proof.
  unfold is_at_least_one. rewrite mul_spec. unfold SF64mul.
  intros [->|(mx & ex & -> & Hmx & Hex)] [->|(my & ey & -> & Hmy & Hey)];
    simpl; try by left.
  pose proof (digits2_pos_bounds (mx * my)) as Hd.
  set (d := Z.pos (digits2_pos (mx * my))) in *.
  assert (104 < d).
  { destruct (Z.lt_ge_cases 104 d) as [|Hle]; [done|].
    assert (2 ^ d ≤ 2 ^ 104) by (apply Z.pow_le_mono_r; lia).
    rewrite Pos2Z.inj_mul in Hd.
    assert (2 ^ 52 * 2 ^ 52 ≤ Z.pos mx * Z.pos my) by nia.
    change (2 ^ 52 * 2 ^ 52) with (2 ^ 104) in *. lia. }
  apply (round_at_least_one _ _ d); [done|lia..].
Qed.

Lemma add_at_least_one (x y : float) :
  is_at_least_one x → is_at_least_one y → is_at_least_one (x + y).
Proof.
  unfold is_at_least_one. rewrite add_spec. unfold SF64add.
  intros [->|(mx & ex & -> & Hmx & Hex)] [->|(my & ey & -> & Hmy & Hey)];
    simpl SFadd; try by left.
  pose proof (shl_align_value mx ex (Z.min ex ey)) as Hx.
  pose proof (shl_align_value my ey (Z.min ex ey)) as Hy.
  destruct (shl_align mx ex (Z.min ex ey)) as [mx' ex'].
  destruct (shl_align my ey (Z.min ex ey)) as [my' ey'].
  destruct Hx as [-> Hx], Hy as [-> Hy]. simpl.
  pose proof (pow2_pos (ex - ex `min` (ex `min` ey)) ltac:(lia)).
  pose proof (pow2_pos (ey - ey `min` (ex `min` ey)) ltac:(lia)).
  pose proof (digits2_pos_bounds (mx' + my')) as Hd.
  rewrite Pos2Z.inj_add in Hd.
  set (d := Z.pos (digits2_pos (mx' + my'))) in *.
  assert (52 < d).
  { destruct (Z.lt_ge_cases 52 d) as [|Hle]; [done|].
    assert (2 ^ d ≤ 2 ^ 52) by (apply Z.pow_le_mono_r; lia). nia. }
  apply binary_round_at_least_one; fold d; lia.
Qed.

Lemma zero_add_at_least_one (y : float) : is_at_least_one y → is_at_least_one (0 + y).
Proof.
  unfold is_at_least_one. rewrite add_spec, Prim2SF_zero. unfold SF64add.
  by intros [->|(my & ey & -> & Hmy & Hey)]; [left|right; eauto].
Qed.

Lemma at_least_one_positive (x : float) :
  is_at_least_one x → (0 <? x)%float = true ∧ (x =? 0)%float = false.
Proof.
  unfold is_at_least_one. rewrite ltb_spec, FloatAxioms.eqb_spec, Prim2SF_zero.
  by intros [->|(m & e & -> & _)].
Qed.

Lemma sum_at_least_one (xs : list float) :
  xs ≠ [] → Forall is_at_least_one xs → is_at_least_one (Py.sum xs).
Proof.
  unfold Py.sum. destruct xs as [|x xs]; [done|]. intros _ Hxs.
  inversion Hxs as [|? ? Hx Hxs']; subst. simpl.
  assert (is_at_least_one (0 + x)) as Hacc by by apply zero_add_at_least_one.
  revert Hacc. generalize (0 + x)%float. clear Hx Hxs.
  induction Hxs' as [|y ys Hy _ IH]; intros acc Hacc; simpl; [done|].
  apply IH. by apply add_at_least_one.
Qed.

(** ** Sorting *)

Section SortFacts.
Context {A : Type}.
Implicit Types (x : float * A) (l : list (float * A)).

Lemma insert_asc_perm x l : insert_asc x l ≡ₚ x :: l.
Proof.
  induction l as [|y l IH]; simpl; [done|].
  destruct (y.1 <? x.1)%float; [|done].
  rewrite IH. apply Permutation_swap.
Qed.

Lemma insert_desc_perm x l : insert_desc x l ≡ₚ x :: l.
Proof.
  induction l as [|y l IH]; simpl; [done|].
  destruct (x.1 <? y.1)%float; [|done].
  rewrite IH. apply Permutation_swap.
Qed.

Lemma sort_asc_perm l : sort_asc l ≡ₚ l.*2.
Proof.
  unfold sort_asc. apply fmap_Permutation.
  induction l as [|x l IH]; simpl; [done|].
  by rewrite insert_asc_perm, IH.
Qed.

Lemma sort_desc_perm l : sort_desc l ≡ₚ l.*2.
Proof.
  unfold sort_desc. apply fmap_Permutation.
  induction l as [|x l IH]; simpl; [done|].
  by rewrite insert_desc_perm, IH.
Qed.
End SortFacts.

Lemma snd_zip_same_length {A B} (k : list A) (l : list B) :
  length k = length l → (zip k l).*2 = l.
Proof. intros H. apply snd_zip. lia. Qed.

Lemma foldr_insert_desc_perm {A} (l : list (float * A)) :
  foldr insert_desc [] l ≡ₚ l.
Proof. induction l as [|x l IH]; simpl; [done|]. by rewrite insert_desc_perm, IH. Qed.

(** Ties of the coarse sort: when no key is less than a later one, the
    order is the order of the input. *)
Lemma insert_desc_head {A} (x : float * A) (l : list (float * A)) :
  Forall (λ y, (x.1 <? y.1)%float = false) l → insert_desc x l = x :: l.
Proof. destruct l as [|y l]; simpl; [done|]. intros H. inversion H; subst. by rewrite H2. Qed.

Lemma sort_desc_ties {A} (e : float) (l : list (float * A)) :
  (e <? e)%float = false → Forall (λ y, y.1 = e) l → sort_desc l = l.*2.
Proof.
  intros He Hl. unfold sort_desc. f_equal.
  induction Hl as [|x l Hx Hl IH]; simpl; [done|].
  rewrite IH. apply insert_desc_head.
  eapply Forall_impl; [done|]. intros y Hy. simpl in Hy. by rewrite Hx, Hy.
Qed.

Lemma insert_desc_sorted {A} (x : float * A) (l : list (float * A)) :
  Sorted keys_descend l → Sorted keys_descend (insert_desc x l).
Proof.
  induction 1 as [|y l Hl IH Hy]; simpl.
  - repeat constructor.
  - destruct (x.1 <? y.1)%float eqn:Hxy.
    + constructor; [done|].
      destruct l as [|z l]; simpl in *.
      * constructor. by apply ltb_asym.
      * destruct (x.1 <? z.1)%float.
        -- constructor. by inversion Hy.
        -- constructor. by apply ltb_asym.
    + constructor; [by constructor|]. by constructor.
Qed.

Lemma foldr_insert_desc_sorted {A} (l : list (float * A)) :
  Sorted keys_descend (foldr insert_desc [] l).
Proof. induction l; simpl; [constructor|by apply insert_desc_sorted]. Qed.

(** Without a NaN among the keys every element is not less than any
    later one. *)
Lemma insert_desc_strongly_sorted {A} (x : float * A) (l : list (float * A)) :
  is_nan x.1 = false → Forall (λ y, is_nan y.1 = false) l →
  StronglySorted keys_descend l → StronglySorted keys_descend (insert_desc x l).
Proof.
  intros Hx Hl Hs. induction Hs as [|y l Hs IH Hy]; simpl.
  - repeat constructor.
  - apply Forall_cons in Hl as [Hny Hl].
    destruct (x.1 <? y.1)%float eqn:Hxy.
    + constructor; [by apply IH|].
      rewrite insert_desc_perm. constructor; [by apply ltb_asym|done].
    + constructor; [by constructor|].
      constructor; [done|].
      rewrite Forall_forall in Hy, Hl |- *. intros z Hz.
      unfold keys_descend in *.
      eapply ltb_false_trans; [done|exact Hny|by apply Hl|done|by apply Hy].
Qed.

Lemma foldr_insert_desc_strongly_sorted {A} (l : list (float * A)) :
  Forall (λ y, is_nan y.1 = false) l →
  StronglySorted keys_descend (foldr insert_desc [] l).
Proof.
  induction 1 as [|x l Hx Hl IH]; simpl; [constructor|].
  apply insert_desc_strongly_sorted; [done|by rewrite foldr_insert_desc_perm|done].
Qed.

(** Stability of the coarse sort: the elements of one key stay in the
    order of the input. *)
Lemma insert_desc_filter {A} (e : float) (x : float * A) (l : list (float * A)) :
  filter (λ p, Is_true (p.1 =? e)%float) (insert_desc x l)
  = filter (λ p, Is_true (p.1 =? e)%float) (x :: l).
Proof.
  induction l as [|y l IH]; simpl; [done|].
  destruct (x.1 <? y.1)%float eqn:Hxy; [|done].
  rewrite (filter_cons _ y), IH, !filter_cons.
  destruct (decide (Is_true (y.1 =? e)%float)) as [Hy|Hy]; [|done].
  destruct (decide (Is_true (x.1 =? e)%float)) as [Hx|Hx]; [|done].
  apply Is_true_true in Hx, Hy. by rewrite (eqb_not_ltb _ _ _ Hx Hy) in Hxy.
Qed.

Lemma foldr_insert_desc_filter {A} (e : float) (l : list (float * A)) :
  filter (λ p, Is_true (p.1 =? e)%float) (foldr insert_desc [] l)
  = filter (λ p, Is_true (p.1 =? e)%float) l.
Proof.
  induction l as [|x l IH]; simpl; [done|].
  by rewrite insert_desc_filter, !filter_cons, IH.
Qed.

Lemma sort_by_rounding_error_perm (l sorted : list allocation) :
  sort_by_rounding_error l = Ok sorted → sorted ≡ₚ l.
Proof.
  intros H. unfold sort_by_rounding_error in H. exc_inv H. injection H as <-.
  apply mapM_Ok, Forall2_length in Ha.
  by rewrite sort_desc_perm, snd_zip_same_length.
Qed.

Lemma sort_by_stock_perm (l : list allocation) : sort_by_stock l ≡ₚ l.
Proof.
  unfold sort_by_stock.
  rewrite sort_asc_perm, snd_zip_same_length; [done|by rewrite length_fmap].
Qed.

Lemma rounding_error_Ok (a : allocation) (k : float) :
  rounding_error a = Ok k → k = absolute_rounding_error (item_of a).
Proof.
  unfold rounding_error, Py.float_of_int, absolute_rounding_error.
  destruct (is_infinity _); [done|]. simpl. by intros [= <-].
Qed.

Lemma filter_has_error (e : float) (ps : list (float * allocation)) :
  Forall (λ p, p.1 = absolute_rounding_error (item_of p.2)) ps →
  filter (has_error e) ps.*2 = (filter (λ p, Is_true (p.1 =? e)%float) ps).*2.
Proof.
  induction 1 as [|p ps Hp _ IH]; [done|].
  csimpl. rewrite !filter_cons, IH.
  destruct (decide (has_error e p.2)) as [H1|H1],
    (decide (Is_true (p.1 =? e)%float)) as [H2|H2]; try done;
    exfalso; unfold has_error in H1; rewrite <- Hp in H1; done.
Qed.

Lemma keyed_strongly_sorted (ps : list (float * allocation)) :
  Forall (λ p, p.1 = absolute_rounding_error (item_of p.2)) ps →
  StronglySorted keys_descend ps →
  StronglySorted descending_error (item_of <$> ps.*2).
Proof.
  intros Hkeys Hs. induction Hs as [|p k Hk IH Hp]; csimpl; [constructor|].
  apply Forall_cons in Hkeys as [Hp1 Hk1].
  constructor; [by apply IH|].
  rewrite !Forall_fmap. rewrite Forall_forall in Hp, Hk1 |- *. intros q Hq. simpl.
  unfold descending_error. rewrite <- Hp1, <- (Hk1 q Hq). by apply Hp.
Qed.

Lemma sort_by_rounding_error_order (l ordered : list allocation) :
  sort_by_rounding_error l = Ok ordered → in_the_order_of_specification l ordered.
Proof.
  intros H. split; [by apply sort_by_rounding_error_perm|].
  unfold sort_by_rounding_error in H. exc_inv H. injection H as <-.
  rename a into keys. apply mapM_Ok in Ha.
  assert (Forall (λ p, p.1 = absolute_rounding_error (item_of p.2)) (zip keys l)) as Hzip.
  { clear -Ha. induction Ha; simpl; constructor; auto using rounding_error_Ok. }
  assert (Forall (λ p, p.1 = absolute_rounding_error (item_of p.2))
            (foldr insert_desc [] (zip keys l))) as Hkeys
    by by rewrite foldr_insert_desc_perm.
  unfold sort_desc. split_and!.
  - pose proof (foldr_insert_desc_sorted (zip keys l)) as Hsorted.
    induction Hsorted as [|p k Hk IH Hp]; csimpl; [constructor|].
    inversion Hkeys as [|? ? Hp1 Hk1]; subst.
    constructor; [by apply IH|].
    destruct Hp as [|q k Hpq]; csimpl; constructor.
    inversion Hk1 as [|? ? Hq1 _]; subst.
    unfold descending_error. by rewrite <- Hp1, <- Hq1.
  - intros Hnan. apply keyed_strongly_sorted; [done|].
    apply foldr_insert_desc_strongly_sorted.
    clear -Ha Hnan. induction Ha as [|a k l keys Hk _ IH]; simpl; [constructor|].
    apply Forall_cons in Hnan as [Hn Hnan].
    constructor; [|by apply IH]. simpl. by rewrite (rounding_error_Ok _ _ Hk).
  - intros e. rewrite (filter_has_error e _ Hkeys), foldr_insert_desc_filter.
    rewrite <- (filter_has_error e _ Hzip). f_equal.
    apply snd_zip_same_length. by apply Forall2_length in Ha.
Qed.

(** ** The filter *)

Lemma decimal_value_range (c : ascii) (d : Z) : Py.decimal_value c = Some d → 0 ≤ d ≤ 9.
Proof. unfold Py.decimal_value. intros H. case_match; [|done]. injection H as <-. lia. Qed.

Lemma decimal_of_nonneg (s : string) (acc n : Z) :
  Py.decimal_of acc s = Some n → 0 ≤ acc → 0 ≤ n.
Proof.
  revert acc. induction s as [|c s IH]; intros acc H Hacc; simpl in H.
  - injection H as <-. done.
  - destruct (Py.decimal_value c) as [d|] eqn:Hd; [|done].
    apply decimal_value_range in Hd. apply (IH _ H). lia.
Qed.

(** A text the filter reads as a positive float is read as a float of at
    least one: the float nearest to a positive integer. *)
Lemma float_of_str_positive (s : string) (x : float) :
  Py.float_of_str s = Ok x → (0 <? x)%float = true →
  ∃ n, 1 ≤ n ∧ Py.decimal_of 0 s = Some n ∧ x = Py.nearest_float n.
Proof.
  unfold Py.float_of_str. destruct s as [|c s]; [done|].
  destruct (Py.decimal_of 0 (String c s)) as [n|] eqn:Hn; [|done].
  intros [= <-] Hpos. exists n. split; [|done].
  apply decimal_of_nonneg in Hn; [|done].
  destruct (Z.eq_dec n 0) as [->|]; [|lia]. by vm_compute in Hpos.
Qed.

Lemma isdigit_nonempty (s : string) : Py.isdigit s = true → Py.nonempty s = true.
Proof. by destruct s. Qed.

Lemma reads_positive_float (text : string) (n : Z) :
  reads_positive text n →
  Py.float_of_str (Py.strip text) = Ok (Py.nearest_float n)
  ∧ (0 <? Py.nearest_float n)%float = true.
Proof.
  intros (Hd & Hn & Hpos). unfold Py.float_of_str.
  destruct (Py.strip text) as [|c s]; [done|]. rewrite Hn. split; [done|].
  by apply at_least_one_positive, nearest_float_at_least_one.
Qed.

Lemma valid_records_from_cons (i : nat) (pc : row) (rest : list row)
    (valid : list valid_record) :
  valid_records_from i (pc :: rest) = Ok valid →
  (∃ n k valid', accepted pc n k
     ∧ valid_records_from (S i) rest = Ok valid'
     ∧ valid = {| vr_record := i; vr_pvp := Py.nearest_float n;
                  vr_stock_initial := Py.nearest_float k |} :: valid')
  ∨ ((∀ n k, ¬ accepted pc n k) ∧ valid_records_from (S i) rest = Ok valid).
Proof.
  simpl. intros H.
  destruct (Py.nonempty (Py.strip (get pc "pvp_number"))) eqn:H1; simpl in H.
  2: { right. split; [|done]. intros n k [(Hd & _) _].
       apply isdigit_nonempty in Hd. congruence. }
  destruct (Py.isdigit (Py.strip (get pc "pvp_number"))) eqn:H2; simpl in H.
  2: { right. split; [|done]. intros n k [(Hd & _) _]. congruence. }
  destruct (Py.nonempty (Py.strip (get pc "nr_provogrammers_number"))) eqn:H3;
    simpl in H.
  2: { right. split; [|done]. intros n k [_ (Hd & _)].
       apply isdigit_nonempty in Hd. congruence. }
  destruct (Py.isdigit (Py.strip (get pc "nr_provogrammers_number"))) eqn:H4;
    simpl in H.
  2: { right. split; [|done]. intros n k [_ (Hd & _)]. congruence. }
  apply bind_Ok in H as (pvp_val & Hpvp & H).
  apply bind_Ok in H as (stock_val & Hstock & H).
  destruct (0 <? pvp_val)%float eqn:Hp; simpl in H.
  2: { right. split; [|done]. intros n k [Hn _].
       apply reads_positive_float in Hn as [Hn Hn']. congruence. }
  destruct (0 <? stock_val)%float eqn:Hs; simpl in H.
  2: { right. split; [|done]. intros n k [_ Hk].
       apply reads_positive_float in Hk as [Hk Hk']. congruence. }
  exc_inv H. injection H as <-. left.
  destruct (float_of_str_positive _ _ Hpvp Hp) as (n & ? & ? & ->).
  destruct (float_of_str_positive _ _ Hstock Hs) as (k & ? & ? & ->).
  exists n, k, a. by repeat split.
Qed.

Lemma valid_records_from_refs (i : nat) (product_challenges : list row)
    (valid : list valid_record) :
  valid_records_from i product_challenges = Ok valid →
  Forall (λ v, (i ≤ vr_record v)%nat) valid.
Proof.
  revert i valid. induction product_challenges as [|pc rest IH]; intros i valid H.
  - injection H as <-. constructor.
  - apply valid_records_from_cons in H
      as [(n & k & valid' & _ & H & ->)|[_ H]]; apply IH in H.
    + constructor; [simpl; lia|]. eapply Forall_impl; [done|]. simpl. lia.
    + eapply Forall_impl; [done|]. simpl. lia.
Qed.

Lemma valid_records_from_accepts (i0 : nat) (product_challenges : list row)
    (valid : list valid_record) (j : nat) (pc : row) :
  valid_records_from i0 product_challenges = Ok valid →
  product_challenges !! j = Some pc →
  ((i0 + j)%nat ∈ vr_record <$> valid ↔ ∃ n k, accepted pc n k)
  ∧ ∀ v, v ∈ valid → vr_record v = (i0 + j)%nat →
      ∃ n k, accepted pc n k
             ∧ vr_pvp v = Py.nearest_float n ∧ vr_stock_initial v = Py.nearest_float k.
Proof.
  revert i0 valid j. induction product_challenges as [|pc0 rest IH];
    intros i0 valid j H Hj; [done|].
  pose proof (valid_records_from_cons _ _ _ _ H)
    as [(n & k & valid' & Hacc & Hrest & ->)|[Hrej Hrest]].
  - pose proof (valid_records_from_refs _ _ _ Hrest) as Hrefs.
    destruct j as [|j]; simpl in Hj.
    + injection Hj as ->. rewrite Nat.add_0_r. split.
      * split; [by eauto|]. intros _. csimpl. by left.
      * intros v Hv Hi. apply elem_of_cons in Hv as [->|Hv]; [by eauto|].
        eapply Forall_forall in Hrefs; [|done]. lia.
    + destruct (IH (S i0) valid' j Hrest Hj) as [Hiff Hfields].
      replace (i0 + S j)%nat with (S i0 + j)%nat by lia. split.
      * rewrite <- Hiff. csimpl. rewrite elem_of_cons. split; [|by right].
        intros [?|?]; [lia|done].
      * intros v Hv Hi. apply elem_of_cons in Hv as [->|Hv]; [simpl in Hi; lia|].
        by apply Hfields.
  - destruct j as [|j]; simpl in Hj.
    + injection Hj as ->. rewrite Nat.add_0_r.
      pose proof (valid_records_from_refs _ _ _ Hrest) as Hrefs. split.
      * split.
        -- intros (v & Hv & Hin)%list_elem_of_fmap.
           eapply Forall_forall in Hrefs; [|done]. lia.
        -- intros (n & k & Hacc). by destruct (Hrej n k).
      * intros v Hv Hi. eapply Forall_forall in Hrefs; [|done]. lia.
    + replace (i0 + S j)%nat with (S i0 + j)%nat by lia. by apply IH.
Qed.

(** Every record kept comes from an accepted row, at the position it
    refers to. *)
Lemma valid_records_from_origin (i0 : nat) (product_challenges : list row)
    (valid : list valid_record) :
  valid_records_from i0 product_challenges = Ok valid →
  Forall (λ v, ∃ j pc n k,
            vr_record v = (i0 + j)%nat ∧ product_challenges !! j = Some pc
            ∧ accepted pc n k
            ∧ vr_pvp v = Py.nearest_float n
            ∧ vr_stock_initial v = Py.nearest_float k) valid.
Proof.
  revert i0 valid. induction product_challenges as [|pc rest IH]; intros i0 valid H.
  - injection H as <-. constructor.
  - assert (∀ valid', valid_records_from (S i0) rest = Ok valid' →
              Forall (λ v, ∃ j pc' n k,
                        vr_record v = (i0 + j)%nat ∧ (pc :: rest) !! j = Some pc'
                        ∧ accepted pc' n k
                        ∧ vr_pvp v = Py.nearest_float n
                        ∧ vr_stock_initial v = Py.nearest_float k) valid') as Hrest.
    { intros valid' H'. apply IH in H'. eapply Forall_impl; [done|].
      intros v (j & pc' & n & k & Hv & Hj & Hacc).
      exists (S j), pc', n, k. split; [lia|]. done. }
    apply valid_records_from_cons in H
      as [(n & k & valid' & Hacc & H & ->)|[_ H]]; [|by auto].
    constructor; [|by auto].
    exists 0%nat, pc, n, k. simpl. split; [lia|]. done.
Qed.

(** The price read again by lines 113 and 195 is the price the filter
    read. *)
Lemma price_read_again (product_challenges : list row) (valid : list valid_record)
    (v : valid_record) :
  valid_records product_challenges = Ok valid → v ∈ valid →
  let text := Py.strip (get (deref product_challenges (vr_record v)) "pvp_number") in
  Py.isdigit text = true
  ∧ (if Py.nonempty text then Py.float_of_str text else Ok 0%float) = Ok (vr_pvp v).
Proof.
  intros H Hv. apply valid_records_from_origin in H.
  eapply Forall_forall in H as (j & pc & n & k & Hi & Hj & [Hn _] & -> & _); [|done].
  simpl in Hi. rewrite Hi. unfold deref. rewrite Hj. simpl.
  pose proof Hn as (Hd & _). split; [done|].
  rewrite (isdigit_nonempty _ Hd). by apply reads_positive_float in Hn as [-> _].
Qed.

Lemma valid_records_from_usable (i : nat) (product_challenges : list row)
    (valid : list valid_record) :
  valid_records_from i product_challenges = Ok valid → Forall usable valid.
Proof.
  revert i valid. induction product_challenges as [|pc rest IH]; intros i valid H;
    simpl in H.
  - injection H as <-. constructor.
  - destruct (_ && _ && _ && _); [|by eauto].
    apply bind_Ok in H as (pvp_val & Hpvp & H).
    apply bind_Ok in H as (stock_val & Hstock & H).
    destruct ((0 <? pvp_val)%float && (0 <? stock_val)%float) eqn:Hpos; [|by eauto].
    apply andb_prop in Hpos as [Hp Hs].
    exc_inv H. injection H as <-. constructor; [|by eauto].
    destruct (float_of_str_positive _ _ Hpvp Hp) as (n & ? & _ & ->).
    destruct (float_of_str_positive _ _ Hstock Hs) as (k & ? & _ & ->).
    split; simpl; by apply nearest_float_at_least_one.
Qed.

Lemma total_pvp_stock_at_least_one (valid : list valid_record) :
  valid ≠ [] → Forall usable valid → is_at_least_one (total_pvp_stock valid).
Proof.
  intros Hne Hvalid. unfold total_pvp_stock. apply sum_at_least_one.
  - by destruct valid.
  - apply Forall_fmap. eapply Forall_impl; [done|].
    intros r [? ?]. by apply mul_at_least_one.
Qed.

Lemma total_pvp_stock_nonzero (product_challenges : list row) (valid : list valid_record) :
  valid_records product_challenges = Ok valid → valid ≠ [] →
  (0 <? total_pvp_stock valid)%float = true ∧ (total_pvp_stock valid =? 0)%float = false.
Proof.
  intros Hvalid Hne. apply at_least_one_positive, total_pvp_stock_at_least_one; [done|].
  by eapply valid_records_from_usable.
Qed.

(** ** Adjustments *)

Lemma set_token_price_Ok (v : Z) (alloc alloc' : allocation) :
  set_token_price v alloc = Ok alloc' →
  token_price_int alloc' = v ∧ record alloc' = record alloc
  ∧ stock_initial alloc' = stock_initial alloc
  ∧ target_token_price alloc' = target_token_price alloc.
Proof. intros H. unfold set_token_price in H. exc_inv H. by injection H as <-. Qed.

Lemma adjusted_refl (a : allocation) : adjusted a a.
Proof. unfold adjusted. auto. Qed.

Lemma adjusted_up (a a' : allocation) :
  set_token_price (token_price_int a + 1) a = Ok a' → adjusted a a'.
Proof. intros H. apply set_token_price_Ok in H. unfold adjusted. intuition. Qed.

Lemma adjusted_down (a a' : allocation) :
  1 < token_price_int a →
  set_token_price (token_price_int a - 1) a = Ok a' → adjusted a a'.
Proof. intros ? H. apply set_token_price_Ok in H. unfold adjusted. intuition. Qed.

Create HintDb alloc.
#[local] Hint Resolve adjusted_refl adjusted_up adjusted_down : alloc.

Lemma increase_adjusted (l l' : list allocation) (d d' : float) :
  increase d l = Ok (l', d') → Forall2 adjusted l l'.
Proof.
  revert l' d d'. induction l as [|a l IH]; intros l' d d' H; simpl in H.
  - injection H as <- <-. constructor.
  - destruct (0 <? d)%float; exc_inv H.
    + destruct a1 as [rest r]. injection H as <- <-.
      constructor; eauto with alloc.
    + destruct a0 as [rest r]. injection H as <- <-.
      constructor; eauto with alloc.
Qed.

Lemma decrease_adjusted (l l' : list allocation) (d d' : float) :
  decrease d l = Ok (l', d') → Forall2 adjusted l l'.
Proof.
  revert l' d d'. induction l as [|a l IH]; intros l' d d' H; simpl in H.
  - injection H as <- <-. constructor.
  - destruct ((d <? 0)%float && (1 <? token_price_int a)) eqn:Hc; exc_inv H.
    + destruct a1 as [rest r]. injection H as <- <-.
      apply andb_prop in Hc as [_ Hc%Z.ltb_lt].
      constructor; eauto with alloc.
    + destruct a0 as [rest r]. injection H as <- <-.
      constructor; eauto with alloc.
Qed.

Lemma fine_loop_adjusted (l l' : list allocation) (d d' : float) :
  fine_loop d l = Ok (l', d') → Forall2 adjusted l l'.
Proof.
  revert l' d d'. induction l as [|a l IH]; intros l' d d' H; simpl in H.
  - injection H as <- <-. constructor.
  - apply bind_Ok in H as ([a' r] & Hstep & H).
    assert (adjusted a a') as Ha.
    { destruct (0 <? d)%float.
      - exc_inv Hstep. injection Hstep as <- <-. eauto with alloc.
      - destruct ((d <? 0)%float && (1 <? token_price_int a)) eqn:Hc.
        + exc_inv Hstep. injection Hstep as <- <-.
          apply andb_prop in Hc as [_ Hc%Z.ltb_lt]. eauto with alloc.
        + injection Hstep as <- <-. eauto with alloc. }
    destruct (abs r =? 0)%float.
    + injection H as <- <-. constructor; [done|].
      apply Forall2_same_length_lookup_2; [done|].
      intros i x y Hx Hy. rewrite Hx in Hy. injection Hy as <-. eauto with alloc.
    + exc_inv H. destruct a0 as [rest r']. injection H as <- <-.
      constructor; eauto.
Qed.

Lemma adjusted_floor (a a' : allocation) : adjusted a a' → floor_ok a → floor_ok a'.
Proof.
  unfold adjusted, floor_ok. intros (_ & _ & _ & [-> | [-> | [? ->]]]); lia.
Qed.

Lemma Forall2_adjusted_floor (l l' : list allocation) :
  Forall2 adjusted l l' → Forall floor_ok l → Forall floor_ok l'.
Proof.
  induction 1 as [|a a' l l' Ha _ IH]; intros Hl; [done|].
  inversion Hl; subst. constructor; eauto using adjusted_floor.
Qed.

Lemma first_allocation_floor (k : float) (r : valid_record) (a : allocation) :
  first_allocation k r = Ok a → floor_ok a.
Proof.
  intros H. unfold first_allocation in H. exc_inv H. injection H as <-.
  unfold floor_ok. simpl. destruct (a0 <? 1) eqn:Hlt; [lia|].
  apply Z.ltb_ge in Hlt. lia.
Qed.

Lemma set_target_floor (T : Z) (store : list row) (total : float) (a a' : allocation) :
  set_target T store total a = Ok a' → floor_ok a → floor_ok a'.
Proof. intros H. unfold set_target in H. exc_inv H. by injection H as <-. Qed.

Lemma round_target_floor (a a' : allocation) : round_target a = Ok a' → floor_ok a'.
Proof.
  intros H. unfold round_target in H. exc_inv H.
  apply set_token_price_Ok in H as (H & _). unfold floor_ok. lia.
Qed.

Lemma initial_allocations_floor T store valid initial :
  initial_allocations T store valid = Ok initial → Forall floor_ok initial.
Proof.
  intros H. unfold initial_allocations in H. exc_inv H.
  apply mapM_Ok in H. clear -H.
  induction H; constructor; eauto using round_target_floor.
Qed.

Lemma coarse_pass_floor d l coarse :
  coarse_pass d l = Ok coarse → Forall floor_ok l → Forall floor_ok coarse.
Proof.
  intros H Hl. unfold coarse_pass in H. exc_inv H.
  apply sort_by_rounding_error_perm in Ha.
  assert (Forall floor_ok a) as Hs by by rewrite Ha.
  destruct (0 <? d)%float; exc_inv H; subst; destruct a0 as [l' d'];
    eauto using Forall2_adjusted_floor, increase_adjusted, decrease_adjusted.
Qed.

Lemma fine_pass_floor T l fine :
  fine_pass T l = Ok fine → Forall floor_ok l → Forall floor_ok fine.
Proof.
  intros H Hl. unfold fine_pass in H. exc_inv H.
  destruct (0 <? abs a)%float.
  - exc_inv H. subst. destruct a0 as [l' d'].
    eapply Forall2_adjusted_floor; [by eapply fine_loop_adjusted|].
    by rewrite sort_by_stock_perm.
  - by injection H as <-.
Qed.

Lemma redistribute_floor T l final :
  redistribute T l = Ok final → Forall floor_ok l → Forall floor_ok final.
Proof.
  intros H Hl. unfold redistribute in H. exc_inv H.
  destruct (negb (a =? 0)%float).
  - exc_inv H. eauto using coarse_pass_floor, fine_pass_floor.
  - by injection H as <-.
Qed.

Lemma token_allocations_floor T store valid final :
  token_allocations T store valid = Ok final → Forall floor_ok final.
Proof.
  intros H. unfold token_allocations in H. exc_inv H.
  eauto using redistribute_floor, initial_allocations_floor.
Qed.

(** ** The two loops of the coarse pass *)

(** Once the residual is not positive the raising loop changes nothing, and
    likewise for the lowering loop. *)
Lemma increase_idle (d : float) (l : list allocation) :
  (0 <? d)%float = false → increase d l = Ok (l, d).
Proof. intros Hd. induction l as [|a l IH]; simpl; [done|]. by rewrite Hd, IH. Qed.

Lemma decrease_idle (d : float) (l : list allocation) :
  (d <? 0)%float = false → decrease d l = Ok (l, d).
Proof. intros Hd. induction l as [|a l IH]; simpl; [done|]. by rewrite Hd, IH. Qed.

Lemma set_token_price_item (v : Z) (a a' : allocation) :
  set_token_price v a = Ok a' →
  item_of a' = {| multiplicity := stock_initial a; assignedValue := v;
                  idealValue := target_token_price a |}
  ∧ record a' = record a.
Proof. intros H. unfold set_token_price in H. exc_inv H. by injection H as <-. Qed.

(** The loops of the code are the walks of the specification. *)
Lemma increase_items (d d' : float) (l l' : list allocation) :
  increase d l = Ok (l', d') →
  item_of <$> l' = spec_raise d (item_of <$> l) ∧ record <$> l' = record <$> l.
Proof.
  revert d l'. induction l as [|a l IH]; intros d l' H; simpl in H.
  - by injection H as <- <-.
  - csimpl. destruct (0 <? d)%float eqn:Hd.
    + exc_inv H. destruct a1 as [rest r]. injection H as <- <-.
      apply set_token_price_item in Ha as [Hitem Hrow].
      destruct (IH _ _ Ha0) as [IH1 IH2]. csimpl. by rewrite Hitem, Hrow, IH1, IH2.
    + rewrite (increase_idle d l Hd) in H. simpl in H. by injection H as <- <-.
Qed.

Lemma decrease_items (d d' : float) (l l' : list allocation) :
  decrease d l = Ok (l', d') →
  item_of <$> l' = spec_lower d (item_of <$> l) ∧ record <$> l' = record <$> l.
Proof.
  revert d l'. induction l as [|a l IH]; intros d l' H; simpl in H.
  - by injection H as <- <-.
  - csimpl. destruct (d <? 0)%float eqn:Hd; simpl in H.
    + destruct (1 <? token_price_int a) eqn:Hp.
      * exc_inv H. destruct a1 as [rest r]. injection H as <- <-.
        apply set_token_price_item in Ha as [Hitem Hrow].
        destruct (IH _ _ Ha0) as [IH1 IH2]. csimpl. by rewrite Hitem, Hrow, IH1, IH2.
      * exc_inv H. destruct a0 as [rest r]. injection H as <- <-.
        destruct (IH _ _ Ha) as [IH1 IH2]. csimpl. by rewrite IH1, IH2.
    + rewrite (decrease_idle d l Hd) in H. simpl in H. by injection H as <- <-.
Qed.

(** The pass raises only when a price it converts has no float. *)
Lemma float_of_int_raises (n : Z) (e : pyexn) :
  Py.float_of_int n = Raise e → e = OverflowError.
Proof. unfold Py.float_of_int. destruct (is_infinity _); by intros [= <-]. Qed.

Lemma set_token_price_raises (v : Z) (a : allocation) (e : pyexn) :
  set_token_price v a = Raise e →
  e = OverflowError ∧ Py.float_of_int v = Raise OverflowError.
Proof.
  unfold set_token_price. destruct (Py.float_of_int v) eqn:Hv; [done|].
  simpl. intros [= ->]. by rewrite (float_of_int_raises _ _ Hv).
Qed.

Lemma increase_raises (d : float) (l : list allocation) (e : pyexn) :
  increase d l = Raise e → e = OverflowError ∧ ∃ a, a ∈ l ∧ price_without_float a.
Proof.
  revert d. induction l as [|a l IH]; intros d H; simpl in H; [done|].
  destruct (0 <? d)%float eqn:Hd.
  - destruct (set_token_price _ a) as [a'|e'] eqn:Ha; simpl in H.
    + destruct (increase _ l) as [[rest r]|e'] eqn:Hl; simpl in H; [done|].
      injection H as ->.
      destruct (IH _ Hl) as (He & b & Hb & Hn).
      split; [done|]. exists b. split; [by right|done].
    + injection H as ->. apply set_token_price_raises in Ha as [He Hn].
      split; [done|]. exists a. split; [by left|].
      exists (token_price_int a + 1). split; [lia|done].
  - by rewrite (increase_idle d l Hd) in H.
Qed.

Lemma decrease_raises (d : float) (l : list allocation) (e : pyexn) :
  decrease d l = Raise e → e = OverflowError ∧ ∃ a, a ∈ l ∧ price_without_float a.
Proof.
  revert d. induction l as [|a l IH]; intros d H; simpl in H; [done|].
  destruct (d <? 0)%float eqn:Hd; simpl in H.
  - destruct (1 <? token_price_int a).
    + destruct (set_token_price _ a) as [a'|e'] eqn:Ha; simpl in H.
      * destruct (decrease _ l) as [[rest r]|e'] eqn:Hl; simpl in H; [done|].
        injection H as ->.
        destruct (IH _ Hl) as (He & b & Hb & Hn).
        split; [done|]. exists b. split; [by right|done].
      * injection H as ->. apply set_token_price_raises in Ha as [He Hn].
        split; [done|]. exists a. split; [by left|].
        exists (token_price_int a - 1). split; [lia|done].
    + destruct (decrease _ l) as [[rest r]|e'] eqn:Hl; simpl in H; [done|].
      injection H as ->.
      destruct (IH _ Hl) as (He & b & Hb & Hn).
      split; [done|]. exists b. split; [by right|done].
  - by rewrite (decrease_idle d l Hd) in H.
Qed.

Lemma mapM_Raise {A B} (f : A → exc B) (l : list A) (e : pyexn) :
  mapM f l = Raise e → ∃ x, x ∈ l ∧ f x = Raise e.
Proof.
  induction l as [|x l IH]; simpl; [done|].
  destruct (f x) as [y|e'] eqn:Hx; simpl.
  - destruct (mapM f l) as [k|e'] eqn:Hl; simpl; [done|].
    intros [= ->]. destruct IH as (z & Hz & Hfz); [done|]. exists z. split; [by right|done].
  - intros [= ->]. exists x. split; [by left|done].
Qed.

Lemma sort_by_rounding_error_raises (l : list allocation) (e : pyexn) :
  sort_by_rounding_error l = Raise e →
  e = OverflowError ∧ ∃ a, a ∈ l ∧ price_without_float a.
Proof.
  unfold sort_by_rounding_error.
  destruct (mapM rounding_error l) as [keys|e'] eqn:Hkeys; simpl; [done|].
  intros [= ->]. apply mapM_Raise in Hkeys as (a & Ha & Hraise).
  unfold rounding_error in Hraise.
  destruct (Py.float_of_int (token_price_int a)) eqn:Hn; [done|].
  simpl in Hraise. injection Hraise as ->.
  pose proof (float_of_int_raises _ _ Hn) as ->.
  split; [done|]. exists a. split; [done|]. exists (token_price_int a). split; [lia|done].
Qed.

Lemma coarse_pass_raises (d : float) (l : list allocation) (e : pyexn) :
  coarse_pass d l = Raise e → e = OverflowError ∧ ∃ a, a ∈ l ∧ price_without_float a.
Proof.
  intros H. unfold coarse_pass in H.
  destruct (sort_by_rounding_error l) as [sorted|e'] eqn:Hs; simpl in H.
  - apply sort_by_rounding_error_perm in Hs.
    destruct (0 <? d)%float.
    + destruct (increase d sorted) as [|e'] eqn:Hi; [done|]. simpl in H.
      injection H as ->.
      apply increase_raises in Hi as (He & a & Ha & Hn).
      split; [done|]. exists a. by rewrite <- Hs.
    + destruct (decrease d sorted) as [|e'] eqn:Hi; [done|]. simpl in H.
      injection H as ->.
      apply decrease_raises in Hi as (He & a & Ha & Hn).
      split; [done|]. exists a. by rewrite <- Hs.
  - injection H as ->. by apply sort_by_rounding_error_raises.
Qed.

(** ** Allocations pinned at the floor *)

Lemma pinned_pair_redistribute (a b : allocation) :
  pinned a → pinned b →
  ∃ final, redistribute 3 [a; b] = Ok final
           ∧ (final = [a; b] ∨ final = [b; a])
           ∧ verify_sum 3 (weighted_sum final) = Ok [SumMismatch 7].
Proof.
  intros (Ha1 & Ha2 & Ha3) (Hb1 & Hb2 & Hb3).
  assert (∀ x y, (x = a ∧ y = b) ∨ (x = b ∧ y = a) →
            weighted_sum [x; y] = 10%float) as Hsum.
  { intros x y [[-> ->]|[-> ->]]; unfold weighted_sum, Py.sum; simpl;
      rewrite Ha3, Hb3; reflexivity. }
  assert (∀ x y, (x = a ∧ y = b) ∨ (x = b ∧ y = a) →
            fine_pass 3 [x; y] = Ok [x; y]) as Hfine.
  { intros x y Hxy. unfold fine_pass, residual. rewrite (Hsum x y Hxy).
    change (Py.float_of_int 3) with (Ok 3%float). simpl.
    change (0 <? abs (3 - 10))%float with true. simpl.
    assert (sort_by_stock [x; y] = [x; y]) as ->.
    { unfold sort_by_stock, sort_asc. simpl.
      destruct Hxy as [[-> ->]|[-> ->]]; rewrite Ha2, Hb2; reflexivity. }
    assert (token_price_int x = 1 ∧ token_price_int y = 1) as [Hx Hy]
      by (destruct Hxy as [[-> ->]|[-> ->]]; done).
    simpl. change (0 <? 3 - 10)%float with false.
    change (3 - 10 <? 0)%float with true. rewrite Hx, Hy. simpl.
    change (abs (3 - 10) =? 0)%float with false. reflexivity. }
  unfold redistribute, residual. rewrite (Hsum a b) by auto.
  change (Py.float_of_int 3) with (Ok 3%float). simpl.
  change (negb (3 - 10 =? 0)%float) with true. simpl.
  unfold coarse_pass, sort_by_rounding_error, rounding_error. simpl.
  rewrite Ha1, Hb1. change (Py.float_of_int 1) with (Ok 1%float). simpl.
  change (0 <? 3 - 10)%float with false. simpl.
  unfold sort_desc. simpl.
  destruct (abs (target_token_price a - 1) <? abs (target_token_price b - 1))%float;
    simpl; change (3 - 10 <? 0)%float with true; rewrite Ha1, Hb1; simpl.
  - exists [b; a]. rewrite Hfine by auto. split; [done|]. split; [by right|].
    rewrite (Hsum b a) by auto. reflexivity.
  - exists [a; b]. rewrite Hfine by auto. split; [done|]. split; [by left|].
    rewrite (Hsum a b) by auto. reflexivity.
Qed.

(** ** The rows the allocations refer to *)

Lemma first_allocation_record k r a :
  first_allocation k r = Ok a → record a = vr_record r.
Proof. intros H. unfold first_allocation in H. exc_inv H. by injection H as <-. Qed.

Lemma set_target_record T store total a a' :
  set_target T store total a = Ok a' → record a' = record a.
Proof. intros H. unfold set_target in H. exc_inv H. by injection H as <-. Qed.

Lemma round_target_record a a' : round_target a = Ok a' → record a' = record a.
Proof.
  intros H. unfold round_target in H. exc_inv H.
  by apply set_token_price_Ok in H as (_ & ? & _).
Qed.

Lemma initial_allocations_records T store valid initial :
  initial_allocations T store valid = Ok initial →
  record <$> initial = vr_record <$> valid.
Proof.
  intros H. unfold initial_allocations in H. exc_inv H.
  rewrite (mapM_fmap_eq _ record record _ _ round_target_record H).
  rewrite (mapM_fmap_eq _ record record _ _ (set_target_record T store _) Ha1).
  by rewrite (mapM_fmap_eq _ record vr_record _ _ (first_allocation_record a) Ha0).
Qed.

Lemma Forall2_adjusted_records (l l' : list allocation) :
  Forall2 adjusted l l' → record <$> l' = record <$> l.
Proof.
  intros H. apply Forall2_fmap_eq. eapply Forall2_impl; [done|].
  by intros a a' (? & _).
Qed.

Lemma coarse_pass_records d l coarse :
  coarse_pass d l = Ok coarse → record <$> coarse ≡ₚ record <$> l.
Proof.
  intros H. unfold coarse_pass in H. exc_inv H.
  apply sort_by_rounding_error_perm in Ha. rewrite <- Ha.
  destruct (0 <? d)%float; exc_inv H; subst; destruct a0 as [l' d']; simpl;
    [apply increase_adjusted in Ha0 | apply decrease_adjusted in Ha0];
    by rewrite (Forall2_adjusted_records _ _ Ha0).
Qed.

Lemma fine_pass_records T l fine :
  fine_pass T l = Ok fine → record <$> fine ≡ₚ record <$> l.
Proof.
  intros H. unfold fine_pass in H. exc_inv H.
  destruct (0 <? abs a)%float.
  - exc_inv H. subst. destruct a0 as [l' d']. simpl.
    apply fine_loop_adjusted in Ha0.
    by rewrite (Forall2_adjusted_records _ _ Ha0), sort_by_stock_perm.
  - by injection H as <-.
Qed.

Lemma token_allocations_records T store valid final :
  token_allocations T store valid = Ok final →
  record <$> final ≡ₚ vr_record <$> valid.
Proof.
  intros H. unfold token_allocations in H. exc_inv H.
  rewrite <- (initial_allocations_records _ _ _ _ Ha).
  unfold redistribute in H. exc_inv H.
  destruct (negb (a0 =? 0)%float).
  - exc_inv H. by rewrite (fine_pass_records _ _ _ H), (coarse_pass_records _ _ _ Ha1).
  - by injection H as <-.
Qed.

(** ** The update loop *)

Lemma frame_refl (r : row) : frame r r.
Proof. split; auto. Qed.

Lemma frame_trans (r1 r2 r3 : row) : frame r1 r2 → frame r2 r3 → frame r1 r3.
Proof.
  intros [H1 H1'] [H2 H2']. split.
  - intros k ? ?. rewrite H2, H1; auto.
  - destruct H2' as [-> | ->]; auto.
Qed.

Lemma frame_write_tokens (n : Z) (r : row) : frame r (write_tokens n r).
Proof.
  unfold write_tokens. split.
  - intros k ? ?. by rewrite !lookup_insert_ne.
  - right. by rewrite lookup_insert_eq.
Qed.

Lemma write_tokens_lookup (n : Z) (r : row) :
  write_tokens n r !! "token_price_number" = Some (Py.str_of_int n)
  ∧ write_tokens n r !! "price_currency_option_currency_type" = Some "token".
Proof.
  unfold write_tokens. rewrite lookup_insert_eq.
  rewrite lookup_insert_ne by done. by rewrite lookup_insert_eq.
Qed.

Lemma update_records_length (allocations : list allocation) (store : list row) :
  length (update_records allocations store).1 = length store.
Proof.
  revert store. induction allocations as [|a l IH]; intros store; simpl; [done|].
  destruct (if Py.nonempty _ then _ else _); [|done].
  destruct (deref _ _ !! "_id"); simpl; [|by rewrite length_alter].
  destruct (Py.int_of_float a0 ≫= _); simpl.
  - by rewrite IH, length_alter.
  - by rewrite length_alter.
Qed.

(** One step of the loop, seen from row [i]. *)
Lemma alter_write_lookup (n : Z) (ref i : nat) (store : list row) (r : row) :
  store !! i = Some r →
  ∃ r1, alter (write_tokens n) ref store !! i = Some r1
        ∧ frame r r1
        ∧ (i ≠ ref → r1 = r)
        ∧ (i = ref → r1 = write_tokens n r).
Proof.
  intros Hi. destruct (decide (i = ref)) as [->|Hne].
  - rewrite list_lookup_alter_eq, Hi. simpl. eexists. split; [done|].
    split; [apply frame_write_tokens|]. done.
  - rewrite list_lookup_alter_ne by done. exists r.
    split; [done|]. split; [apply frame_refl|]. done.
Qed.

Lemma update_records_frame (allocations : list allocation) (store : list row)
    (i : nat) (r : row) :
  store !! i = Some r →
  ∃ r', (update_records allocations store).1 !! i = Some r'
        ∧ frame r r'
        ∧ (i ∉ record <$> allocations → r' = r).
Proof.
  revert store r. induction allocations as [|a l IH]; intros store r Hi; simpl.
  { exists r. eauto using frame_refl. }
  destruct (if Py.nonempty _ then _ else _) as [pvp|e]; simpl;
    [|exists r; eauto using frame_refl].
  destruct (alter_write_lookup (token_price_int a) (record a) i store r Hi)
    as (r1 & H1 & Hf1 & Hne1 & _).
  assert (i ∉ record a :: (record <$> l) → r1 = r) as Hout.
  { intros Hnot. apply Hne1. intros ->. apply Hnot. left. }
  destruct (deref _ _ !! "_id"); simpl; [|by eauto].
  destruct (Py.int_of_float pvp ≫= _); simpl; [|by eauto].
  destruct (IH _ _ H1) as (r' & H' & Hf' & Hne').
  exists r'. split; [done|]. split; [by eapply frame_trans|].
  intros Hnot. rewrite Hne'; [auto|]. intros ?. apply Hnot. by right.
Qed.

(** When the loop ends normally, a row an allocation refers to holds the
    price of such an allocation and the currency ["token"]. *)
Lemma update_records_written (allocations : list allocation) (store : list row)
    (i : nat) (r : row) :
  (update_records allocations store).2 = Ok tt →
  store !! i = Some r →
  i ∈ record <$> allocations →
  ∃ r' a, (update_records allocations store).1 !! i = Some r'
          ∧ a ∈ allocations ∧ record a = i
          ∧ r' !! "token_price_number" = Some (Py.str_of_int (token_price_int a))
          ∧ r' !! "price_currency_option_currency_type" = Some "token".
Proof.
  revert store r. induction allocations as [|a l IH]; intros store r Hok Hi Hin.
  { by apply elem_of_nil in Hin. }
  simpl in *.
  destruct (if Py.nonempty _ then _ else _) as [pvp|e]; simpl in *; [|done].
  destruct (alter_write_lookup (token_price_int a) (record a) i store r Hi)
    as (r1 & H1 & _ & _ & Heq1).
  destruct (deref _ _ !! "_id"); simpl in *; [|done].
  destruct (Py.int_of_float pvp ≫= _); simpl in *; [|done].
  destruct (decide (i ∈ record <$> l)) as [Hl|Hl].
  - destruct (IH _ _ Hok H1 Hl) as (r' & a' & ? & ? & ? & ? & ?).
    exists r', a'. split_and!; try done. by right.
  - destruct (update_records_frame l _ _ _ H1) as (r' & H' & _ & Hsame).
    assert (i = record a) as Hia.
    { apply elem_of_cons in Hin as [|]; done. }
    apply Hsame in Hl as ->.
    rewrite (Heq1 Hia) in H'.
    exists (write_tokens (token_price_int a) r), a.
    destruct (write_tokens_lookup (token_price_int a) r).
    split_and!; try done. by left.
Qed.

(** The rows are changed by the update loop only. *)
Lemma calculate_token_prices_records (T : Z) (product_challenges : list row) :
  (out_records (calculate_token_prices T product_challenges) = product_challenges
   ∧ out_return (calculate_token_prices T product_challenges) ≠ Ok true)
  ∨ ∃ valid final,
      valid_records product_challenges = Ok valid
      ∧ token_allocations T product_challenges valid = Ok final
      ∧ out_records (calculate_token_prices T product_challenges)
          = (update_records final product_challenges).1
      ∧ out_return (calculate_token_prices T product_challenges)
          = ((update_records final product_challenges).2 ≫= λ _,
             closing_report (weighted_sum final) final ≫= λ _, Ok true).
Proof.
  unfold calculate_token_prices.
  destruct (valid_records product_challenges) as [valid|]; [|by left].
  destruct valid as [|v valid]; [by left|].
  destruct (_ =? 0)%float; [by left|].
  destruct (token_allocations _ _ _) as [final|] eqn:Hfinal; [|by left].
  destruct (verify_sum _ _); [|by left].
  right. exists (v :: valid), final.
  by destruct (update_records final product_challenges).
Qed.

(** ** The final check *)

Lemma verify_sum_console T s console :
  verify_sum T s = Ok console →
  (Py.float_eq_int s T = true ∧ console = [])
  ∨ (Py.float_eq_int s T = false ∧ ∃ target, Py.float_of_int T = Ok target
       ∧ console = [SumMismatch (s - target)]).
Proof.
  unfold verify_sum. destruct (Py.float_eq_int s T); simpl.
  - intros [= <-]. by left.
  - intros H. exc_inv H. injection H as <-. right. eauto.
Qed.

(** ** No division by zero *)

Lemma float_of_int_safe n : raises_only not_zero_division (Py.float_of_int n).
Proof. unfold Py.float_of_int. intros e. by case_match; intros [= <-]. Qed.

Lemma round_safe x : raises_only not_zero_division (Py.round x).
Proof. unfold Py.round. intros e. by case_match; intros [= <-]. Qed.

Lemma int_of_float_safe x : raises_only not_zero_division (Py.int_of_float x).
Proof. unfold Py.int_of_float. intros e. by case_match; intros [= <-]. Qed.

Lemma float_of_str_safe s : raises_only not_zero_division (Py.float_of_str s).
Proof. unfold Py.float_of_str. intros e. by repeat case_match; intros [= <-]. Qed.

Lemma truediv_safe x y :
  (y =? 0)%float = false → raises_only not_zero_division (Py.truediv x y).
Proof. unfold Py.truediv. by intros -> e. Qed.

Create HintDb safe.
#[local] Hint Resolve raises_only_Ok float_of_int_safe round_safe int_of_float_safe
  float_of_str_safe truediv_safe positive_nonzero : safe.

(** Splits a computation into its binds. *)
Ltac safe_steps :=
  repeat first
    [ apply raises_only_bind; [|intros ? ?]
    | apply raises_only_fmap
    | apply raises_only_mapM; intros ?
    | progress eauto with safe
    | match goal with |- raises_only _ (if ?b then _ else _) => destruct b eqn:? end
    | match goal with |- raises_only _ (let '(_, _) := ?p in _) => destruct p end ].

Lemma set_token_price_safe v a : raises_only not_zero_division (set_token_price v a).
Proof. unfold set_token_price. safe_steps. Qed.

#[local] Hint Resolve set_token_price_safe : safe.

Lemma valid_records_from_safe i product_challenges :
  raises_only not_zero_division (valid_records_from i product_challenges).
Proof.
  revert i. induction product_challenges as [|pc rest IH]; intros i; simpl;
    safe_steps.
Qed.

Lemma increase_safe d l : raises_only not_zero_division (increase d l).
Proof. revert d. induction l as [|a l IH]; intros d; simpl; safe_steps. Qed.

Lemma decrease_safe d l : raises_only not_zero_division (decrease d l).
Proof. revert d. induction l as [|a l IH]; intros d; simpl; safe_steps. Qed.

Lemma fine_loop_safe d l : raises_only not_zero_division (fine_loop d l).
Proof. revert d. induction l as [|a l IH]; intros d; simpl; safe_steps. Qed.

#[local] Hint Resolve valid_records_from_safe increase_safe decrease_safe fine_loop_safe : safe.

Lemma redistribute_safe T l : raises_only not_zero_division (redistribute T l).
Proof.
  unfold redistribute, coarse_pass, fine_pass, residual, sort_by_rounding_error,
    rounding_error.
  safe_steps.
Qed.

Lemma initial_allocations_safe T store valid :
  (total_pvp_stock valid =? 0)%float = false →
  raises_only not_zero_division (initial_allocations T store valid).
Proof.
  intros Htotal.
  unfold initial_allocations, scaling_factor, first_allocation, set_target, round_target.
  safe_steps.
Qed.

Lemma update_records_safe l store :
  raises_only not_zero_division (update_records l store).2.
Proof.
  revert store. induction l as [|a l IH]; intros store; simpl; [safe_steps|].
  destruct (if Py.nonempty _ then _ else _) as [pvp|e] eqn:Hpvp; simpl.
  - destruct (deref _ _ !! "_id"); simpl; [|by intros e [= <-]].
    destruct (Py.int_of_float pvp ≫= _) eqn:Hint; simpl; [done|].
    assert (raises_only not_zero_division
              (Py.int_of_float pvp ≫= λ _, Py.int_of_float (stock_initial a))) as H
      by safe_steps.
    rewrite Hint in H. intros e' [= <-]. by apply (H e).
  - assert (raises_only not_zero_division
              (if Py.nonempty (Py.strip (get (deref store (record a)) "pvp_number"))
               then Py.float_of_str (Py.strip (get (deref store (record a)) "pvp_number"))
               else Ok 0%float)) as H by safe_steps.
    rewrite Hpvp in H. intros e' [= <-]. by apply (H e).
Qed.

Lemma verify_sum_safe T s : raises_only not_zero_division (verify_sum T s).
Proof. unfold verify_sum. safe_steps. Qed.

Lemma closing_report_safe s l : raises_only not_zero_division (closing_report s l).
Proof. unfold closing_report. safe_steps. Qed.

Lemma token_allocations_safe T store valid :
  (total_pvp_stock valid =? 0)%float = false →
  raises_only not_zero_division (token_allocations T store valid).
Proof.
  intros Htotal. unfold token_allocations. apply raises_only_bind.
  - by apply initial_allocations_safe.
  - intros initial _. apply redistribute_safe.
Qed.

(** * The claims *)

(** ** C1: exactness *)

(** C1 does not hold of the code. With stocks 4 and 3 the target 11000 is
    reachable, as [4 * 2 + 3 * 3664], and the passes end on [4 * 1573 + 3 *
    1570 = 11002]. *)
Lemma exactness_counterexample : ¬ exactness_claim.
Proof.
  intros H.
  assert (∃ final, token_allocations TARGET_SUM stocks_4_3 valid_4_3 = Ok final
                   ∧ placed_prices final = [(1%nat, 1570); (0%nat, 1573)]
                   ∧ hits_target TARGET_SUM final = false) as (final & Hfinal & _ & Hmiss).
  { eexists. split; [vm_compute; reflexivity|]. split; vm_compute; reflexivity. }
  enough (hits_target TARGET_SUM final = true) as Hhit by congruence.
  apply (H stocks_4_3 valid_4_3 [4; 3]).
  - vm_compute; reflexivity.
  - discriminate.
  - vm_compute; reflexivity.
  - exists [2; 3664]. split; [reflexivity|]. split; [|reflexivity].
    repeat constructor; lia.
  - exact Hfinal.
Qed.

(** C1, at two products of price 1 with stocks 4 and 3. Both prices are
    rounded to 1571, a weighted sum of 10997 and a residual of 3. The
    target is within reach of one adjustment: the second price raised by
    one gives [4 * 1571 + 3 * 1572 = 11000]. The coarse pass raises the
    first price instead (11001, a residual of -1); the fine pass, from the
    smaller stock, lowers the second price and raises the first again. The
    function ends on 1573 and 1570, a weighted sum of 11002, prints the
    mismatch, writes these prices into the rows and returns [True]. *)
Theorem reachable_target_missed :
  ∃ initial coarse final,
    valid_records stocks_4_3 = Ok valid_4_3
    ∧ vr_stock_initial <$> valid_4_3 = Py.nearest_float <$> [4; 3]
    ∧ reachable TARGET_SUM [4; 3]
    ∧ initial_allocations TARGET_SUM stocks_4_3 valid_4_3 = Ok initial
    ∧ placed_prices initial = [(0%nat, 1571); (1%nat, 1571)]
    ∧ residual TARGET_SUM initial = Ok 3%float
    ∧ 4 * 1571 + 3 * (1571 + 1) = TARGET_SUM
    ∧ coarse_pass 3 initial = Ok coarse
    ∧ placed_prices coarse = [(0%nat, 1572); (1%nat, 1571)]
    ∧ residual TARGET_SUM coarse = Ok (-1)%float
    ∧ fine_pass TARGET_SUM coarse = Ok final
    ∧ placed_prices final = [(1%nat, 1570); (0%nat, 1573)]
    ∧ final_allocations TARGET_SUM stocks_4_3 = Ok final
    ∧ weighted_sum final = 11002%float
    ∧ hits_target TARGET_SUM final = false
    ∧ out_console (calculate_token_prices TARGET_SUM stocks_4_3) = [SumMismatch 2]
    ∧ out_return (calculate_token_prices TARGET_SUM stocks_4_3) = Ok true
    ∧ token_prices (out_records (calculate_token_prices TARGET_SUM stocks_4_3))
      = [Some "1573"; Some "1570"].
Proof.
  do 3 eexists. split_and!; try (vm_compute; reflexivity).
  - exists [2; 3664]. split; [reflexivity|]. split; [|reflexivity].
    repeat constructor; lia.
Qed.

(** ** C2: the floor of one token *)

(** C2. For every batch, every allocation built from a record that passes
    the filter has [token_price_int >= 1] from the first loop on: when it
    is built (lines 88-92), after the initial rounding (line 121), after
    the coarse pass and after the fine pass, hence in the final
    allocations. *)
Theorem floor_invariant (T : Z) (product_challenges : list row)
    (valid : list valid_record) (initial : list allocation) :
  valid_records product_challenges = Ok valid →
  initial_allocations T product_challenges valid = Ok initial →
  (∀ k r a, first_allocation k r = Ok a → floor_ok a)
  ∧ (∀ total a a', set_target T product_challenges total a = Ok a' →
       floor_ok a → floor_ok a')
  ∧ Forall floor_ok initial
  ∧ (∀ difference coarse,
       coarse_pass difference initial = Ok coarse →
       Forall floor_ok coarse
       ∧ ∀ fine, fine_pass T coarse = Ok fine → Forall floor_ok fine)
  ∧ on_ok (Forall floor_ok) (token_allocations T product_challenges valid).
Proof.
  intros _ Hinit.
  assert (Forall floor_ok initial) as H0 by eauto using initial_allocations_floor.
  split; [apply first_allocation_floor|].
  split; [apply set_target_floor|].
  split; [done|]. split.
  - intros d coarse Hc.
    assert (Forall floor_ok coarse) by eauto using coarse_pass_floor.
    eauto using fine_pass_floor.
  - unfold token_allocations. rewrite Hinit. simpl.
    apply on_ok_intro. eauto using redistribute_floor.
Qed.

Lemma floor_invariant_witness :
  ∃ initial,
    initial_allocations TARGET_SUM stocks_4_3 valid_4_3 = Ok initial
    ∧ token_price_int <$> initial = [1571; 1571]
    ∧ Forall floor_ok initial.
Proof.
  eexists. split; [vm_compute; reflexivity|].
  split; [vm_compute; reflexivity|].
  refine (proj1 (proj2 (proj2 (floor_invariant TARGET_SUM stocks_4_3 valid_4_3 _ _ _))));
    vm_compute; reflexivity.
Defined.

(** ** C3: the value returned *)

(** C3 fails as worded. With stocks 4 and 3 the function returns [True]
    and the final weighted sum, 11002, is not the target. *)
Lemma flag_counterexample : ¬ flag_claim.
Proof.
  intros H.
  assert (∃ final, final_allocations TARGET_SUM stocks_4_3 = Ok final
                   ∧ hits_target TARGET_SUM final = false) as (final & Hfinal & Hmiss).
  { eexists. split; vm_compute; reflexivity. }
  apply H in Hfinal. rewrite Hmiss in Hfinal.
  assert (out_return (calculate_token_prices TARGET_SUM stocks_4_3) = Ok true) as Hret
    by (vm_compute; reflexivity).
  by apply Hfinal in Hret.
Qed.

(** C3, amended. The function returns a bare boolean. When it returns, the
    value is [True] exactly when at least one record passes the filter,
    whether or not the final weighted sum equals the target; neither a flag
    for the exact match nor the sum achieved is returned. The mismatch
    shows on the console only: the warning line, carrying [final_sum -
    TARGET_SUM], is printed exactly when the final sum differs from the
    target. When [False] is returned the rows are untouched. *)
Theorem return_value_meaning (T : Z) (product_challenges : list row) (b : bool) :
  out_return (calculate_token_prices T product_challenges) = Ok b →
  ∃ valid,
    valid_records product_challenges = Ok valid
    ∧ (b = true ↔ valid ≠ [])
    ∧ (b = false →
         out_records (calculate_token_prices T product_challenges) = product_challenges)
    ∧ (b = true →
         ∃ final,
           final_allocations T product_challenges = Ok final
           ∧ (hits_target T final = true →
                out_console (calculate_token_prices T product_challenges) = [])
           ∧ (hits_target T final = false →
                ∃ target, Py.float_of_int T = Ok target
                  ∧ out_console (calculate_token_prices T product_challenges)
                      = [SumMismatch (weighted_sum final - target)])).
Proof.
  unfold calculate_token_prices, final_allocations.
  destruct (valid_records product_challenges) as [valid|] eqn:Hvalid; [|done].
  destruct valid as [|v valid].
  { simpl. intros [= <-]. exists []. split_and!; done. }
  destruct (total_pvp_stock_nonzero _ _ Hvalid) as [_ ->]; [done|].
  destruct (token_allocations _ _ _) as [final|] eqn:Hfinal; [|done].
  destruct (verify_sum _ _) as [console|] eqn:Hconsole; [|done].
  destruct (update_records final product_challenges) as [store [[]|]]; simpl; [|done].
  destruct (closing_report _ _) as [[]|]; simpl; [|done].
  intros [= <-]. exists (v :: valid). split_and!; try done.
  intros _. exists final. split; [done|]. unfold hits_target.
  apply verify_sum_console in Hconsole as [[-> ->]|(-> & target & ? & ->)].
  - split; [done|]. done.
  - split; [done|]. intros _. by exists target.
Qed.

Lemma return_value_meaning_witness :
  ∃ valid,
    valid_records stocks_4_3 = Ok valid
    ∧ (true = true ↔ valid ≠ [])
    ∧ out_console (calculate_token_prices TARGET_SUM stocks_4_3) = [SumMismatch 2].
Proof.
  destruct (return_value_meaning TARGET_SUM stocks_4_3 true) as (valid & Hv & Hiff & _).
  - vm_compute; reflexivity.
  - exists valid. split; [exact Hv|]. split; [exact Hiff|]. vm_compute; reflexivity.
Defined.

(** ** C4: a rejected batch *)

(** C4. When no record passes the filter, or when the total of
    [pvp * stock_initial] is zero, the function returns [False] and every
    row is as it was: no [token_price_number], no currency is written. *)
Theorem rejected_batch_untouched (T : Z) (product_challenges : list row)
    (valid : list valid_record) :
  valid_records product_challenges = Ok valid →
  valid = [] ∨ (total_pvp_stock valid =? 0)%float = true →
  out_return (calculate_token_prices T product_challenges) = Ok false
  ∧ out_records (calculate_token_prices T product_challenges) = product_challenges.
Proof.
  intros Hvalid Hcase. unfold calculate_token_prices. rewrite Hvalid.
  destruct Hcase as [-> | Hzero]; [done|].
  destruct valid; [done|]. by rewrite Hzero.
Qed.

Lemma rejected_batch_untouched_witness :
  out_return (calculate_token_prices TARGET_SUM unusable_batch) = Ok false
  ∧ out_records (calculate_token_prices TARGET_SUM unusable_batch) = unusable_batch.
Proof.
  refine (rejected_batch_untouched TARGET_SUM unusable_batch [] _ _).
  - vm_compute; reflexivity.
  - left; reflexivity.
Defined.

(** ** C5: the coarse pass *)

(** C5. The coarse pass is entered exactly when the residual after the
    initial rounding is not zero, and it is the pass of the specification.
    When it returns, its result is the walk of the specification over the
    allocations put in decreasing order of [|target_token_price -
    token_price_int|] (a rearrangement of the input in which no error is
    less than the next, allocations of equal error in input order): the
    list is walked once, each allocation raised by one and its stock taken
    off the residual while the residual is positive, or lowered by one
    (only above 1) and its stock added back while it is negative, none
    being touched once the residual has lost the sign it started with; and
    every allocation keeps its row. It raises only [OverflowError], when a
    price it converts is too large for a float. *)
Theorem coarse_pass_as_specified (T : Z) (difference : float) (l : list allocation) :
  (residual T l = Ok difference →
     redistribute T l
     = if (difference =? 0)%float then Ok l
       else coarse_pass difference l ≫= fine_pass T)
  ∧ (∀ coarse, coarse_pass difference l = Ok coarse →
       ∃ ordered,
         in_the_order_of_specification l ordered
         ∧ item_of <$> coarse = spec_walk difference (item_of <$> ordered)
         ∧ record <$> coarse = record <$> ordered)
  ∧ (∀ e, coarse_pass difference l = Raise e →
       e = OverflowError ∧ ∃ a, a ∈ l ∧ price_without_float a).
Proof.
  split_and!.
  - intros Hd. unfold redistribute. rewrite Hd. simpl.
    by destruct (difference =? 0)%float.
  - intros coarse H. unfold coarse_pass in H. exc_inv H. rename a into ordered.
    exists ordered. split; [by apply sort_by_rounding_error_order|].
    unfold spec_walk. destruct (0 <? difference)%float;
      exc_inv H; subst; destruct a as [l' d'].
    + by eapply increase_items.
    + by eapply decrease_items.
  - apply coarse_pass_raises.
Qed.

(** Two allocations at 2 tokens with a stock of 1, the first of target
    price 1.9 and the second of target price 1.5, and a residual of -1: the
    second, whose error is the larger, comes first and is lowered; the
    residual is then zero and the other one keeps its price. *)
Lemma coarse_pass_as_specified_witness :
  coarse_pass (-1) [example_allocation 0 2 1 1.9; example_allocation 1 2 1 1.5]
    = Ok [example_allocation 1 1 1 1.5; example_allocation 0 2 1 1.9]
  ∧ ∃ ordered,
      in_the_order_of_specification
        [example_allocation 0 2 1 1.9; example_allocation 1 2 1 1.5] ordered
      ∧ item_of <$> [example_allocation 1 1 1 1.5; example_allocation 0 2 1 1.9]
        = spec_walk (-1) (item_of <$> ordered)
      ∧ record <$> [example_allocation 1 1 1 1.5; example_allocation 0 2 1 1.9]
        = record <$> ordered.
Proof.
  assert (coarse_pass (-1) [example_allocation 0 2 1 1.9; example_allocation 1 2 1 1.5]
          = Ok [example_allocation 1 1 1 1.5; example_allocation 0 2 1 1.9]) as H
    by (vm_compute; reflexivity).
  split; [exact H|].
  exact (proj1 (proj2 (coarse_pass_as_specified TARGET_SUM (-1)
           [example_allocation 0 2 1 1.9; example_allocation 1 2 1 1.5])) _ H).
Defined.

(** ** C6: scenario B *)

(** C6. With a target of 3, two products of price 1 and stock 1 are both
    rounded to 2 with the same rounding error; the coarse pass keeps them in
    input order and lowers the first: the prices are 1 and 2, their
    weighted sum is 3, no mismatch is reported. The choice follows the
    position in the input, not the row: the batch in the other order gets
    the same prices by position. In general rows with equal rounding errors
    are visited in input order. *)
Theorem scenario_B_allocation :
  let out := calculate_token_prices 3 scenario_B in
  out_return out = Ok true
  ∧ out_console out = []
  ∧ token_prices (out_records out) = [Some "1"; Some "2"]
  ∧ prices <$> initial_allocations 3 scenario_B
       [ {| vr_record := 0; vr_pvp := 1; vr_stock_initial := 1 |};
         {| vr_record := 1; vr_pvp := 1; vr_stock_initial := 1 |} ] = Ok [2; 2]
  ∧ placed_prices <$> final_allocations 3 scenario_B = Ok [(0%nat, 1); (1%nat, 2)]
  ∧ hits_target 3 <$> final_allocations 3 scenario_B = Ok true
  ∧ token_prices (out_records (calculate_token_prices 3 (reverse scenario_B)))
      = [Some "1"; Some "2"]
  ∧ ∀ (e : float) (l : list allocation),
      (e <? e)%float = false →
      Forall (λ a, rounding_error a = Ok e) l →
      sort_by_rounding_error l = Ok l.
Proof.
  do 7 (split; [vm_compute; reflexivity|]).
  intros e l He Hl. unfold sort_by_rounding_error.
  assert (mapM rounding_error l = Ok (replicate (length l) e)) as ->.
  { apply mapM_Ok. induction Hl; simpl; constructor; auto. }
  simpl. f_equal.
  rewrite (sort_desc_ties e); [apply snd_zip_same_length; by rewrite length_replicate|done|].
  apply Forall_forall. intros [k a] Hin. simpl.
  apply elem_of_zip_l in Hin. by apply elem_of_replicate in Hin as [-> _].
Qed.

Lemma scenario_B_allocation_witness :
  sort_by_rounding_error [example_allocation 0 2 1 1.5; example_allocation 1 1 1 1.5]
  = Ok [example_allocation 0 2 1 1.5; example_allocation 1 1 1 1.5].
Proof.
  refine (proj2 (proj2 (proj2 (proj2 (proj2 (proj2 (proj2 scenario_B_allocation))))))
            0.5%float _ _ _).
  - vm_compute; reflexivity.
  - repeat constructor.
Defined.

(** ** C7: scenario D *)

(** C7. With a target of 3, two products of stock 5 are both rounded to 0
    and raised to the floor of 1, a weighted sum of 10. The call raises
    nothing and returns; both passes leave the prices at 1; the mismatch is
    reported with the positive difference [final_sum - TARGET_SUM = 7].
    The same holds of any two allocations that the initial rounding leaves
    at one token with a stock of 5, whatever their prices: the two passes
    return them unchanged, in one order or the other, and the difference
    reported is 7. *)
Theorem scenario_D_allocation :
  let out := calculate_token_prices 3 scenario_D in
  out_return out = Ok true
  ∧ prices <$> initial_allocations 3 scenario_D
       [ {| vr_record := 0; vr_pvp := 1; vr_stock_initial := 5 |};
         {| vr_record := 1; vr_pvp := 1; vr_stock_initial := 5 |} ] = Ok [1; 1]
  ∧ prices <$> final_allocations 3 scenario_D = Ok [1; 1]
  ∧ token_prices (out_records out) = [Some "1"; Some "1"]
  ∧ weighted_sum <$> final_allocations 3 scenario_D = Ok 10%float
  ∧ out_console out = [SumMismatch 7]
  ∧ (0 <? 7)%float = true
  ∧ ∀ a b, pinned a → pinned b →
      ∃ final, redistribute 3 [a; b] = Ok final
               ∧ (final = [a; b] ∨ final = [b; a])
               ∧ verify_sum 3 (weighted_sum final) = Ok [SumMismatch 7].
Proof.
  do 7 (split; [vm_compute; reflexivity|]).
  apply pinned_pair_redistribute.
Qed.

Lemma scenario_D_allocation_witness :
  ∃ final,
    redistribute 3 [example_allocation 0 1 5 0.25; example_allocation 1 1 5 0.25]
      = Ok final
    ∧ (final = [example_allocation 0 1 5 0.25; example_allocation 1 1 5 0.25]
       ∨ final = [example_allocation 1 1 5 0.25; example_allocation 0 1 5 0.25])
    ∧ verify_sum 3 (weighted_sum final) = Ok [SumMismatch 7].
Proof.
  refine (proj2 (proj2 (proj2 (proj2 (proj2 (proj2 (proj2 scenario_D_allocation))))))
            (example_allocation 0 1 5 0.25) (example_allocation 1 1 5 0.25) _ _);
    (split; [reflexivity|split; vm_compute; reflexivity]).
Defined.

(** ** C8: the guard on a zero total *)

(** C8. Every record the filter keeps has a positive price and a positive
    stock, and when it keeps at least one the total of [pvp *
    stock_initial] is positive, not zero: the branch that reports a zero
    total is never taken, and no division of the function raises
    [ZeroDivisionError]. *)
Theorem zero_total_guard_unreachable (T : Z) (product_challenges : list row) :
  (∀ valid, valid_records product_challenges = Ok valid → valid ≠ [] →
     Forall positive_record valid
     ∧ (0 <? total_pvp_stock valid)%float = true
     ∧ (total_pvp_stock valid =? 0)%float = false)
  ∧ (TotalIsZero ∉ out_console (calculate_token_prices T product_challenges))
  ∧ out_return (calculate_token_prices T product_challenges) ≠ Raise ZeroDivisionError.
Proof.
  split_and!.
  - intros valid Hvalid Hne. split; [|by eapply total_pvp_stock_nonzero].
    apply valid_records_from_usable in Hvalid.
    eapply Forall_impl; [done|]. intros r [Hp Hs].
    split; by apply at_least_one_positive.
  - unfold calculate_token_prices.
    destruct (valid_records product_challenges) as [valid|] eqn:Hvalid; simpl;
      [|by apply not_elem_of_nil].
    destruct valid as [|v valid]; simpl; [by intros ?%list_elem_of_singleton|].
    destruct (total_pvp_stock_nonzero _ _ Hvalid) as [_ ->]; [done|].
    destruct (token_allocations _ _ _) as [final|]; simpl; [|by apply not_elem_of_nil].
    destruct (verify_sum _ _) as [console|] eqn:Hconsole; simpl;
      [|by apply not_elem_of_nil].
    destruct (update_records final product_challenges). simpl.
    apply verify_sum_console in Hconsole as [[_ ->]|(_ & target & _ & ->)].
    + by apply not_elem_of_nil.
    + by intros ?%list_elem_of_singleton.
  - unfold calculate_token_prices.
    destruct (valid_records product_challenges) as [valid|e] eqn:Hvalid; simpl.
    2: { intros [= ->]. by eapply (valid_records_from_safe 0 product_challenges). }
    destruct valid as [|v valid]; simpl; [done|].
    destruct (total_pvp_stock_nonzero _ _ Hvalid) as [_ Htotal]; [done|].
    rewrite Htotal.
    destruct (token_allocations _ _ _) as [final|e] eqn:Hfinal; simpl.
    2: { intros [= ->]. by eapply token_allocations_safe. }
    destruct (verify_sum _ _) as [console|e] eqn:Hconsole; simpl.
    2: { intros [= ->]. by eapply verify_sum_safe. }
    pose proof (update_records_safe final product_challenges) as Hup.
    destruct (update_records final product_challenges) as [store [[]|e]]; simpl in *.
    2: { intros [= ->]. by eapply Hup. }
    pose proof (closing_report_safe (weighted_sum final) final) as Hreport.
    destruct (closing_report _ _) as [[]|e]; simpl; [done|].
    intros [= ->]. by eapply Hreport.
Qed.

Lemma zero_total_guard_unreachable_witness :
  (0 <? total_pvp_stock valid_4_3)%float = true
  ∧ (total_pvp_stock valid_4_3 =? 0)%float = false.
Proof.
  refine (proj2 (proj1 (zero_total_guard_unreachable TARGET_SUM stocks_4_3) valid_4_3 _ _)).
  - vm_compute; reflexivity.
  - discriminate.
Defined.

(** ** C9: the frame of the update *)

(** C9. Whatever the outcome, the function leaves the number of rows and,
    in every row, every column other than [token_price_number] and
    [price_currency_option_currency_type] as they were; the currency column
    is either untouched or ["token"]; a row the filter excludes is
    untouched altogether; and when the function returns [True] every row
    the filter keeps holds the currency ["token"] and the decimal text of a
    price of at least [1]. *)
Theorem update_frame (T : Z) (product_challenges : list row) :
  let out := calculate_token_prices T product_challenges in
  length (out_records out) = length product_challenges
  ∧ ∀ i r, product_challenges !! i = Some r →
      ∃ r', out_records out !! i = Some r'
        ∧ frame r r'
        ∧ (∀ valid, valid_records product_challenges = Ok valid →
             i ∉ vr_record <$> valid → r' = r)
        ∧ (∀ valid, valid_records product_challenges = Ok valid →
             i ∈ vr_record <$> valid → out_return out = Ok true →
             r' !! "price_currency_option_currency_type" = Some "token"
             ∧ ∃ tokens, 1 ≤ tokens
                 ∧ r' !! "token_price_number" = Some (Py.str_of_int tokens)).
Proof.
  intros out. subst out.
  destruct (calculate_token_prices_records T product_challenges)
    as [[Hsame Hnot] | (valid & final & Hvalid & Hfinal & Hrec & Hret)].
  - rewrite Hsame. split; [done|]. intros i r Hi. exists r.
    split; [done|]. split; [apply frame_refl|]. split; done.
  - rewrite Hrec, Hret. split; [apply update_records_length|].
    intros i r Hi.
    pose proof (token_allocations_records _ _ _ _ Hfinal) as Hperm.
    destruct (update_records_frame final _ _ _ Hi) as (r' & Hr' & Hframe & Hout).
    exists r'. split; [done|]. split; [done|]. split.
    + intros valid' Hvalid' Hnot. rewrite Hvalid' in Hvalid. injection Hvalid as ->.
      apply Hout. by rewrite Hperm.
    + intros valid' Hvalid' Hin Hok.
      rewrite Hvalid' in Hvalid. injection Hvalid as ->.
      destruct (update_records final product_challenges).2 as [[]|] eqn:Hdone; [|done].
      rewrite <- Hperm in Hin.
      destruct (update_records_written final _ _ _ Hdone Hi Hin)
        as (r'' & a & Hr'' & Ha & _ & Hprice & Hcur).
      rewrite Hr' in Hr''. injection Hr'' as <-.
      split; [done|]. exists (token_price_int a). split; [|done].
      apply token_allocations_floor in Hfinal.
      by eapply Forall_forall in Hfinal.
Qed.

Lemma update_frame_witness :
  ∃ r', out_records (calculate_token_prices TARGET_SUM stocks_4_3) !! 0%nat = Some r'
        ∧ frame (challenge "a" "1" "4") r'
        ∧ r' !! "price_currency_option_currency_type" = Some "token".
Proof.
  destruct (update_frame TARGET_SUM stocks_4_3) as [_ H].
  destruct (H 0%nat (challenge "a" "1" "4") eq_refl) as (r' & Hr' & Hframe & _ & Hin).
  exists r'. split; [exact Hr'|]. split; [exact Hframe|].
  refine (proj1 (Hin valid_4_3 _ _ _)).
  - vm_compute; reflexivity.
  - left.
  - vm_compute; reflexivity.
Defined.

(** ** C10: what the filter accepts *)

(** C10 fails as worded. The price [" 5"] has a blank in it and its record
    takes part, with the weight 5. *)
Lemma digits_only_counterexample : ¬ digits_only_claim.
Proof.
  intros H.
  destruct (H padded_batch
              [ {| vr_record := 0; vr_pvp := 5; vr_stock_initial := 2 |} ]
              0%nat (challenge "a" " 5" "2")) as [Hpvp _].
  - vm_compute; reflexivity.
  - reflexivity.
  - left.
  - vm_compute in Hpvp. discriminate.
Qed.

(** C10, amended. A record takes part exactly when each of its two columns,
    stripped of surrounding whitespace, is a non-empty string of digits
    ([isdigit]) writing a positive integer in decimal; the weight and the
    multiplicity used for it are the floats nearest to these two positive
    integers. *)
Theorem filter_accepts_stripped_digits (product_challenges : list row)
    (valid : list valid_record) (i : nat) (pc : row) :
  valid_records product_challenges = Ok valid →
  product_challenges !! i = Some pc →
  (i ∈ vr_record <$> valid ↔ ∃ n k, accepted pc n k)
  ∧ ∀ v, v ∈ valid → vr_record v = i →
      ∃ n k, accepted pc n k
             ∧ vr_pvp v = Py.nearest_float n ∧ vr_stock_initial v = Py.nearest_float k.
Proof. intros H Hi. by apply (valid_records_from_accepts 0 _ _ i pc H Hi). Qed.

Lemma filter_accepts_stripped_digits_witness :
  0%nat ∈ vr_record <$> [ {| vr_record := 0; vr_pvp := 5; vr_stock_initial := 2 |} ]
  ↔ ∃ n k, accepted (challenge "a" " 5" "2") n k.
Proof.
  refine (proj1 (filter_accepts_stripped_digits padded_batch _ 0%nat _ _ _)).
  - vm_compute; reflexivity.
  - reflexivity.
Defined.

(** * Further properties

    Properties of the function beyond the claims, of the script around
    it and of the other scripts. *)

(** ** The allocations *)

(** *** The sum that is checked *)

Lemma float_of_int_Ok (n : Z) (x : float) :
  Py.float_of_int n = Ok x → x = Py.nearest_float n.
Proof. unfold Py.float_of_int. case_match; [done|]. by intros [= <-]. Qed.

Lemma set_token_price_consistent (v : Z) (a a' : allocation) :
  set_token_price v a = Ok a' → consistent a'.
Proof.
  intros H. unfold set_token_price in H. exc_inv H. injection H as <-.
  apply float_of_int_Ok in Ha. unfold consistent. simpl. by rewrite Ha.
Qed.

Lemma increase_consistent (l l' : list allocation) (d d' : float) :
  increase d l = Ok (l', d') → Forall consistent l → Forall consistent l'.
Proof.
  revert d l'. induction l as [|a l IH]; intros d l' H Hl; simpl in H.
  - by injection H as <- <-.
  - inversion Hl; subst. destruct (0 <? d)%float.
    + exc_inv H. destruct a1 as [rest d1]. injection H as <- <-.
      constructor; [by eapply set_token_price_consistent|by eapply IH].
    + exc_inv H. destruct a0 as [rest d1]. injection H as <- <-.
      constructor; [done|by eapply IH].
Qed.

Lemma decrease_consistent (l l' : list allocation) (d d' : float) :
  decrease d l = Ok (l', d') → Forall consistent l → Forall consistent l'.
Proof.
  revert d l'. induction l as [|a l IH]; intros d l' H Hl; simpl in H.
  - by injection H as <- <-.
  - inversion Hl; subst. destruct ((d <? 0)%float && (1 <? token_price_int a)).
    + exc_inv H. destruct a1 as [rest d1]. injection H as <- <-.
      constructor; [by eapply set_token_price_consistent|by eapply IH].
    + exc_inv H. destruct a0 as [rest d1]. injection H as <- <-.
      constructor; [done|by eapply IH].
Qed.

Lemma fine_loop_consistent (l l' : list allocation) (d d' : float) :
  fine_loop d l = Ok (l', d') → Forall consistent l → Forall consistent l'.
Proof.
  revert d l'. induction l as [|a l IH]; intros d l' H Hl; simpl in H.
  - by injection H as <- <-.
  - inversion Hl; subst. exc_inv H. destruct a0 as [a' d1].
    assert (consistent a') as Ha'.
    { destruct (0 <? d)%float.
      - exc_inv Ha. injection Ha as <- <-. by eapply set_token_price_consistent.
      - destruct ((d <? 0)%float && (1 <? token_price_int a)).
        + exc_inv Ha. injection Ha as <- <-. by eapply set_token_price_consistent.
        + by injection Ha as <- <-. }
    destruct (abs d1 =? 0)%float.
    + injection H as <- <-. by constructor.
    + exc_inv H. destruct a0 as [rest d2]. injection H as <- <-.
      constructor; [done|by eapply IH].
Qed.

Lemma redistribute_consistent (T : Z) (l final : list allocation) :
  redistribute T l = Ok final → Forall consistent l → Forall consistent final.
Proof.
  intros H Hl. unfold redistribute in H. exc_inv H.
  destruct (negb (a =? 0)%float); [|by injection H as <-].
  exc_inv H. rename a0 into coarse.
  assert (Forall consistent coarse) as Hc.
  { unfold coarse_pass in Ha0. exc_inv Ha0. rename a0 into sorted.
    apply sort_by_rounding_error_perm in Ha1.
    assert (Forall consistent sorted) by by rewrite Ha1.
    destruct (0 <? a)%float; exc_inv Ha0; destruct a0; simpl in Ha0; subst.
    - by eapply increase_consistent.
    - by eapply decrease_consistent. }
  unfold fine_pass in H. exc_inv H.
  destruct (0 <? abs a0)%float; [|by injection H as <-].
  exc_inv H. destruct a1; simpl in H; subst.
  eapply fine_loop_consistent; [done|]. by rewrite sort_by_stock_perm.
Qed.

Lemma initial_allocations_consistent T store valid initial :
  initial_allocations T store valid = Ok initial → Forall consistent initial.
Proof.
  intros H. unfold initial_allocations in H. exc_inv H.
  apply mapM_Ok in H. clear -H.
  induction H as [|a b ? ? Hab]; constructor; [|done].
  unfold round_target in Hab. exc_inv Hab. by eapply set_token_price_consistent.
Qed.

Lemma sum_consistent (l : list allocation) :
  Forall consistent l →
  weighted_value <$> l
  = (λ a, Py.nearest_float (token_price_int a) * stock_initial a)%float <$> l.
Proof. induction 1 as [|a l Ha]; csimpl; [done|]. by f_equal. Qed.

(** X1. The sum that line 182 compares with the target is the sum of the prices
    that are written: in every final allocation the weighted value is the
    product, in floats, of the final price and the stock, whatever the passes
    did to the price. *)
Theorem checked_sum_is_sum_of_prices (T : Z) (store : list row)
    (valid : list valid_record) (final : list allocation) :
  token_allocations T store valid = Ok final →
  Forall consistent final
  ∧ weighted_sum final
    = Py.sum ((λ a, Py.nearest_float (token_price_int a) * stock_initial a)%float
                <$> final).
Proof.
  intros H. unfold token_allocations in H. exc_inv H.
  assert (Forall consistent final) as Hc.
  { eapply redistribute_consistent; [done|]. by eapply initial_allocations_consistent. }
  split; [done|]. unfold weighted_sum. by rewrite sum_consistent.
Qed.

Lemma checked_sum_is_sum_of_prices_witness :
  ∃ final,
    token_allocations TARGET_SUM stocks_4_3 valid_4_3 = Ok final
    ∧ Forall consistent final
    ∧ weighted_sum final
      = Py.sum ((λ a, Py.nearest_float (token_price_int a) * stock_initial a)%float
                  <$> final).
Proof.
  destruct (token_allocations TARGET_SUM stocks_4_3 valid_4_3) as [final|e] eqn:H;
    [|vm_compute in H; discriminate].
  exists final. split; [reflexivity|].
  exact (checked_sum_is_sum_of_prices TARGET_SUM stocks_4_3 valid_4_3 final H).
Defined.

(** *** Adjustments of two tokens at most *)

Lemma adjusted_twice (a b c : allocation) :
  floor_ok a → adjusted a b → adjusted b c → within_two a c.
Proof.
  unfold floor_ok, adjusted, within_two.
  intros Ha (Hr1 & Hs1 & Ht1 & H1) (Hr2 & Hs2 & Ht2 & H2).
  split; [congruence|]. split; [congruence|]. split; [congruence|].
  destruct H1 as [->|[H1|[? H1]]], H2 as [->|[H2|[? H2]]]; lia.
Qed.

Lemma Forall2_adjusted_twice (l1 l2 l3 : list allocation) :
  Forall floor_ok l1 → Forall2 adjusted l1 l2 → Forall2 adjusted l2 l3 →
  Forall2 within_two l1 l3.
Proof.
  intros Hf H12. revert l3. induction H12 as [|a b l1 l2 Hab H12 IH]; intros l3 H23.
  - inversion H23. constructor.
  - inversion H23; subst. inversion Hf; subst.
    constructor; [by eapply adjusted_twice|by apply IH].
Qed.

Lemma Forall2_adjusted_refl (l : list allocation) : Forall2 adjusted l l.
Proof. induction l; constructor; [apply adjusted_refl|done]. Qed.

Lemma Forall2_perm_left {A B} (R : A → B → Prop) (l : list A) (k k' : list B) :
  Forall2 R l k → k ≡ₚ k' → ∃ l', l' ≡ₚ l ∧ Forall2 R l' k'.
Proof.
  intros H Hk. apply Forall2_flip in H.
  destruct (Permutation_Forall2 Hk H) as (l' & Hl & H').
  exists l'. split; [done|]. by apply Forall2_flip.
Qed.

Lemma redistribute_within_two (T : Z) (l final : list allocation) :
  Forall floor_ok l → redistribute T l = Ok final →
  ∃ matched, matched ≡ₚ l ∧ Forall2 within_two matched final.
Proof.
  intros Hf H.
  cut (∃ l1 l2, l1 ≡ₚ l ∧ Forall2 adjusted l1 l2 ∧ Forall2 adjusted l2 final).
  { intros (l1 & l2 & Hl1 & H12 & H23). exists l1. split; [done|].
    eapply Forall2_adjusted_twice; [by rewrite Hl1|done..]. }
  unfold redistribute in H. exc_inv H.
  destruct (negb (a =? 0)%float).
  2:{ injection H as <-. exists l, l. auto using Forall2_adjusted_refl. }
  exc_inv H. rename a0 into coarse.
  assert (∃ sorted, sorted ≡ₚ l ∧ Forall2 adjusted sorted coarse) as (sorted & Hs & Hsc).
  { unfold coarse_pass in Ha0. exc_inv Ha0. rename a0 into sorted. exists sorted.
    split; [by eapply sort_by_rounding_error_perm|].
    destruct (0 <? a)%float; exc_inv Ha0; destruct a0; simpl in Ha0; subst.
    - by eapply increase_adjusted.
    - by eapply decrease_adjusted. }
  unfold fine_pass in H. exc_inv H.
  destruct (0 <? abs a0)%float.
  2:{ injection H as <-. exists sorted, coarse. auto using Forall2_adjusted_refl. }
  exc_inv H. destruct a1 as [fine d]; simpl in H; subst.
  apply fine_loop_adjusted in Ha2.
  destruct (Forall2_perm_left _ _ _ (sort_by_stock coarse) Hsc) as (l1 & Hl1 & H1).
  { by rewrite sort_by_stock_perm. }
  exists l1, (sort_by_stock coarse). split; [by rewrite Hl1|done].
Qed.

(** X2. Redistribution loses no allocation and moves each price by two tokens at
    most: the final allocations are, one for one, the initial ones in another
    order, each with its row, its stock and its target price, and with a
    price of at least 1 that differs by at most 2 from the price of the
    initial rounding. *)
Theorem prices_move_by_two_at_most (T : Z) (store : list row)
    (valid : list valid_record) (initial final : list allocation) :
  initial_allocations T store valid = Ok initial →
  token_allocations T store valid = Ok final →
  ∃ matched, matched ≡ₚ initial ∧ Forall2 within_two matched final.
Proof.
  intros Hi H. unfold token_allocations in H. rewrite Hi in H. simpl in H.
  eapply redistribute_within_two; [|done]. by eapply initial_allocations_floor.
Qed.

Lemma prices_move_by_two_at_most_witness :
  ∃ initial final,
    initial_allocations TARGET_SUM stocks_4_3 valid_4_3 = Ok initial
    ∧ token_allocations TARGET_SUM stocks_4_3 valid_4_3 = Ok final
    ∧ ∃ matched, matched ≡ₚ initial ∧ Forall2 within_two matched final.
Proof.
  destruct (initial_allocations TARGET_SUM stocks_4_3 valid_4_3) as [initial|e] eqn:Hi;
    [|vm_compute in Hi; discriminate].
  destruct (token_allocations TARGET_SUM stocks_4_3 valid_4_3) as [final|e] eqn:Hf;
    [|vm_compute in Hf; discriminate].
  exists initial, final. split; [reflexivity|]. split; [reflexivity|].
  exact (prices_move_by_two_at_most TARGET_SUM stocks_4_3 valid_4_3 initial final Hi Hf).
Defined.

(** *** The rows written *)

Lemma valid_records_from_NoDup (i : nat) (product_challenges : list row)
    (valid : list valid_record) :
  valid_records_from i product_challenges = Ok valid → NoDup (vr_record <$> valid).
Proof.
  revert i valid. induction product_challenges as [|pc rest IH]; intros i valid H.
  - injection H as <-. constructor.
  - apply valid_records_from_cons in H as [(n & k & valid' & _ & H & ->)|[_ H]];
      [|by eapply IH].
    csimpl. constructor; [|by eapply IH].
    apply valid_records_from_refs in H. intros Hin.
    apply list_elem_of_fmap in Hin as (v & Hv & Hin).
    rewrite Forall_forall in H. specialize (H v Hin). simpl in Hv. lia.
Qed.

Lemma token_allocations_NoDup T (product_challenges : list row) valid final :
  valid_records product_challenges = Ok valid →
  token_allocations T product_challenges valid = Ok final →
  NoDup (record <$> final).
Proof.
  intros Hv H. apply token_allocations_records in H. rewrite H.
  by eapply valid_records_from_NoDup.
Qed.

Lemma update_records_untouched (allocations : list allocation) (store : list row) (i : nat) :
  i ∉ record <$> allocations → (update_records allocations store).1 !! i = store !! i.
Proof.
  intros Hi. destruct (store !! i) as [r|] eqn:Hr.
  - destruct (update_records_frame allocations store i r Hr) as (r' & Hr' & _ & Heq).
    rewrite Hr'. f_equal. by apply Heq.
  - apply lookup_ge_None. rewrite update_records_length. by apply lookup_ge_None.
Qed.

Lemma update_records_step (alloc : allocation) (rest : list allocation) (store : list row) :
  (update_records (alloc :: rest) store).2 = Ok tt →
  let store' := alter (write_tokens (token_price_int alloc)) (record alloc) store in
  update_records (alloc :: rest) store = update_records rest store'
  ∧ is_Some (deref store' (record alloc) !! "_id").
Proof.
  simpl. intros H.
  destruct (if Py.nonempty _ then _ else _) as [pvp|e]; [|done].
  destruct (deref _ _ !! "_id") as [id|] eqn:Hid; [|done].
  destruct (_ ≫= _) as [?|e]; [|done]. by split.
Qed.

Lemma update_records_exact (allocations : list allocation) (store : list row)
    (a : allocation) (r : row) :
  NoDup (record <$> allocations) →
  (update_records allocations store).2 = Ok tt →
  a ∈ allocations → store !! record a = Some r →
  (update_records allocations store).1 !! record a
  = Some (write_tokens (token_price_int a) r).
Proof.
  revert store r. induction allocations as [|a0 rest IH]; intros store r Hnd Hok Ha Hr.
  - by apply elem_of_nil in Ha.
  - csimpl in Hnd. apply NoDup_cons in Hnd as [Hfresh Hnd].
    destruct (update_records_step a0 rest store Hok) as [Heq _].
    rewrite Heq in Hok |- *.
    apply elem_of_cons in Ha as [->|Ha].
    + rewrite update_records_untouched by done.
      rewrite list_lookup_alter_eq. by rewrite Hr.
    + assert (record a ≠ record a0) as Hne.
      { intros Heq'. apply Hfresh. rewrite <- Heq'. by apply list_elem_of_fmap_2. }
      apply IH; [done..|]. by rewrite list_lookup_alter_ne.
Qed.

Lemma update_records_ids (allocations : list allocation) (store : list row)
    (a : allocation) (r : row) :
  (update_records allocations store).2 = Ok tt →
  a ∈ allocations → store !! record a = Some r → is_Some (r !! "_id").
Proof.
  revert store r. induction allocations as [|a0 rest IH]; intros store r Hok Ha Hr.
  - by apply elem_of_nil in Ha.
  - destruct (update_records_step a0 rest store Hok) as [Heq Hid].
    rewrite Heq in Hok.
    destruct (alter_write_lookup (token_price_int a0) (record a0) (record a) store r Hr)
      as (r1 & Hr1 & [Hframe _] & _ & Hsame).
    apply elem_of_cons in Ha as [->|Ha].
    + unfold deref in Hid. rewrite Hr1 in Hid. simpl in Hid.
      rewrite Hframe in Hid; done.
    + specialize (IH _ r1 Hok Ha Hr1). rewrite Hframe in IH; done.
Qed.

Lemma valid_record_row (product_challenges : list row) (valid : list valid_record)
    (v : valid_record) :
  valid_records product_challenges = Ok valid → v ∈ valid →
  is_Some (product_challenges !! vr_record v).
Proof.
  intros H Hv. apply valid_records_from_origin in H.
  rewrite Forall_forall in H. destruct (H v Hv) as (j & pc & n & k & -> & Hj & _).
  by exists pc.
Qed.

Lemma final_allocation_row T (product_challenges : list row) valid final a :
  valid_records product_challenges = Ok valid →
  token_allocations T product_challenges valid = Ok final →
  a ∈ final →
  ∃ v, v ∈ valid ∧ vr_record v = record a.
Proof.
  intros Hv H Ha. apply token_allocations_records in H.
  assert (record a ∈ vr_record <$> valid) as Hin.
  { rewrite <- H. by apply list_elem_of_fmap_2. }
  apply list_elem_of_fmap in Hin as (v & ? & ?). by exists v.
Qed.

(** X3. When the function returns [True] the final allocations refer to distinct
    rows, each of these rows has the column [_id], and each is left as the
    original row with exactly two columns written: the decimal text of the
    price of its own allocation and the currency [token]. *)
Theorem rows_hold_their_price (T : Z) (product_challenges : list row) :
  out_return (calculate_token_prices T product_challenges) = Ok true →
  ∃ final,
    final_allocations T product_challenges = Ok final
    ∧ NoDup (record <$> final)
    ∧ ∀ a, a ∈ final →
        ∃ r, product_challenges !! record a = Some r
             ∧ is_Some (r !! "_id")
             ∧ out_records (calculate_token_prices T product_challenges) !! record a
               = Some (write_tokens (token_price_int a) r).
Proof.
  intros Hret.
  destruct (calculate_token_prices_records T product_challenges)
    as [[_ Hno]|(valid & final & Hv & Hf & Hrec & Hr)]; [done|].
  rewrite Hr in Hret. rewrite Hrec.
  destruct (update_records final product_challenges).2 as [[]|e] eqn:Hok; [|done].
  exists final. split; [|split].
  - unfold final_allocations. by rewrite Hv.
  - by eapply token_allocations_NoDup.
  - intros a Ha.
    destruct (final_allocation_row _ _ _ _ _ Hv Hf Ha) as (v & Hin & Hrv).
    destruct (valid_record_row _ _ _ Hv Hin) as [r Hrow]. rewrite Hrv in Hrow.
    exists r. split; [done|]. split.
    + by eapply update_records_ids.
    + apply update_records_exact; [|done..]. by eapply token_allocations_NoDup.
Qed.

Lemma rows_hold_their_price_witness :
  ∃ final,
    final_allocations TARGET_SUM stocks_4_3 = Ok final
    ∧ NoDup (record <$> final)
    ∧ ∀ a, a ∈ final →
        ∃ r, stocks_4_3 !! record a = Some r
             ∧ is_Some (r !! "_id")
             ∧ out_records (calculate_token_prices TARGET_SUM stocks_4_3) !! record a
               = Some (write_tokens (token_price_int a) r).
Proof. apply (rows_hold_their_price TARGET_SUM stocks_4_3). vm_compute. reflexivity. Defined.


(** *** The prices before redistribution *)

Lemma initial_allocation_of_steps (T : Z) (product_challenges : list row)
    (valid : list valid_record) (target : float) (v : valid_record)
    (a1 a2 a3 : allocation) :
  valid_records product_challenges = Ok valid → v ∈ valid →
  Py.float_of_int T = Ok target →
  (total_pvp_stock valid =? 0)%float = false →
  first_allocation (target / total_pvp_stock valid) v = Ok a1 →
  set_target T product_challenges (total_pvp_stock valid) a1 = Ok a2 →
  round_target a2 = Ok a3 →
  initial_allocation_of target (total_pvp_stock valid) v a3.
Proof.
  intros Hv Hv0 Ht Hz Hva Ha12 Ha23.
  destruct (price_read_again _ _ _ Hv Hv0) as [_ Hread]. simpl in Hread.
  assert (usable v) as [_ Hstock].
  { apply valid_records_from_usable in Hv. rewrite Forall_forall in Hv. auto. }
  apply at_least_one_positive in Hstock as [Hpos Hnz].
  unfold first_allocation in Hva. exc_inv Hva. injection Hva as <-.
  unfold set_target in Ha12. simpl in Ha12. rewrite Hread in Ha12. simpl in Ha12.
  rewrite Hpos in Ha12. unfold Py.truediv in Ha12. rewrite Hz, Hnz in Ha12.
  simpl in Ha12. rewrite Ht in Ha12. simpl in Ha12. injection Ha12 as <-.
  unfold round_target in Ha23. simpl in Ha23. exc_inv Ha23.
  unfold set_token_price in Ha23. exc_inv Ha23. injection Ha23 as <-.
  unfold initial_allocation_of. simpl. repeat split; try done; by eexists.
Qed.

Lemma initial_allocations_of (T : Z) (product_challenges : list row)
    (valid : list valid_record) (initial : list allocation) :
  valid_records product_challenges = Ok valid →
  initial_allocations T product_challenges valid = Ok initial →
  ∃ target, Py.float_of_int T = Ok target
    ∧ (total_pvp_stock valid =? 0)%float = false
    ∧ Forall2 (initial_allocation_of target (total_pvp_stock valid)) valid initial.
Proof.
  intros Hv H. unfold initial_allocations in H. exc_inv H.
  rename a into k, a0 into l1, a1 into l2.
  unfold scaling_factor in Ha. exc_inv Ha. rename a into target.
  unfold Py.truediv in Ha. destruct (_ =? 0)%float eqn:Hz; [done|]. injection Ha as <-.
  exists target. split; [done|]. split; [done|].
  apply mapM_Ok in Ha0, Ha1, H.
  apply Forall2_same_length_lookup. split.
  - apply Forall2_length in Ha0, Ha1, H. congruence.
  - intros i v a3 Hi Hi3.
    destruct (Forall2_lookup_l _ _ _ _ _ Ha0 Hi) as (a1 & Hi1 & H1).
    destruct (Forall2_lookup_l _ _ _ _ _ Ha1 Hi1) as (a2 & Hi2 & H2).
    pose proof (Forall2_lookup_lr _ _ _ _ _ _ H Hi2 Hi3) as H3.
    eapply initial_allocation_of_steps; try done. by eapply list_elem_of_lookup_2.
Qed.

(** X4. The prices before redistribution, for the records the filter keeps: the
    allocation of a record has its row and its stock, the target price
    [((pvp * stock / total) * TARGET_SUM) / stock] computed from the price the
    filter read (reading it again at line 112 gives the same float, and the
    [else 0] branches of lines 113 and 117 are never taken), and the price
    [max(1, round(target price))]; the rounding of [pvp * k] at line 88 only
    has to succeed, its value is overwritten. The total is not zero. *)
Theorem initial_prices (T : Z) (product_challenges : list row)
    (valid : list valid_record) (initial : list allocation) :
  valid_records product_challenges = Ok valid →
  initial_allocations T product_challenges valid = Ok initial →
  ∃ target, Py.float_of_int T = Ok target
    ∧ (total_pvp_stock valid =? 0)%float = false
    ∧ Forall2 (initial_allocation_of target (total_pvp_stock valid)) valid initial.
Proof. apply initial_allocations_of. Qed.

Lemma initial_prices_witness :
  ∃ initial target,
    initial_allocations TARGET_SUM stocks_4_3 valid_4_3 = Ok initial
    ∧ Py.float_of_int TARGET_SUM = Ok target
    ∧ Forall2 (initial_allocation_of target (total_pvp_stock valid_4_3)) valid_4_3 initial.
Proof.
  destruct (initial_allocations TARGET_SUM stocks_4_3 valid_4_3) as [initial|e] eqn:Hi;
    [|vm_compute in Hi; discriminate].
  assert (valid_records stocks_4_3 = Ok valid_4_3) as Hv by (vm_compute; reflexivity).
  destruct (initial_prices TARGET_SUM stocks_4_3 valid_4_3 initial Hv Hi)
    as (target & Ht & _ & Hall).
  exists initial, target. split; [reflexivity|]. split; [exact Ht|exact Hall].
Defined.

(** *** Finite values *)

Lemma at_least_one_cases (x : float) :
  is_at_least_one x →
  Prim2SF x = S754_infinity false ∨ ∃ m e, Prim2SF x = S754_finite false m e.
Proof. intros [H|(m & e & H & _)]; [by left|right; by exists m, e]. Qed.

Lemma add_infinity_r (x y : float) :
  x = 0%float ∨ is_at_least_one x →
  Prim2SF y = S754_infinity false → Prim2SF (x + y) = S754_infinity false.
Proof.
  intros Hx Hy. rewrite add_spec, Hy. destruct Hx as [->|Hx]; [done|].
  by destruct (at_least_one_cases x Hx) as [->|(m & e & ->)].
Qed.

Lemma add_infinity_l (x y : float) :
  Prim2SF x = S754_infinity false → is_at_least_one y →
  Prim2SF (x + y) = S754_infinity false.
Proof.
  intros Hx Hy. rewrite add_spec, Hx.
  by destruct (at_least_one_cases y Hy) as [->|(m & e & ->)].
Qed.

Lemma foldl_add_infinity (acc : float) (xs : list float) :
  Prim2SF acc = S754_infinity false → Forall is_at_least_one xs →
  Prim2SF (foldl PrimFloat.add acc xs) = S754_infinity false.
Proof.
  intros Hacc Hxs. revert acc Hacc.
  induction Hxs as [|x xs Hx _ IH]; intros acc Hacc; simpl; [done|].
  apply IH. by apply add_infinity_l.
Qed.

Lemma foldl_add_reaches_infinity (acc x : float) (xs : list float) :
  acc = 0%float ∨ is_at_least_one acc → Forall is_at_least_one xs →
  x ∈ xs → Prim2SF x = S754_infinity false →
  Prim2SF (foldl PrimFloat.add acc xs) = S754_infinity false.
Proof.
  intros Hacc Hxs Hin Hx. revert acc Hacc.
  induction Hxs as [|y xs Hy Hxs IH]; intros acc Hacc; simpl.
  - by apply elem_of_nil in Hin.
  - apply elem_of_cons in Hin as [<-|Hin].
    + apply foldl_add_infinity; [|done]. by apply add_infinity_r.
    + apply IH; [done|]. right.
      destruct Hacc as [->|Hacc]; [by apply zero_add_at_least_one|by apply add_at_least_one].
Qed.

Lemma total_pvp_stock_infinite (valid : list valid_record) (v : valid_record) :
  Forall usable valid → v ∈ valid →
  Prim2SF (vr_pvp v * vr_stock_initial v) = S754_infinity false →
  Prim2SF (total_pvp_stock valid) = S754_infinity false.
Proof.
  intros Hu Hv Hinf. unfold total_pvp_stock, Py.sum.
  eapply foldl_add_reaches_infinity; [by left| | |done].
  - apply Forall_fmap. eapply Forall_impl; [done|].
    intros r [? ?]. by apply mul_at_least_one.
  - by apply (list_elem_of_fmap_2 (λ r, vr_pvp r * vr_stock_initial r)%float).
Qed.

Lemma round_nan (x : float) (n : Z) : Prim2SF x = S754_nan → Py.round x = Ok n → False.
Proof. unfold Py.round. by intros ->. Qed.

Lemma valid_records_finite (T : Z) (product_challenges : list row)
    (valid : list valid_record) (initial : list allocation) :
  valid_records product_challenges = Ok valid →
  initial_allocations T product_challenges valid = Ok initial →
  Forall (λ v, finite_float (vr_pvp v) ∧ finite_float (vr_stock_initial v)) valid.
Proof.
  intros Hv H.
  destruct (initial_allocations_of _ _ _ _ Hv H) as (target & _ & _ & Hall).
  pose proof Hv as Hu. apply valid_records_from_usable in Hu.
  apply Forall_forall. intros v Hin.
  apply list_elem_of_lookup_1 in Hin as Hi. destruct Hi as [i Hi].
  destruct (Forall2_lookup_l _ _ _ _ _ Hall Hi) as (a & _ & Ha).
  destruct Ha as (_ & _ & Hf & _ & Ht & [first Hfirst] & (rounded & Hround & _)).
  rewrite Hf in Hfirst. rewrite Ht in Hround.
  assert (usable v) as [Hp Hs] by (rewrite Forall_forall in Hu; auto).
  destruct (at_least_one_cases _ Hp) as [Hpi|(mp & ep & Hpf)].
  - exfalso. eapply round_nan; [|exact Hfirst].
    assert (Prim2SF (total_pvp_stock valid) = S754_infinity false) as Htot.
    { eapply total_pvp_stock_infinite; [done..|].
      rewrite mul_spec, Hpi. by destruct (at_least_one_cases _ Hs) as [->|(m & e & ->)]. }
    rewrite mul_spec, div_spec, Hpi, Htot.
    by destruct (Prim2SF target) as [[]|[]| |[] ? ?].
  - destruct (at_least_one_cases _ Hs) as [Hsi|(ms & es & Hsf)].
    + exfalso. eapply round_nan; [|exact Hround].
      assert (Prim2SF (vr_pvp v * vr_stock_initial v) = S754_infinity false) as Hprod.
      { by rewrite mul_spec, Hpf, Hsi. }
      assert (Prim2SF (total_pvp_stock valid) = S754_infinity false) as Htot.
      { by eapply total_pvp_stock_infinite. }
      by rewrite div_spec, mul_spec, div_spec, Hprod, Htot.
    + split; [by exists false, mp, ep|by exists false, ms, es].
Qed.

(** X5. If the three first loops end without an exception, the price and the
    stock of every kept record are finite floats: a digit string too long for
    a float is read as infinity, and then [round] raises on a NaN. *)
Theorem kept_values_are_finite (T : Z) (product_challenges : list row)
    (valid : list valid_record) (initial : list allocation) :
  valid_records product_challenges = Ok valid →
  initial_allocations T product_challenges valid = Ok initial →
  Forall (λ v, finite_float (vr_pvp v) ∧ finite_float (vr_stock_initial v)) valid.
Proof. apply valid_records_finite. Qed.

Lemma kept_values_are_finite_witness :
  Forall (λ v, finite_float (vr_pvp v) ∧ finite_float (vr_stock_initial v)) valid_4_3.
Proof.
  destruct (initial_allocations TARGET_SUM stocks_4_3 valid_4_3) as [initial|e] eqn:Hi;
    [|vm_compute in Hi; discriminate].
  assert (valid_records stocks_4_3 = Ok valid_4_3) as Hv by (vm_compute; reflexivity).
  exact (kept_values_are_finite TARGET_SUM stocks_4_3 valid_4_3 initial Hv Hi).
Defined.

(** ** The exceptions of a call *)

Lemma float_of_int_arith n : raises_only not_key_error (Py.float_of_int n).
Proof. unfold Py.float_of_int. intros e. by case_match; intros [= <-]. Qed.

Lemma round_arith x : raises_only not_key_error (Py.round x).
Proof. unfold Py.round. intros e. by case_match; intros [= <-]. Qed.

Lemma int_of_float_arith x : raises_only not_key_error (Py.int_of_float x).
Proof. unfold Py.int_of_float. intros e. by case_match; intros [= <-]. Qed.

Lemma float_of_str_arith s : raises_only not_key_error (Py.float_of_str s).
Proof. unfold Py.float_of_str. intros e. by repeat case_match; intros [= <-]. Qed.

Lemma truediv_arith x y : raises_only not_key_error (Py.truediv x y).
Proof. unfold Py.truediv. intros e. by case_match; intros [= <-]. Qed.

Create HintDb arith.
#[local] Hint Resolve raises_only_Ok float_of_int_arith round_arith int_of_float_arith
  float_of_str_arith truediv_arith : arith.

Ltac arith_steps :=
  repeat first
    [ apply raises_only_bind; [|intros ? ?]
    | apply raises_only_fmap
    | apply raises_only_mapM; intros ?
    | progress eauto with arith
    | match goal with |- raises_only _ (if ?b then _ else _) => destruct b eqn:? end
    | match goal with |- raises_only _ (let '(_, _) := ?p in _) => destruct p end ].

Lemma set_token_price_arith v a : raises_only not_key_error (set_token_price v a).
Proof. unfold set_token_price. arith_steps. Qed.

#[local] Hint Resolve set_token_price_arith : arith.

Lemma valid_records_from_arith i product_challenges :
  raises_only not_key_error (valid_records_from i product_challenges).
Proof.
  revert i. induction product_challenges as [|pc rest IH]; intros i; simpl; arith_steps.
Qed.

Lemma increase_arith d l : raises_only not_key_error (increase d l).
Proof. revert d. induction l as [|a l IH]; intros d; simpl; arith_steps. Qed.

Lemma decrease_arith d l : raises_only not_key_error (decrease d l).
Proof. revert d. induction l as [|a l IH]; intros d; simpl; arith_steps. Qed.

Lemma fine_loop_arith d l : raises_only not_key_error (fine_loop d l).
Proof. revert d. induction l as [|a l IH]; intros d; simpl; arith_steps. Qed.

#[local] Hint Resolve valid_records_from_arith increase_arith decrease_arith
  fine_loop_arith : arith.

Lemma token_allocations_arith T store valid :
  raises_only not_key_error (token_allocations T store valid).
Proof.
  unfold token_allocations, initial_allocations, redistribute, scaling_factor,
    first_allocation, set_target, round_target, residual, coarse_pass, fine_pass,
    sort_by_rounding_error, rounding_error, residual.
  arith_steps.
Qed.

Lemma verify_sum_arith T s : raises_only not_key_error (verify_sum T s).
Proof. unfold verify_sum. arith_steps. Qed.

Lemma value_or_overflow (e : pyexn) :
  not_key_error e → not_zero_division e → e = ValueError ∨ e = OverflowError.
Proof. unfold not_key_error, not_zero_division. destruct e; auto; done. Qed.

Lemma deref_alter_write (n : Z) (ref i : nat) (store : list row) (k : string) :
  k ≠ "token_price_number" → k ≠ "price_currency_option_currency_type" →
  deref (alter (write_tokens n) ref store) i !! k = deref store i !! k.
Proof.
  intros Hk1 Hk2. unfold deref.
  destruct (store !! i) as [r|] eqn:Hr.
  - destruct (alter_write_lookup n ref i store r Hr) as (r1 & -> & [Hframe _] & _).
    simpl. by apply Hframe.
  - assert (alter (write_tokens n) ref store !! i = None) as ->; [|done].
    apply lookup_ge_None. rewrite length_alter. by apply lookup_ge_None.
Qed.

Lemma price_read_alter (n : Z) (ref : nat) (store : list row) (a : allocation) :
  price_read (alter (write_tokens n) ref store) a = price_read store a.
Proof. unfold price_read, get. by rewrite deref_alter_write. Qed.

Lemma int_of_float_finite (x : float) : finite_float x → ∃ n, Py.int_of_float x = Ok n.
Proof. intros (s & m & e & H). unfold Py.int_of_float. rewrite H. by eexists. Qed.

(** The update loop raises nothing but [KeyError], at an allocation whose
    row has no [_id] and has just been written. *)
Lemma update_records_raises (allocations : list allocation) (store : list row)
    (e : pyexn) :
  NoDup (record <$> allocations) →
  Forall (λ a, ∃ pvp, price_read store a = Ok pvp
                      ∧ finite_float pvp ∧ finite_float (stock_initial a)) allocations →
  (update_records allocations store).2 = Raise e →
  e = KeyError
  ∧ ∃ a, a ∈ allocations
         ∧ deref store (record a) !! "_id" = None
         ∧ (update_records allocations store).1 !! record a
           = write_tokens (token_price_int a) <$> store !! record a.
Proof.
  revert store. induction allocations as [|a0 rest IH]; intros store Hnd Hall H; [done|].
  csimpl in Hnd. apply NoDup_cons in Hnd as [Hfresh Hnd].
  apply Forall_cons in Hall as [(pvp & Hread & Hpvp & Hstock) Hall].
  simpl in H |- *. unfold price_read in Hread. simpl in Hread. rewrite Hread in H |- *.
  destruct (deref _ _ !! "_id") as [id|] eqn:Hid.
  - destruct (int_of_float_finite _ Hpvp) as [n1 Hn1].
    destruct (int_of_float_finite _ Hstock) as [n2 Hn2].
    rewrite Hn1 in H |- *. simpl in H |- *. rewrite Hn2 in H |- *.
    set (store' := alter (write_tokens (token_price_int a0)) (record a0) store) in *.
    destruct (IH store' Hnd) as (-> & a & Ha & Hnone & Hrow); [|done|].
    { eapply Forall_impl; [done|]. intros a (p & ? & ? & ?). exists p.
      unfold store'. by rewrite price_read_alter. }
    unfold store' in Hnone, Hrow.
    split; [done|]. exists a. split; [by right|].
    assert (record a ≠ record a0) as Hne.
    { intros Heq'. apply Hfresh. rewrite <- Heq'. by apply list_elem_of_fmap_2. }
    rewrite deref_alter_write in Hnone by done.
    rewrite list_lookup_alter_ne in Hrow by done. done.
  - simpl in H |- *. injection H as <-. split; [done|]. exists a0.
    split; [by left|]. rewrite deref_alter_write in Hid by done.
    split; [done|]. by rewrite list_lookup_alter_eq.
Qed.

Lemma final_allocation_origin (T : Z) (product_challenges : list row)
    (valid : list valid_record) (final : list allocation) (a : allocation) :
  valid_records product_challenges = Ok valid →
  token_allocations T product_challenges valid = Ok final →
  a ∈ final →
  ∃ v, v ∈ valid ∧ record a = vr_record v ∧ stock_initial a = vr_stock_initial v
       ∧ finite_float (vr_pvp v) ∧ finite_float (vr_stock_initial v).
Proof.
  intros Hv H Ha. pose proof H as Hfinal.
  unfold token_allocations in H. exc_inv H. rename a0 into initial.
  destruct (redistribute_within_two T initial final) as (matched & Hperm & Hm); [|done|].
  { by eapply initial_allocations_floor. }
  apply list_elem_of_lookup_1 in Ha as [i Hi].
  destruct (Forall2_lookup_r _ _ _ _ _ Hm Hi) as (b & Hb & Hr & Hs & _).
  apply list_elem_of_lookup_2 in Hb. rewrite Hperm in Hb.
  destruct (initial_allocations_of _ _ _ _ Hv Ha0) as (target & _ & _ & Hall).
  apply list_elem_of_lookup_1 in Hb as [j Hj].
  destruct (Forall2_lookup_r _ _ _ _ _ Hall Hj) as (v & Hvj & Hrv & Hsv & _).
  apply list_elem_of_lookup_2 in Hvj as Hin.
  pose proof (valid_records_finite _ _ _ _ Hv Ha0) as Hfin.
  rewrite Forall_forall in Hfin. destruct (Hfin v Hin).
  exists v. repeat split; try done; congruence.
Qed.

(** The closing report raises nothing but the [OverflowError] of
    [int(total_stock)], when the stocks add up to infinity. *)
Lemma closing_report_raises (final_sum : float) (allocations : list allocation)
    (e : pyexn) :
  Forall (λ a, is_at_least_one (stock_initial a)) allocations →
  closing_report final_sum allocations = Raise e →
  e = OverflowError ∧ Prim2SF (total_stock allocations) = S754_infinity false.
Proof.
  intros Hall. unfold closing_report.
  destruct allocations as [|a0 rest]; [done|].
  assert (is_at_least_one (total_stock (a0 :: rest))) as Hsum.
  { unfold total_stock. apply sum_at_least_one; [done|]. by apply Forall_fmap. }
  destruct (at_least_one_positive _ Hsum) as [Hpos Hnz].
  rewrite Hpos. unfold Py.truediv. rewrite Hnz. simpl.
  unfold Py.int_of_float.
  destruct (at_least_one_cases _ Hsum) as [->|(m & ex & ->)]; simpl; [|done].
  by intros [= <-].
Qed.

Lemma final_allocation_stock (T : Z) (product_challenges : list row)
    (valid : list valid_record) (final : list allocation) :
  valid_records product_challenges = Ok valid →
  token_allocations T product_challenges valid = Ok final →
  Forall (λ a, is_at_least_one (stock_initial a)) final.
Proof.
  intros Hv Hf. apply Forall_forall. intros a Ha.
  destruct (final_allocation_origin _ _ _ _ _ Hv Hf Ha) as (v & Hin & _ & -> & _).
  apply valid_records_from_usable in Hv. rewrite Forall_forall in Hv.
  by destruct (Hv v Hin).
Qed.

(** X6. The exceptions of a call. A [KeyError] comes from the report of the
    last loop, at a kept row without the column [_id], after the two columns
    of that row have been written. An [OverflowError] may come from
    [int(total_stock)] at line 212, after the last loop has written the row
    of every allocation: then the stocks, each of them finite, add up to
    infinity. Any other exception is a [ValueError] or an [OverflowError]
    and is raised before the first write, the rows being left as they
    were. *)
Theorem exceptions_of_a_call (T : Z) (product_challenges : list row) (e : pyexn) :
  out_return (calculate_token_prices T product_challenges) = Raise e →
  (e = KeyError
   ∧ ∃ final a r,
       final_allocations T product_challenges = Ok final
       ∧ a ∈ final
       ∧ product_challenges !! record a = Some r
       ∧ r !! "_id" = None
       ∧ out_records (calculate_token_prices T product_challenges) !! record a
         = Some (write_tokens (token_price_int a) r))
  ∨ (e = OverflowError
     ∧ ∃ final,
         final_allocations T product_challenges = Ok final
         ∧ Prim2SF (total_stock final) = S754_infinity false
         ∧ Forall (λ a, finite_float (stock_initial a)) final
         ∧ ∀ a, a ∈ final →
             ∃ r, product_challenges !! record a = Some r
                  ∧ out_records (calculate_token_prices T product_challenges) !! record a
                    = Some (write_tokens (token_price_int a) r))
  ∨ ((e = ValueError ∨ e = OverflowError)
     ∧ out_records (calculate_token_prices T product_challenges) = product_challenges).
Proof.
  unfold calculate_token_prices.
  destruct (valid_records product_challenges) as [valid|e0] eqn:Hv; simpl.
  2:{ intros [= <-]. right; right. split; [|done].
      apply value_or_overflow; [by eapply valid_records_from_arith
                               |by eapply valid_records_from_safe]. }
  destruct valid as [|v0 valid0] eqn:Hvalid; [done|]. rewrite <- Hvalid in *.
  destruct (total_pvp_stock valid =? 0)%float eqn:Hz; [done|].
  destruct (token_allocations T product_challenges valid) as [final|e0] eqn:Hf; simpl.
  2:{ intros [= <-]. right; right. split; [|done].
      apply value_or_overflow; [by eapply token_allocations_arith
                               |by eapply token_allocations_safe]. }
  destruct (verify_sum T (weighted_sum final)) as [console|e0] eqn:Hc; simpl.
  2:{ intros [= <-]. right; right. split; [|done].
      apply value_or_overflow; [by eapply verify_sum_arith|by eapply verify_sum_safe]. }
  assert (Forall (λ a, ∃ pvp, price_read product_challenges a = Ok pvp
                     ∧ finite_float pvp ∧ finite_float (stock_initial a)) final) as Hfin.
  { apply Forall_forall. intros a Ha.
    destruct (final_allocation_origin _ _ _ _ _ Hv Hf Ha) as (v & Hin & Hr & Hs & Hp & Hst).
    destruct (price_read_again _ _ _ Hv Hin) as [_ Hread]. simpl in Hread.
    exists (vr_pvp v). unfold price_read. rewrite Hr, Hs. done. }
  destruct (update_records final product_challenges) as [store done] eqn:Hu. simpl.
  destruct done as [[]|e0] eqn:Hd; simpl.
  - destruct (closing_report _ _) as [[]|e0] eqn:Hreport; simpl; [done|].
    intros [= <-]. right; left.
    apply closing_report_raises in Hreport as [-> Hinf];
      [|by eapply final_allocation_stock].
    split; [done|]. exists final. split; [unfold final_allocations; by rewrite Hv|].
    split; [done|]. split.
    { eapply Forall_impl; [exact Hfin|]. by intros a (_ & _ & _ & ?). }
    intros a Ha.
    destruct (final_allocation_row _ _ _ _ _ Hv Hf Ha) as (v & Hin & Hrv).
    destruct (valid_record_row _ _ _ Hv Hin) as [r Hrow]. rewrite Hrv in Hrow.
    exists r. split; [done|].
    change store with (store, @Ok unit tt).1. rewrite <- Hu.
    apply update_records_exact; [|by rewrite Hu|done..].
    by eapply token_allocations_NoDup.
  - intros [= <-]. left.
    destruct (update_records_raises final product_challenges e0)
      as (-> & a & Ha & Hid & Hrow); [by eapply token_allocations_NoDup|done|by rewrite Hu|].
    split; [done|].
    destruct (final_allocation_origin _ _ _ _ _ Hv Hf Ha) as (v & Hin & Hr & _).
    destruct (valid_record_row _ _ _ Hv Hin) as [r Hr']. rewrite <- Hr in Hr'.
    exists final, a, r. rewrite Hu in Hrow. simpl in Hrow. rewrite Hr' in Hrow.
    unfold deref in Hid. rewrite Hr' in Hid. simpl in Hid.
    repeat split; try done. unfold final_allocations. by rewrite Hv.
Qed.

Lemma exceptions_of_a_call_witness :
  token_prices (out_records (calculate_token_prices TARGET_SUM huge_stocks))
    = [Some "1"; Some "1"]
  ∧ ((OverflowError = KeyError
      ∧ ∃ final a r,
          final_allocations TARGET_SUM huge_stocks = Ok final
          ∧ a ∈ final
          ∧ huge_stocks !! record a = Some r
          ∧ r !! "_id" = None
          ∧ out_records (calculate_token_prices TARGET_SUM huge_stocks) !! record a
            = Some (write_tokens (token_price_int a) r))
     ∨ (OverflowError = OverflowError
        ∧ ∃ final,
            final_allocations TARGET_SUM huge_stocks = Ok final
            ∧ Prim2SF (total_stock final) = S754_infinity false
            ∧ Forall (λ a, finite_float (stock_initial a)) final
            ∧ ∀ a, a ∈ final →
                ∃ r, huge_stocks !! record a = Some r
                     ∧ out_records (calculate_token_prices TARGET_SUM huge_stocks)
                         !! record a
                       = Some (write_tokens (token_price_int a) r))
     ∨ ((OverflowError = ValueError ∨ OverflowError = OverflowError)
        ∧ out_records (calculate_token_prices TARGET_SUM huge_stocks) = huge_stocks)).
Proof.
  split; [vm_compute; reflexivity|].
  apply (exceptions_of_a_call TARGET_SUM huge_stocks OverflowError).
  vm_compute. reflexivity.
Defined.

(** A product without the column [_id]: the [KeyError] of line 204 comes
    after the row has been written. *)
Lemma key_error_after_the_write :
  out_return (calculate_token_prices 3 no_id_batch) = Raise KeyError
  ∧ token_prices (out_records (calculate_token_prices 3 no_id_batch)) = [Some "3"].
Proof. split; vm_compute; reflexivity. Qed.

(** ** Running the function again *)

Lemma same_inputs_get (r r' : row) (k : string) :
  same_inputs r r' →
  k ≠ "token_price_number" → k ≠ "price_currency_option_currency_type" →
  get r' k = get r k.
Proof. intros H ? ?. unfold get. by rewrite H. Qed.

Lemma same_inputs_deref (store store' : list row) (i : nat) :
  Forall2 same_inputs store store' → same_inputs (deref store i) (deref store' i).
Proof.
  intros H. unfold deref. destruct (store !! i) as [r|] eqn:Hr.
  - destruct (Forall2_lookup_l _ _ _ _ _ H Hr) as (r' & -> & Hrr). done.
  - assert (store' !! i = None) as ->; [|done].
    apply lookup_ge_None. rewrite <- (Forall2_length _ _ _ H). by apply lookup_ge_None.
Qed.

Lemma valid_records_from_same_inputs (i : nat) (store store' : list row) :
  Forall2 same_inputs store store' →
  valid_records_from i store' = valid_records_from i store.
Proof.
  intros H. revert i. induction H as [|r r' store store' Hr _ IH]; intros i; [done|].
  simpl. rewrite !(same_inputs_get r r') by done. by rewrite !IH.
Qed.

Lemma set_target_same_inputs (T : Z) (store store' : list row) (total : float)
    (a : allocation) :
  Forall2 same_inputs store store' →
  set_target T store' total a = set_target T store total a.
Proof.
  intros H. unfold set_target.
  by rewrite (same_inputs_get (deref store (record a)) (deref store' (record a)))
    by (done || by apply same_inputs_deref).
Qed.

Lemma mapM_ext {A B} (f g : A → exc B) (l : list A) :
  (∀ x, f x = g x) → mapM f l = mapM g l.
Proof. intros H. induction l as [|x l IH]; simpl; [done|]. by rewrite H, IH. Qed.

Lemma token_allocations_same_inputs (T : Z) (store store' : list row)
    (valid : list valid_record) :
  Forall2 same_inputs store store' →
  token_allocations T store' valid = token_allocations T store valid.
Proof.
  intros H. unfold token_allocations, initial_allocations.
  destruct (scaling_factor T (total_pvp_stock valid)) as [k|]; simpl; [|done].
  destruct (mapM (first_allocation k) valid) as [l1|]; simpl; [|done].
  by rewrite (mapM_ext _ (set_target T store (total_pvp_stock valid)))
    by (intros; by apply set_target_same_inputs).
Qed.

Lemma update_records_same_inputs (allocations : list allocation) (store : list row) :
  Forall2 same_inputs store (update_records allocations store).1.
Proof.
  apply Forall2_same_length_lookup_2; [by rewrite update_records_length|].
  intros i r r' Hr Hr'.
  destruct (update_records_frame allocations store i r Hr) as (r1 & Hr1 & [Hframe _] & _).
  rewrite Hr1 in Hr'. by injection Hr' as <-.
Qed.

Lemma write_tokens_twice (n : Z) (r : row) :
  write_tokens n (write_tokens n r) = write_tokens n r.
Proof.
  unfold write_tokens. apply map_eq. intros k.
  destruct (decide (k = "price_currency_option_currency_type")) as [->|Hk2].
  { by rewrite !lookup_insert_eq. }
  rewrite !(lookup_insert_ne _ "price_currency_option_currency_type") by done.
  destruct (decide (k = "token_price_number")) as [->|Hk1].
  { by rewrite !lookup_insert_eq. }
  by rewrite !lookup_insert_ne by done.
Qed.

Lemma alter_fixed {A} (f : A → A) (i : nat) (l : list A) :
  (∀ x, l !! i = Some x → f x = x) → alter f i l = l.
Proof.
  intros H. apply list_eq. intros j. destruct (decide (j = i)) as [->|Hne].
  - rewrite list_lookup_alter_eq. destruct (l !! i) eqn:Hi; simpl; [|done].
    by rewrite H.
  - by rewrite list_lookup_alter_ne.
Qed.

Lemma alter_write_twice (n : Z) (ref : nat) (store : list row) :
  alter (write_tokens n) ref (alter (write_tokens n) ref store)
  = alter (write_tokens n) ref store.
Proof.
  apply alter_fixed. intros r. rewrite list_lookup_alter_eq.
  destruct (store !! ref); simpl; [|done]. intros [= <-]. apply write_tokens_twice.
Qed.

Lemma deref_untouched (allocations : list allocation) (store : list row) (i : nat) :
  i ∉ record <$> allocations → deref (update_records allocations store).1 i = deref store i.
Proof. intros Hi. unfold deref. by rewrite update_records_untouched. Qed.

(** The update loop, run on the rows it has left, leaves them as they are
    and ends in the same way. *)
Lemma update_records_again (allocations : list allocation) (store : list row) :
  NoDup (record <$> allocations) →
  update_records allocations (update_records allocations store).1
  = update_records allocations store.
Proof.
  revert store. induction allocations as [|a rest IH]; intros store Hnd; [done|].
  csimpl in Hnd. apply NoDup_cons in Hnd as [Hfresh Hnd].
  pose proof (price_read_alter (token_price_int a) (record a) store a) as Hread.
  unfold price_read in Hread. simpl in Hread.
  simpl.
  destruct (if Py.nonempty (Py.strip (get (deref store (record a)) "pvp_number"))
            then _ else _) as [pvp|e] eqn:Hp.
  2:{ simpl. by rewrite Hp. }
  set (store' := alter (write_tokens (token_price_int a)) (record a) store) in *.
  destruct (deref store' (record a) !! "_id") as [id|] eqn:Hid.
  2:{ simpl. rewrite Hread. unfold store'. rewrite alter_write_twice.
      fold store'. by rewrite Hid. }
  destruct (_ ≫= _) as [n|e] eqn:Hn.
  2:{ simpl. rewrite Hread. unfold store'. rewrite alter_write_twice.
      fold store'. by rewrite Hid, Hn. }
  assert (deref (update_records rest store').1 (record a) = deref store' (record a)) as Hd.
  { by apply deref_untouched. }
  rewrite Hd. rewrite Hread.
  assert (alter (write_tokens (token_price_int a)) (record a) (update_records rest store').1
          = (update_records rest store').1) as ->.
  { apply alter_fixed. intros r. rewrite update_records_untouched by done.
    unfold store'. rewrite list_lookup_alter_eq.
    destruct (store !! record a); simpl; [|done]. intros [= <-]. apply write_tokens_twice. }
  rewrite Hd, Hid, Hn. by apply IH.
Qed.

(** X7. Running the function on the rows it has left gives the same rows, the
    same [[!]] lines and the same result or exception. *)
Theorem second_run_changes_nothing (T : Z) (product_challenges : list row) :
  calculate_token_prices T (out_records (calculate_token_prices T product_challenges))
  = calculate_token_prices T product_challenges.
Proof.
  unfold calculate_token_prices at 2 3.
  destruct (valid_records product_challenges) as [valid|e0] eqn:Hv; simpl.
  2:{ unfold calculate_token_prices. by rewrite Hv. }
  destruct valid as [|v0 valid0] eqn:Hvalid.
  { simpl. unfold calculate_token_prices. by rewrite Hv. }
  rewrite <- Hvalid in *.
  destruct (total_pvp_stock valid =? 0)%float eqn:Hz.
  { simpl. unfold calculate_token_prices. by rewrite Hv, Hvalid, <- Hvalid, Hz. }
  destruct (token_allocations T product_challenges valid) as [final|e0] eqn:Hf; simpl.
  2:{ unfold calculate_token_prices. by rewrite Hv, Hvalid, <- Hvalid, Hz, Hf. }
  destruct (verify_sum T (weighted_sum final)) as [console|e0] eqn:Hc; simpl.
  2:{ unfold calculate_token_prices. by rewrite Hv, Hvalid, <- Hvalid, Hz, Hf, Hc. }
  destruct (update_records final product_challenges) as [store done] eqn:Hu. simpl.
  pose proof (update_records_same_inputs final product_challenges) as Hsame.
  rewrite Hu in Hsame. simpl in Hsame.
  unfold calculate_token_prices, valid_records.
  rewrite (valid_records_from_same_inputs 0 product_challenges store Hsame).
  fold (valid_records product_challenges). rewrite Hv, Hvalid, <- Hvalid, Hz.
  rewrite (token_allocations_same_inputs T product_challenges store valid Hsame), Hf, Hc.
  pose proof (update_records_again final product_challenges) as Hagain.
  rewrite Hu in Hagain. simpl in Hagain. rewrite Hagain; [done|].
  by eapply token_allocations_NoDup.
Qed.

Lemma same_inputs_write (n : Z) (r r' : row) :
  same_inputs r r' → same_inputs (write_tokens n r) (write_tokens n r').
Proof. intros H k Hk1 Hk2. unfold write_tokens. rewrite !lookup_insert_ne by done. auto. Qed.

Lemma update_records_on_same_inputs (allocations : list allocation)
    (store store' : list row) :
  Forall2 same_inputs store store' →
  (update_records allocations store').2 = (update_records allocations store).2
  ∧ Forall2 same_inputs (update_records allocations store).1
      (update_records allocations store').1.
Proof.
  revert store store'.
  induction allocations as [|a rest IH]; intros store store' H; [done|].
  simpl.
  pose proof (same_inputs_deref store store' (record a) H) as Hd.
  rewrite (same_inputs_get _ _ "pvp_number" Hd) by done.
  destruct (if Py.nonempty _ then _ else _) as [pvp|e]; [|done].
  assert (Forall2 same_inputs
            (alter (write_tokens (token_price_int a)) (record a) store)
            (alter (write_tokens (token_price_int a)) (record a) store')) as H'.
  { apply Forall2_alter; [done|]. intros. by apply same_inputs_write. }
  pose proof (same_inputs_deref _ _ (record a) H') as Hd'.
  rewrite (Hd' "_id") by done.
  destruct (deref _ _ !! "_id"); [|done].
  destruct (_ ≫= _); [|done]. by apply IH.
Qed.

(** X8. What the two output columns hold before the call does not matter: two
    batches that differ in these columns only give the same result, the same
    [[!]] lines and the same final allocations, and leave rows that again
    differ in these columns only. *)
Theorem old_prices_are_ignored (T : Z) (product_challenges others : list row) :
  Forall2 same_inputs product_challenges others →
  out_return (calculate_token_prices T others)
    = out_return (calculate_token_prices T product_challenges)
  ∧ out_console (calculate_token_prices T others)
    = out_console (calculate_token_prices T product_challenges)
  ∧ final_allocations T others = final_allocations T product_challenges
  ∧ Forall2 same_inputs (out_records (calculate_token_prices T product_challenges))
      (out_records (calculate_token_prices T others)).
Proof.
  intros H. unfold final_allocations, calculate_token_prices, valid_records.
  rewrite (valid_records_from_same_inputs 0 _ _ H).
  destruct (valid_records_from 0 product_challenges) as [valid|e0]; simpl; [|done].
  rewrite (token_allocations_same_inputs T _ _ valid H).
  destruct valid as [|v0 valid0] eqn:Hvalid; [done|]. rewrite <- Hvalid in *.
  destruct (total_pvp_stock valid =? 0)%float; [done|].
  destruct (token_allocations T product_challenges valid) as [final|e0]; simpl; [|done].
  destruct (verify_sum T (weighted_sum final)) as [console|e0]; simpl; [|done].
  destruct (update_records_on_same_inputs final _ _ H) as [H2 H1].
  destruct (update_records final product_challenges) as [store done].
  destruct (update_records final others) as [store' done']. simpl in *.
  by rewrite H2.
Qed.

Lemma old_prices_are_ignored_witness :
  out_return (calculate_token_prices TARGET_SUM priced_4_3)
    = out_return (calculate_token_prices TARGET_SUM stocks_4_3)
  ∧ out_console (calculate_token_prices TARGET_SUM priced_4_3)
    = out_console (calculate_token_prices TARGET_SUM stocks_4_3)
  ∧ final_allocations TARGET_SUM priced_4_3 = final_allocations TARGET_SUM stocks_4_3
  ∧ Forall2 same_inputs (out_records (calculate_token_prices TARGET_SUM stocks_4_3))
      (out_records (calculate_token_prices TARGET_SUM priced_4_3)).
Proof.
  apply (old_prices_are_ignored TARGET_SUM stocks_4_3 priced_4_3).
  repeat constructor; intros k H1 H2; unfold write_tokens;
    rewrite !lookup_insert_ne by done; reflexivity.
Defined.

(** ** The order of the fine pass *)

Lemma insert_asc_sorted {A} (x : float * A) (l : list (float * A)) :
  Sorted keys_ascend l → Sorted keys_ascend (insert_asc x l).
Proof.
  induction 1 as [|y l Hl IH Hy]; simpl.
  - repeat constructor.
  - destruct (y.1 <? x.1)%float eqn:Hxy.
    + constructor; [done|].
      destruct l as [|z l]; simpl in *.
      * constructor. by apply ltb_asym.
      * destruct (z.1 <? x.1)%float.
        -- constructor. by inversion Hy.
        -- constructor. by apply ltb_asym.
    + constructor; [by constructor|]. by constructor.
Qed.

Lemma foldr_insert_asc_sorted {A} (l : list (float * A)) :
  Sorted keys_ascend (foldr insert_asc [] l).
Proof. induction l; simpl; [constructor|by apply insert_asc_sorted]. Qed.

Lemma foldr_insert_asc_perm {A} (l : list (float * A)) :
  foldr insert_asc [] l ≡ₚ l.
Proof. induction l as [|x l IH]; simpl; [done|]. by rewrite insert_asc_perm, IH. Qed.

Lemma insert_asc_head {A} (x : float * A) (l : list (float * A)) :
  Forall (λ y, (y.1 <? x.1)%float = false) l → insert_asc x l = x :: l.
Proof. destruct l as [|y l]; simpl; [done|]. intros H. inversion H; subst. by rewrite H2. Qed.

Lemma sort_asc_ties {A} (e : float) (l : list (float * A)) :
  (e <? e)%float = false → Forall (λ y, y.1 = e) l → sort_asc l = l.*2.
Proof.
  intros He Hl. unfold sort_asc. f_equal.
  induction Hl as [|x l Hx Hl IH]; simpl; [done|].
  rewrite IH. apply insert_asc_head.
  eapply Forall_impl; [done|]. intros y Hy. simpl in Hy. by rewrite Hx, Hy.
Qed.

Lemma sort_by_stock_sorted (l : list allocation) :
  Sorted not_larger_stock (sort_by_stock l).
Proof.
  unfold sort_by_stock.
  assert (Forall (λ p, stock_initial p.2 = p.1)
            (foldr insert_asc [] (zip (stock_initial <$> l) l))) as Hkeys.
  { rewrite foldr_insert_asc_perm. induction l; csimpl; constructor; auto. }
  unfold sort_asc.
  pose proof (foldr_insert_asc_sorted (zip (stock_initial <$> l) l)) as Hsorted.
  induction Hsorted as [|p k Hk IH Hp]; csimpl; [constructor|].
  inversion Hkeys as [|? ? Hp1 Hk1]; subst.
  constructor; [by apply IH|].
  destruct Hp as [|q k Hpq]; csimpl; constructor.
  inversion Hk1 as [|? ? Hq1 _]; subst. unfold not_larger_stock. by rewrite Hp1, Hq1.
Qed.

Lemma nonzero_sign (d : float) :
  (0 <? abs d)%float = true → (0 <? d)%float = true ∨ (d <? 0)%float = true.
Proof.
  rewrite !ltb_spec, abs_spec, Prim2SF_zero.
  destruct (Prim2SF d) as [[]|[]| |[] m e]; simpl; auto.
Qed.

(** What the loop of the fine pass does to the allocation it visits first. *)
Lemma fine_loop_first (d d' : float) (a : allocation) (rest fine : list allocation) :
  fine_loop d (a :: rest) = Ok (fine, d') →
  ∃ a' rest', fine = a' :: rest' ∧ first_visit d a a' ∧ stops_when_met d a rest rest'.
Proof.
  intros H. simpl in H. apply bind_Ok in H as ([a' r] & Hstep & H).
  assert (first_visit d a a'
          ∧ ((0 <? d)%float = true → r = (d - stock_initial a)%float)
          ∧ ((d <? 0)%float = true → 1 < token_price_int a →
               r = (d + stock_initial a)%float)) as (Ha & Hup & Hdown).
  { unfold first_visit. destruct (0 <? d)%float eqn:Hpos.
    - exc_inv Hstep. injection Hstep as <- <-.
      apply set_token_price_Ok in Ha as (-> & _).
      split_and!; try done; intros Hneg; by rewrite (ltb_asym _ _ Hneg) in Hpos.
    - destruct (d <? 0)%float; simpl in Hstep.
      + destruct (1 <? token_price_int a) eqn:Hp.
        * exc_inv Hstep. injection Hstep as <- <-.
          apply set_token_price_Ok in Ha as (-> & _). apply Z.ltb_lt in Hp.
          split_and!; try done. intros _ ?. lia.
        * injection Hstep as <- <-. apply Z.ltb_ge in Hp.
          split_and!; try done; intros _ ?; lia.
      + injection Hstep as <- <-. done. }
  destruct (abs r =? 0)%float eqn:Hr.
  - injection H as <- <-. exists a', rest. split; [done|]. split; [done|]. by split.
  - exc_inv H. destruct a0 as [rest' r']. injection H as <- <-.
    exists a', rest'. split; [done|]. split; [done|]. split.
    + intros Hpos Hzero. rewrite (Hup Hpos) in Hr. congruence.
    + intros Hneg Hp Hzero. rewrite (Hdown Hneg Hp) in Hr. congruence.
Qed.

(** X9. The fine pass. The sort of line 159 keeps the allocations, puts them
    in non-decreasing order of stock and leaves them in their order when
    all stocks are equal. The pass returns its input untouched when the
    residual computed at line 155 is zero. Otherwise the residual is
    positive or negative, and the pass returns the sorted allocations, each
    adjusted by one token at most; the first of them, of the smallest
    stock, is raised by one when the residual is positive, lowered by one
    when the residual is negative and its price above 1, and kept when the
    residual is negative and its price is 1; and when that first
    adjustment brings the residual to zero the pass ends there, the other
    allocations being left as they are. *)
Theorem fine_pass_order (T : Z) (l : list allocation) :
  sort_by_stock l ≡ₚ l
  ∧ Sorted not_larger_stock (sort_by_stock l)
  ∧ (∀ s, (s <? s)%float = false → Forall (λ a, stock_initial a = s) l →
       sort_by_stock l = l)
  ∧ ∀ fine, fine_pass T l = Ok fine →
      ∃ remaining_diff,
        residual T l = Ok remaining_diff
        ∧ ((0 <? abs remaining_diff)%float = false → fine = l)
        ∧ ((0 <? abs remaining_diff)%float = true →
             ((0 <? remaining_diff)%float = true ∨ (remaining_diff <? 0)%float = true)
             ∧ Forall2 adjusted (sort_by_stock l) fine
             ∧ ∀ a rest, sort_by_stock l = a :: rest →
                 ∃ a' rest', fine = a' :: rest'
                             ∧ first_visit remaining_diff a a'
                             ∧ stops_when_met remaining_diff a rest rest').
Proof.
  split; [apply sort_by_stock_perm|]. split; [apply sort_by_stock_sorted|]. split.
  - intros s Hs Hl. unfold sort_by_stock.
    rewrite (sort_asc_ties s); [|done|].
    + apply snd_zip_same_length. by rewrite length_fmap.
    + clear Hs. induction Hl; csimpl; constructor; auto.
  - intros fine H. unfold fine_pass in H. exc_inv H. rename a into d.
    exists d. split; [done|].
    destruct (0 <? abs d)%float eqn:Hd.
    + split; [done|]. intros _.
      exc_inv H. destruct a as [fine' d']. simpl in H. subst.
      split; [by apply nonzero_sign|]. split; [by eapply fine_loop_adjusted|].
      intros a rest Hsort. rewrite Hsort in Ha0. by eapply fine_loop_first.
    + injection H as <-. split; done.
Qed.

(** Two allocations at 5 tokens, of stocks 3 and 2 and target price 5, and
    a target of 27: the residual is 2; the allocation of stock 2 comes
    first and is raised, which brings the residual to zero, and the other
    one is not visited. *)
Lemma fine_pass_order_witness :
  sort_by_stock [example_allocation 0 5 3 5; example_allocation 1 5 2 5]
    = [example_allocation 1 5 2 5; example_allocation 0 5 3 5]
  ∧ ∃ remaining_diff,
      residual 27 [example_allocation 0 5 3 5; example_allocation 1 5 2 5]
        = Ok remaining_diff
      ∧ ((0 <? abs remaining_diff)%float = false →
           [example_allocation 1 6 2 5; example_allocation 0 5 3 5]
           = [example_allocation 0 5 3 5; example_allocation 1 5 2 5])
      ∧ ((0 <? abs remaining_diff)%float = true →
           ((0 <? remaining_diff)%float = true ∨ (remaining_diff <? 0)%float = true)
           ∧ Forall2 adjusted
               (sort_by_stock [example_allocation 0 5 3 5; example_allocation 1 5 2 5])
               [example_allocation 1 6 2 5; example_allocation 0 5 3 5]
           ∧ ∀ a rest,
               sort_by_stock [example_allocation 0 5 3 5; example_allocation 1 5 2 5]
                 = a :: rest →
               ∃ a' rest',
                 [example_allocation 1 6 2 5; example_allocation 0 5 3 5] = a' :: rest'
                 ∧ first_visit remaining_diff a a'
                 ∧ stops_when_met remaining_diff a rest rest').
Proof.
  split; [vm_compute; reflexivity|].
  apply (proj2 (proj2 (proj2 (fine_pass_order 27
           [example_allocation 0 5 3 5; example_allocation 1 5 2 5])))).
  vm_compute. reflexivity.
Defined.

(** ** Digits that are not decimal *)

Lemma float_of_str_raises (s : string) (e : pyexn) :
  Py.isdigit s = true →
  (Py.float_of_str s = Raise e ↔ e = ValueError ∧ Py.decimal_of 0 s = None).
Proof.
  intros Hd. unfold Py.float_of_str. destruct s as [|c s]; [done|].
  destruct (Py.decimal_of 0 (String c s)); split; try done.
  - by intros [_ ?].
  - by intros [= <-].
  - by intros [-> _].
Qed.

Lemma valid_records_from_raises (i : nat) (product_challenges : list row) (e : pyexn) :
  valid_records_from i product_challenges = Raise e
  ↔ e = ValueError ∧ Exists unreadable product_challenges.
Proof.
  revert i. induction product_challenges as [|pc rest IH]; intros i.
  { split; [done|]. intros [_ H]. by apply Exists_nil in H. }
  rewrite Exists_cons. simpl. unfold unreadable.
  set (pvp := Py.strip (get pc "pvp_number")).
  set (stock := Py.strip (get pc "nr_provogrammers_number")).
  destruct (Py.isdigit pvp) eqn:Hp.
  2:{ rewrite andb_false_r. simpl. rewrite IH. split.
      - intros [? ?]. auto.
      - intros [? [(? & _)|?]]; [done|auto]. }
  destruct (Py.isdigit stock) eqn:Hs.
  2:{ rewrite andb_false_r. rewrite IH. split.
      - intros [? ?]. auto.
      - intros [? [(_ & ? & _)|?]]; [done|auto]. }
  rewrite !(isdigit_nonempty _ Hp), !(isdigit_nonempty _ Hs). simpl.
  destruct (Py.float_of_str pvp) as [x|e1] eqn:Hx; simpl.
  2:{ apply float_of_str_raises in Hx as [-> Hnone]; [|done]. split.
      - intros [= <-]. split; [done|]. left. auto.
      - by intros [-> _]. }
  destruct (Py.float_of_str stock) as [y|e2] eqn:Hy; simpl.
  2:{ apply float_of_str_raises in Hy as [-> Hnone]; [|done]. split.
      - intros [= <-]. split; [done|]. left. auto.
      - by intros [-> _]. }
  assert (¬ (true = true ∧ true = true
             ∧ (Py.decimal_of 0 pvp = None ∨ Py.decimal_of 0 stock = None))) as Hread.
  { intros (_ & _ & [Hn|Hn]).
    - assert (Py.float_of_str pvp = Raise ValueError) as Hr; [|congruence].
      by apply float_of_str_raises.
    - assert (Py.float_of_str stock = Raise ValueError) as Hr; [|congruence].
      by apply float_of_str_raises. }
  assert (valid_records_from (S i) rest = Raise e
          ↔ e = ValueError
            ∧ ((true = true ∧ true = true
                ∧ (Py.decimal_of 0 pvp = None ∨ Py.decimal_of 0 stock = None))
               ∨ Exists unreadable rest)) as Hrest.
  { rewrite IH. split; [intros [? ?]; auto|]. intros [? [?|?]]; [done|auto]. }
  destruct ((0 <? x)%float && (0 <? y)%float); [|done].
  destruct (valid_records_from (S i) rest) as [valid|e3]; simpl; [|done].
  split; [done|]. intros H. by apply Hrest in H.
Qed.

(** X10. The filter raises exactly when some row has two columns that pass
    [isdigit] once stripped, one of them holding a digit that is not decimal
    (a superscript two, say); the exception is a [ValueError], and the call
    then leaves the rows untouched and prints no [[!]] line. *)
Theorem digits_that_are_not_decimal (T : Z) (product_challenges : list row) :
  (∀ e, valid_records product_challenges = Raise e
        ↔ e = ValueError ∧ Exists unreadable product_challenges)
  ∧ (Exists unreadable product_challenges →
       calculate_token_prices T product_challenges
       = {| out_records := product_challenges; out_console := [];
            out_return := Raise ValueError |}).
Proof.
  split; [intros e; apply valid_records_from_raises|].
  intros H. unfold calculate_token_prices.
  assert (valid_records product_challenges = Raise ValueError) as ->; [|done].
  by apply valid_records_from_raises.
Qed.

Lemma digits_that_are_not_decimal_witness :
  calculate_token_prices TARGET_SUM superscript_batch
  = {| out_records := superscript_batch; out_console := [];
       out_return := Raise ValueError |}.
Proof.
  apply (digits_that_are_not_decimal TARGET_SUM superscript_batch).
  apply Exists_cons_tl, Exists_cons_hd. vm_compute. auto.
Defined.

(** ** The text of an integer *)

Lemma pretty_N_char_value (d : N) :
  (d < 10)%N → Py.decimal_value (pretty_N_char d) = Some (Z.of_N d)
               ∧ Py.isdigit_char (pretty_N_char d) = true.
Proof.
  intros H.
  assert (d = 0 ∨ d = 1 ∨ d = 2 ∨ d = 3 ∨ d = 4 ∨ d = 5 ∨ d = 6 ∨ d = 7 ∨ d = 8 ∨ d = 9)%N
    as Hd by lia.
  repeat (destruct Hd as [->|Hd]; [by vm_compute|]). subst. by vm_compute.
Qed.

Lemma pretty_N_go_decimal (x : N) :
  ∀ s, ∃ k, 0 ≤ k
    ∧ (∀ acc, Py.decimal_of acc (pretty_N_go x s)
              = Py.decimal_of (acc * 10 ^ k + Z.of_N x) s)
    ∧ Py.all_digits (pretty_N_go x s) = Py.all_digits s
    ∧ (s ≠ EmptyString → pretty_N_go x s ≠ EmptyString).
Proof.
  induction (N.lt_wf_0 x) as [x _ IH]. intros s.
  assert (x = 0 ∨ 0 < x)%N as [->|Hx] by lia.
  - rewrite pretty_N_go_0. exists 0. split; [done|]. split; [|done].
    intros acc. f_equal. simpl. lia.
  - rewrite pretty_N_go_step by done.
    destruct (pretty_N_char_value (x `mod` 10)) as [Hval Hdig].
    { by apply N.mod_lt. }
    destruct (IH (x `div` 10)%N) with (s := String (pretty_N_char (x `mod` 10)) s)
      as (k & Hk & Hdec & Hall & Hne).
    { by apply N.div_lt. }
    exists (k + 1). split; [lia|]. split; [|split].
    + intros acc. rewrite Hdec. simpl. rewrite Hval. f_equal.
      rewrite Z.pow_add_r by lia. rewrite N2Z.inj_div, N2Z.inj_mod.
      pose proof (Z.div_mod (Z.of_N x) 10). lia.
    + rewrite Hall. simpl. by rewrite Hdig.
    + intros _. by apply Hne.
Qed.

Lemma pretty_N_digits (x : N) :
  Py.decimal_of 0 (pretty x) = Some (Z.of_N x) ∧ Py.isdigit (pretty x) = true.
Proof.
  unfold pretty, pretty_N. destruct (decide (x = 0)%N) as [->|Hx]; [done|].
  assert (0 < x)%N as Hpos by lia.
  destruct (pretty_N_go_decimal x EmptyString) as (k & _ & Hdec & Hall & _). split.
  - rewrite Hdec. simpl. f_equal.
  - destruct (pretty_N_go_decimal (x `div` 10)
                (String (pretty_N_char (x `mod` 10)) EmptyString))
      as (_ & _ & _ & _ & Hne).
    rewrite <- pretty_N_go_step in Hne by done.
    unfold Py.isdigit. destruct (pretty_N_go x EmptyString); [by destruct Hne|done].
Qed.

Lemma str_of_int_digits (n : Z) :
  0 ≤ n →
  Py.decimal_of 0 (Py.str_of_int n) = Some n ∧ Py.isdigit (Py.str_of_int n) = true.
Proof.
  intros Hn. unfold Py.str_of_int, pretty, pretty_Z. destruct n as [|p|p]; [done| |lia].
  apply (pretty_N_digits (N.pos p)).
Qed.

Lemma digit_not_space (c : ascii) : Py.isdigit_char c = true → Py.isspace c = false.
Proof. unfold Py.isdigit_char, Py.isspace. lia. Qed.

Lemma lstrip_digits (s : string) : Py.all_digits s = true → Py.lstrip s = s.
Proof.
  destruct s as [|c s]; simpl; [done|]. intros H. apply andb_true_iff in H as [Hc _].
  by rewrite digit_not_space.
Qed.

Lemma rstrip_digits (s : string) : Py.all_digits s = true → Py.rstrip s = s.
Proof.
  induction s as [|c s IH]; simpl; [done|]. intros H. apply andb_true_iff in H as [Hc Hs].
  rewrite IH by done. rewrite digit_not_space by done. by destruct s.
Qed.

Lemma strip_digits (s : string) : Py.isdigit s = true → Py.strip s = s.
Proof.
  intros H. assert (Py.all_digits s = true) as Hall by by destruct s.
  unfold Py.strip. rewrite lstrip_digits by done. by apply rstrip_digits.
Qed.

(** X11. The text [str(n)] of an integer [n >= 1], as line 199 writes it and as
    the price scraper stores a price, has no surrounding white space, passes
    the test of line 43 and is read back by [float] as the float nearest to
    [n]. *)
Theorem written_price_reads_back (n : Z) :
  1 ≤ n →
  Py.strip (Py.str_of_int n) = Py.str_of_int n
  ∧ reads_positive (Py.str_of_int n) n
  ∧ Py.float_of_str (Py.strip (Py.str_of_int n)) = Ok (Py.nearest_float n).
Proof.
  intros Hn. destruct (str_of_int_digits n) as [Hdec Hdig]; [lia|].
  assert (reads_positive (Py.str_of_int n) n) as Hr.
  { unfold reads_positive. by rewrite strip_digits. }
  split; [by apply strip_digits|]. split; [done|]. by apply reads_positive_float.
Qed.

Lemma written_price_reads_back_witness :
  Py.strip (Py.str_of_int 1571) = Py.str_of_int 1571
  ∧ reads_positive (Py.str_of_int 1571) 1571
  ∧ Py.float_of_str (Py.strip (Py.str_of_int 1571)) = Ok (Py.nearest_float 1571).
Proof. apply (written_price_reads_back 1571). lia. Defined.

(** ** The script *)

Lemma dict_of_line_lookup (fieldnames line : list string) (j : nat) (name v : string) :
  NoDup fieldnames → length line = length fieldnames →
  fieldnames !! j = Some name → line !! j = Some v →
  dict_of_line fieldnames line !! name = Some v.
Proof.
  intros Hnd Hlen Hj Hv. unfold dict_of_line.
  apply elem_of_list_to_map_1.
  - rewrite fmap_reverse, fst_zip by lia. by rewrite reverse_Permutation.
  - apply elem_of_reverse. apply list_elem_of_lookup. exists j.
    apply lookup_zip_with_Some. by exists name, v.
Qed.

Lemma dict_of_line_dom (fieldnames line : list string) :
  length line = length fieldnames →
  dom (dict_of_line fieldnames line) = list_to_set (C := gset string) fieldnames.
Proof.
  intros Hlen. unfold dict_of_line. rewrite dom_list_to_map_L.
  rewrite fmap_reverse, fst_zip by lia.
  apply set_eq. intros k. rewrite !elem_of_list_to_set. apply elem_of_reverse.
Qed.

Lemma dict_of_line_fields (fieldnames line : list string) :
  NoDup fieldnames → length line = length fieldnames →
  get (dict_of_line fieldnames line) <$> fieldnames = line.
Proof.
  intros Hnd Hlen. apply list_eq_same_length with (length line).
  - done.
  - rewrite length_fmap. lia.
  - intros j x y _ Hx Hy. rewrite list_lookup_fmap in Hx.
    destruct (fieldnames !! j) as [name|] eqn:Hj; [|done]. simpl in Hx.
    injection Hx as <-. unfold get.
    by rewrite (dict_of_line_lookup _ _ j name y).
Qed.

Lemma dict_to_list_Ok (fieldnames : list string) (r : row) :
  dom r ⊆ list_to_set (C := gset string) fieldnames →
  dict_to_list fieldnames r = Ok (get r <$> fieldnames).
Proof.
  intros H. unfold dict_to_list. rewrite decide_True; [done|].
  apply set_eq. intros k. rewrite elem_of_difference. split.
  - intros [Hk Hno]. destruct Hno. by apply H.
  - intros Hk. by apply not_elem_of_empty in Hk.
Qed.

Lemma dict_to_list_wrong (fieldnames : list string) (r : row) (k : string) :
  is_Some (r !! k) → k ∉ fieldnames → dict_to_list fieldnames r = Raise ValueError.
Proof.
  intros Hk Hno. unfold dict_to_list. rewrite decide_False; [done|].
  intros Hempty. apply elem_of_dom in Hk.
  assert (k ∈ dom r ∖ list_to_set (C := gset string) fieldnames) as Hin.
  { apply elem_of_difference. split; [done|]. by rewrite elem_of_list_to_set. }
  rewrite Hempty in Hin. by apply not_elem_of_empty in Hin.
Qed.

Lemma writerows_Ok (fieldnames : list string) (rows : list row) (f : csv_file) :
  Forall (λ r, dom r ⊆ list_to_set (C := gset string) fieldnames) rows →
  writerows fieldnames rows f = (f ++ ((λ r, get r <$> fieldnames) <$> rows), Ok tt).
Proof.
  intros H. revert f. induction H as [|r rows Hr _ IH]; intros f; simpl.
  - by rewrite app_nil_r.
  - rewrite dict_to_list_Ok by done. rewrite IH. by rewrite <- app_assoc.
Qed.

Lemma writerows_stops (fieldnames : list string) (before after : list row) (r : row)
    (f : csv_file) :
  Forall (λ r, dom r ⊆ list_to_set (C := gset string) fieldnames) before →
  dict_to_list fieldnames r = Raise ValueError →
  writerows fieldnames (before ++ r :: after) f
  = (f ++ ((λ r, get r <$> fieldnames) <$> before), Raise ValueError).
Proof.
  intros H Hr. revert f. induction H as [|r0 rows Hr0 _ IH]; intros f; simpl.
  - by rewrite Hr, app_nil_r.
  - rewrite dict_to_list_Ok by done. rewrite IH. by rewrite <- app_assoc.
Qed.

Lemma DictReader_rows (fieldnames : list string) (lines : list (list string)) :
  fieldnames ≠ [] →
  Forall (λ line, length line = length fieldnames) lines →
  DictReader (fieldnames :: lines)
  = (fieldnames, dict_of_line fieldnames <$> lines).
Proof.
  intros Hne H. unfold DictReader. f_equal. f_equal.
  induction H as [|line lines Hline _ IH]; [done|].
  rewrite filter_cons_True; [by rewrite IH|].
  intros ->. by destruct fieldnames.
Qed.

Lemma DictReader_no_fields (lines : list (list string)) :
  Forall (λ line, length line = length ([] : list string)) lines →
  (DictReader ([] :: lines)).2 = [].
Proof.
  intros H. simpl. induction H as [|line lines Hline _ IH]; [done|].
  destruct line; [|done]. by rewrite filter_cons_False by auto.
Qed.

Lemma no_rows_no_update (T : Z) :
  out_return (calculate_token_prices T []) = Ok false.
Proof. done. Qed.

Lemma write_tokens_dom (n : Z) (r : row) :
  dom (write_tokens n r)
  = ({[ "price_currency_option_currency_type" ]}
     ∪ ({[ "token_price_number" ]} ∪ dom r) : gset string).
Proof. unfold write_tokens. by rewrite !dom_insert_L. Qed.

(** The rows a successful call leaves: a kept row with its two columns
    written, any other row as it was. *)
Lemma rows_after_success (T : Z) (product_challenges : list row) :
  out_return (calculate_token_prices T product_challenges) = Ok true →
  ∃ valid final,
    valid_records product_challenges = Ok valid
    ∧ valid ≠ []
    ∧ record <$> final ≡ₚ vr_record <$> valid
    ∧ length (out_records (calculate_token_prices T product_challenges))
      = length product_challenges
    ∧ (∀ i, i ∉ vr_record <$> valid →
         out_records (calculate_token_prices T product_challenges) !! i
         = product_challenges !! i)
    ∧ (∀ a, a ∈ final →
         out_records (calculate_token_prices T product_challenges) !! record a
         = write_tokens (token_price_int a) <$> product_challenges !! record a).
Proof.
  intros Hret.
  destruct (calculate_token_prices_records T product_challenges)
    as [[_ Hno]|(valid & final & Hv & Hf & Hrec & Hr)]; [done|].
  rewrite Hr in Hret. rewrite Hrec.
  destruct (update_records final product_challenges).2 as [[]|e] eqn:Hok; [|done].
  pose proof (token_allocations_records _ _ _ _ Hf) as Hperm.
  exists valid, final. split; [done|]. split.
  { intros ->. unfold token_allocations, initial_allocations, scaling_factor in Hf.
    destruct (Py.float_of_int T); [|done]. done. }
  split; [done|]. split; [apply update_records_length|]. split.
  - intros i Hi. apply update_records_untouched. by rewrite Hperm.
  - intros a Ha.
    destruct (final_allocation_row _ _ _ _ _ Hv Hf Ha) as (v & Hin & Hrv).
    destruct (valid_record_row _ _ _ Hv Hin) as [r Hrow]. rewrite Hrv in Hrow.
    rewrite Hrow. simpl. apply update_records_exact; [|done..].
    by eapply token_allocations_NoDup.
Qed.

Lemma valid_records_from_first (i : nat) (product_challenges : list row)
    (v : valid_record) (valid : list valid_record) :
  valid_records_from i product_challenges = Ok (v :: valid) →
  Forall (λ w, (vr_record v ≤ vr_record w)%nat) (v :: valid).
Proof.
  revert i. induction product_challenges as [|pc rest IH]; intros i H; [done|].
  apply valid_records_from_cons in H as [(n & k & valid' & _ & H & Heq)|[_ H]];
    [|by eapply IH].
  injection Heq as -> ->. constructor; [done|].
  apply valid_records_from_refs in H. eapply Forall_impl; [done|].
  simpl. intros w ?. lia.
Qed.

Lemma fmap_fixed {A} (f : A → A) (l : list A) :
  Forall (λ x, f x = x) l → f <$> l = l.
Proof. induction 1; csimpl; congruence. Qed.

Lemma lines_of_rows (fieldnames : list string) (lines : list (list string)) :
  NoDup fieldnames →
  Forall (λ line, length line = length fieldnames) lines →
  (λ r, get r <$> fieldnames) <$> (dict_of_line fieldnames <$> lines) = lines.
Proof.
  intros Hnd H. rewrite <- list_fmap_compose. apply fmap_fixed.
  eapply Forall_impl; [done|]. intros line Hlen. simpl.
  by apply dict_of_line_fields.
Qed.

(** X12. The file saved after a successful call, when the header has distinct
    names, among them the two output columns, and every line has as many
    fields as the header: the script ends normally, the file has the same
    header and as many lines, each line is the row the function left, every
    field of another column is the one read, and the line of a row the filter
    excludes is the line read. *)
Theorem saved_file (T : Z) (fieldnames : list string) (lines : list (list string)) :
  NoDup fieldnames →
  "token_price_number" ∈ fieldnames →
  "price_currency_option_currency_type" ∈ fieldnames →
  Forall (λ line, length line = length fieldnames) lines →
  out_return (calculate_token_prices T (DictReader (fieldnames :: lines)).2) = Ok true →
  ∃ saved,
    script T (fieldnames :: lines) = (fieldnames :: saved, Ok tt)
    ∧ length saved = length lines
    ∧ ∀ i line, lines !! i = Some line →
        ∃ line' r',
          saved !! i = Some line'
          ∧ out_records (calculate_token_prices T (DictReader (fieldnames :: lines)).2) !! i
            = Some r'
          ∧ line' = get r' <$> fieldnames
          ∧ (∀ j name, fieldnames !! j = Some name →
               name ≠ "token_price_number" →
               name ≠ "price_currency_option_currency_type" →
               line' !! j = line !! j)
          ∧ (∀ valid,
               valid_records (DictReader (fieldnames :: lines)).2 = Ok valid →
               i ∉ vr_record <$> valid → line' = line).
Proof.
  intros Hnd Hk1 Hk2 Hrect Hret.
  assert (fieldnames ≠ []) as Hne by (intros ->; by apply elem_of_nil in Hk1).
  unfold script. rewrite Hret.
  rewrite (DictReader_rows _ _ Hne Hrect) in *. simpl in *.
  set (rows := dict_of_line fieldnames <$> lines) in *.
  destruct (rows_after_success _ _ Hret)
    as (valid & final & Hv & _ & Hperm & Hlen & Hsame & Hwritten).
  set (out := out_records (calculate_token_prices T rows)) in *.
  assert (∀ i line, lines !! i = Some line →
            ∃ r', out !! i = Some r'
                  ∧ frame (dict_of_line fieldnames line) r'
                  ∧ (i ∉ vr_record <$> valid → r' = dict_of_line fieldnames line)
                  ∧ dom r' ⊆ list_to_set (C := gset string) fieldnames) as Hrows.
  { intros i line Hi.
    assert (rows !! i = Some (dict_of_line fieldnames line)) as Hri.
    { unfold rows. by rewrite list_lookup_fmap, Hi. }
    assert (length line = length fieldnames) as Hll.
    { rewrite Forall_forall in Hrect. apply Hrect. by eapply list_elem_of_lookup_2. }
    destruct (decide (i ∈ vr_record <$> valid)) as [Hin|Hout].
    - rewrite <- Hperm in Hin. apply list_elem_of_fmap in Hin as (a & -> & Ha).
      exists (write_tokens (token_price_int a) (dict_of_line fieldnames line)).
      split; [by rewrite Hwritten, Hri|]. split; [apply frame_write_tokens|].
      split.
      + intros Hno. destruct Hno. rewrite <- Hperm. by apply list_elem_of_fmap_2.
      + rewrite write_tokens_dom, dict_of_line_dom by done.
        intros k Hk. rewrite !elem_of_union, !elem_of_singleton in Hk.
        rewrite elem_of_list_to_set. destruct Hk as [->|[->|Hk]]; [done..|].
        by rewrite elem_of_list_to_set in Hk.
    - exists (dict_of_line fieldnames line).
      split; [by rewrite Hsame|]. split; [apply frame_refl|]. split; [done|].
      by rewrite dict_of_line_dom. }
  assert (length out = length lines) as Hlen'.
  { rewrite Hlen. unfold rows. by rewrite length_fmap. }
  rewrite writerows_Ok.
  2:{ apply Forall_lookup. intros i r' Hr'.
      destruct (lines !! i) as [line|] eqn:Hi.
      - destruct (Hrows i line Hi) as (r1 & Hr1 & _ & _ & Hdom).
        rewrite Hr' in Hr1. by injection Hr1 as <-.
      - apply lookup_ge_None in Hi. apply lookup_lt_Some in Hr'. lia. }
  exists ((λ r, get r <$> fieldnames) <$> out). split; [done|].
  split; [by rewrite length_fmap|].
  intros i line Hi. destruct (Hrows i line Hi) as (r' & Hr' & [Hframe _] & Hkeep & _).
  assert (length line = length fieldnames) as Hll.
  { rewrite Forall_forall in Hrect. apply Hrect. by eapply list_elem_of_lookup_2. }
  exists (get r' <$> fieldnames), r'. split; [by rewrite list_lookup_fmap, Hr'|].
  split; [done|]. split; [done|]. split.
  - intros j name Hj Hn1 Hn2. rewrite list_lookup_fmap, Hj. simpl.
    trans ((get (dict_of_line fieldnames line) <$> fieldnames) !! j);
      [|by rewrite dict_of_line_fields].
    rewrite list_lookup_fmap, Hj. simpl. unfold get. by rewrite Hframe.
  - intros valid' Hv' Hno. rewrite Hv in Hv'. injection Hv' as <-.
    rewrite Hkeep by done. by apply dict_of_line_fields.
Qed.

Lemma saved_file_witness :
  ∃ saved,
    script 3 (header_with_columns :: lines_with_columns)
    = (header_with_columns :: saved, Ok tt)
    ∧ length saved = 3%nat.
Proof.
  destruct (saved_file 3 header_with_columns lines_with_columns)
    as (saved & Hs & Hl & _).
  - apply (bool_decide_unpack _). vm_compute. reflexivity.
  - apply (bool_decide_unpack _). vm_compute. reflexivity.
  - apply (bool_decide_unpack _). vm_compute. reflexivity.
  - repeat constructor.
  - vm_compute. reflexivity.
  - exists saved. split; [exact Hs|exact Hl].
Defined.

(** X13. When the header lacks one of the two output columns and the function
    returns [True], saving raises [ValueError] at the first kept row: the
    file is left with its header and the lines before that row, the lines
    from that row on are lost. *)
Theorem header_without_the_columns (T : Z) (fieldnames : list string)
    (lines : list (list string)) :
  NoDup fieldnames →
  "token_price_number" ∉ fieldnames
    ∨ "price_currency_option_currency_type" ∉ fieldnames →
  Forall (λ line, length line = length fieldnames) lines →
  out_return (calculate_token_prices T (DictReader (fieldnames :: lines)).2) = Ok true →
  ∃ v valid,
    valid_records (DictReader (fieldnames :: lines)).2 = Ok (v :: valid)
    ∧ (vr_record v < length lines)%nat
    ∧ script T (fieldnames :: lines)
      = (fieldnames :: take (vr_record v) lines, Raise ValueError).
Proof.
  intros Hnd Hmiss Hrect Hret.
  destruct (decide (fieldnames = [])) as [->|Hne].
  { rewrite DictReader_no_fields in Hret by done. done. }
  unfold script. rewrite Hret.
  rewrite (DictReader_rows _ _ Hne Hrect) in *. simpl in *.
  set (rows := dict_of_line fieldnames <$> lines) in *.
  destruct (rows_after_success _ _ Hret)
    as (valid & final & Hv & Hsome & Hperm & Hlen & Hsame & Hwritten).
  set (out := out_records (calculate_token_prices T rows)) in *.
  destruct valid as [|v valid]; [done|]. exists v, valid. split; [done|].
  pose proof (valid_records_from_first _ _ _ _ Hv) as Hmin.
  assert (vr_record v ∈ record <$> final) as Hin by (rewrite Hperm; by left).
  apply list_elem_of_fmap in Hin as (a & Hrv & Ha).
  destruct (valid_record_row rows (v :: valid) v Hv) as [r Hr]; [by left|].
  assert (vr_record v < length lines)%nat as Hlt.
  { apply lookup_lt_Some in Hr. unfold rows in Hr. by rewrite length_fmap in Hr. }
  split; [done|].
  assert (out !! vr_record v = Some (write_tokens (token_price_int a) r)) as Hrow.
  { rewrite Hrv, Hwritten by done. by rewrite <- Hrv, Hr. }
  rewrite <- (take_drop_middle out _ _ Hrow).
  assert (take (vr_record v) out = take (vr_record v) rows) as ->.
  { apply list_eq. intros i. destruct (decide (i < vr_record v)%nat) as [Hi|Hi].
    - rewrite !lookup_take_lt by done. apply Hsame. intros Hin.
      apply list_elem_of_fmap in Hin as (w & -> & Hw).
      rewrite Forall_forall in Hmin. specialize (Hmin w Hw). lia.
    - by rewrite !lookup_take_ge by lia. }
  rewrite writerows_stops.
  - f_equal. simpl. f_equal. unfold rows. rewrite <- fmap_take.
    apply lines_of_rows; [done|]. by apply Forall_take.
  - unfold rows. rewrite <- fmap_take. apply Forall_fmap.
    eapply Forall_impl; [by apply Forall_take|]. intros line Hl. simpl.
    by rewrite dict_of_line_dom.
  - destruct Hmiss as [Hm|Hm].
    + apply (dict_to_list_wrong _ _ "token_price_number"); [|done].
      destruct (write_tokens_lookup (token_price_int a) r) as [-> _]. done.
    + apply (dict_to_list_wrong _ _ "price_currency_option_currency_type"); [|done].
      destruct (write_tokens_lookup (token_price_int a) r) as [_ ->]. done.
Qed.

Lemma header_without_the_columns_witness :
  ∃ v valid,
    valid_records (DictReader (header_without_columns :: lines_without_columns)).2
    = Ok (v :: valid)
    ∧ (vr_record v < length lines_without_columns)%nat
    ∧ script 3 (header_without_columns :: lines_without_columns)
      = (header_without_columns :: take (vr_record v) lines_without_columns,
         Raise ValueError).
Proof.
  apply (header_without_the_columns 3 header_without_columns lines_without_columns).
  - apply (bool_decide_unpack _). vm_compute. reflexivity.
  - left. apply (bool_decide_unpack _). vm_compute. reflexivity.
  - repeat constructor.
  - vm_compute. reflexivity.
Defined.

(** ** The final prices *)

Lemma final_lookup_values :
  map_Forall (λ _ final_data,
                get final_data "price_currency_option_currency_type" = "token"
                ∧ get final_data "token_price_number" ∈ final_prices)
    update_final_token_prices.final_lookup.
Proof. apply (bool_decide_unpack _). by vm_compute. Qed.

Lemma same_inputs_refl (r : row) : same_inputs r r.
Proof. by intros k _ _. Qed.

Lemma same_inputs_inserts (r r' : row) (p t : string) :
  same_inputs r r' →
  same_inputs r (<["price_currency_option_currency_type" := t]>
                   (<["token_price_number" := p]> r')).
Proof. intros H k Hk1 Hk2. rewrite !lookup_insert_ne by done. by apply H. Qed.

Lemma inserts_same_inputs (r r' : row) (p t : string) :
  same_inputs r r' →
  <["price_currency_option_currency_type" := t]> (<["token_price_number" := p]> r')
  = <["price_currency_option_currency_type" := t]> (<["token_price_number" := p]> r).
Proof.
  intros H. apply map_eq. intros k.
  destruct (decide (k = "price_currency_option_currency_type")) as [->|Hk2].
  { by rewrite !lookup_insert_eq. }
  rewrite !(lookup_insert_ne _ "price_currency_option_currency_type") by done.
  destruct (decide (k = "token_price_number")) as [->|Hk1].
  { by rewrite !lookup_insert_eq. }
  rewrite !lookup_insert_ne by done. by apply H.
Qed.

Lemma update_record_same_inputs (r r' : row) :
  same_inputs r r' →
  (update_final_token_prices.update_record r').2
  = (update_final_token_prices.update_record r).2
  ∧ same_inputs r (update_final_token_prices.update_record r').1
  ∧ (listed r →
       (update_final_token_prices.update_record r').1
       = (update_final_token_prices.update_record r).1)
  ∧ (¬ listed r → update_final_token_prices.update_record r' = (r', false)).
Proof.
  intros H. unfold update_final_token_prices.update_record, listed.
  rewrite (same_inputs_get r r' "_id") by done.
  destruct (_ !! Py.strip (get r "_id")) as [final_data|]; simpl.
  - split; [done|]. split; [by apply same_inputs_inserts|]. split.
    + intros _. by apply inserts_same_inputs.
    + intros Hno. destruct Hno. by eexists.
  - split; [done|]. split; [done|]. split; [|done]. by intros [? ?].
Qed.

Lemma update_records_lookup (records : list row) (i : nat) :
  (update_final_token_prices.update_records records).1 !! i
  = (λ r, (update_final_token_prices.update_record r).1) <$> records !! i.
Proof.
  unfold update_final_token_prices.update_records. simpl.
  rewrite <- list_fmap_compose. by rewrite list_lookup_fmap.
Qed.

(** X14. The loop of [update_final_token_prices.py] keeps the number of records
    and every column but the two it writes; a record whose stripped [_id] is
    in the table gets the currency [token] and one of the prices 2, 3, 4, 6
    and 7; any other record is untouched; the count of updated records is
    between 0 and the number of records. *)
Theorem final_prices_written (records : list row) :
  let out := update_final_token_prices.update_records records in
  length out.1 = length records
  ∧ 0 ≤ out.2 ≤ Z.of_nat (length records)
  ∧ ∀ i r, records !! i = Some r →
      ∃ r', out.1 !! i = Some r'
        ∧ same_inputs r r'
        ∧ (listed r →
             r' !! "price_currency_option_currency_type" = Some "token"
             ∧ ∃ tokens, tokens ∈ final_prices
                 ∧ r' !! "token_price_number" = Some tokens)
        ∧ (¬ listed r → r' = r).
Proof.
  cbv zeta. split; [|split].
  - unfold update_final_token_prices.update_records. simpl.
    by rewrite !length_fmap.
  - unfold update_final_token_prices.update_records. simpl.
    pose proof (length_filter (λ p : row * bool, p.2 = true)
                  (update_final_token_prices.update_record <$> records)) as Hlen.
    rewrite length_fmap in Hlen. lia.
  - intros i r Hi. rewrite update_records_lookup, Hi. simpl.
    eexists. split; [done|].
    destruct (update_record_same_inputs r r (same_inputs_refl r)) as (_ & Hsame & _ & Hno).
    split; [done|]. split.
    + intros [final_data Hl]. unfold update_final_token_prices.update_record.
      rewrite Hl. simpl.
      destruct (final_lookup_values _ _ Hl) as [Hcur Hprice].
      rewrite lookup_insert_eq, lookup_insert_ne, lookup_insert_eq by done.
      rewrite Hcur. split; [done|]. by eexists.
    + intros Hl. by rewrite (Hno Hl).
Qed.

Lemma out_records_same_inputs (T : Z) (product_challenges : list row) :
  Forall2 same_inputs product_challenges
    (out_records (calculate_token_prices T product_challenges)).
Proof.
  destruct (calculate_token_prices_records T product_challenges)
    as [[-> _]|(valid & final & _ & _ & -> & _)].
  - apply Forall_Forall2_diag, Forall_forall. intros r _. apply same_inputs_refl.
  - apply update_records_same_inputs.
Qed.

(** X15. Run after [calculate_token_prices], the loop of the final prices
    overrides it: a row whose [_id] is in the table ends as the original row
    with the price and the currency of the table, whatever the allocation
    wrote; a row that is not in the table keeps what the allocation left. *)
Theorem final_prices_override (T : Z) (product_challenges : list row) (i : nat) (r : row) :
  product_challenges !! i = Some r →
  ∃ r1,
    out_records (calculate_token_prices T product_challenges) !! i = Some r1
    ∧ (listed r →
         (update_final_token_prices.update_records
            (out_records (calculate_token_prices T product_challenges))).1 !! i
         = Some (update_final_token_prices.update_record r).1)
    ∧ (¬ listed r →
         (update_final_token_prices.update_records
            (out_records (calculate_token_prices T product_challenges))).1 !! i
         = Some r1).
Proof.
  intros Hi.
  destruct (Forall2_lookup_l _ _ _ _ _ (out_records_same_inputs T product_challenges) Hi)
    as (r1 & Hr1 & Hsame).
  exists r1. split; [done|].
  destruct (update_record_same_inputs r r1 Hsame) as (_ & _ & Hyes & Hno).
  rewrite update_records_lookup, Hr1. simpl. split.
  - intros Hl. by rewrite Hyes.
  - intros Hl. by rewrite (Hno Hl).
Qed.

Lemma final_prices_override_witness :
  ∃ r1,
    out_records (calculate_token_prices TARGET_SUM listed_batch) !! 0%nat = Some r1
    ∧ (listed (challenge "1765145428310x333400327492867400" "1" "1") →
         (update_final_token_prices.update_records
            (out_records (calculate_token_prices TARGET_SUM listed_batch))).1 !! 0%nat
         = Some (update_final_token_prices.update_record
                   (challenge "1765145428310x333400327492867400" "1" "1")).1)
    ∧ (¬ listed (challenge "1765145428310x333400327492867400" "1" "1") →
         (update_final_token_prices.update_records
            (out_records (calculate_token_prices TARGET_SUM listed_batch))).1 !! 0%nat
         = Some r1).
Proof.
  apply (final_prices_override TARGET_SUM listed_batch 0
           (challenge "1765145428310x333400327492867400" "1" "1")).
  reflexivity.
Defined.

(** X16. Running the loop of the final prices on its own result changes
    neither the records nor the count. *)
Theorem final_prices_twice (records : list row) :
  update_final_token_prices.update_records
    (update_final_token_prices.update_records records).1
  = update_final_token_prices.update_records records.
Proof.
  assert (∀ r, update_final_token_prices.update_record
                 (update_final_token_prices.update_record r).1
               = update_final_token_prices.update_record r) as Hone.
  { intros r. unfold update_final_token_prices.update_record.
    destruct (_ !! Py.strip (get r "_id")) as [final_data|] eqn:Hl; simpl.
    - unfold get at 1. rewrite !lookup_insert_ne by done. fold (get r "_id").
      rewrite Hl. f_equal. by apply inserts_same_inputs, same_inputs_inserts,
        same_inputs_refl.
    - by rewrite Hl. }
  assert (update_final_token_prices.update_record
            <$> (update_final_token_prices.update_record <$> records).*1
          = update_final_token_prices.update_record <$> records) as Hall.
  { rewrite <- !list_fmap_compose. apply list_fmap_ext. intros i r _. apply Hone. }
  unfold update_final_token_prices.update_records. simpl. by rewrite Hall.
Qed.

Lemma update_record_cases (r : row) :
  (listed r
   ∧ ∃ tokens, tokens ∈ final_prices
       ∧ (update_final_token_prices.update_record r).1
         = <["price_currency_option_currency_type" := "token"]>
             (<["token_price_number" := tokens]> r))
  ∨ (¬ listed r ∧ (update_final_token_prices.update_record r).1 = r).
Proof.
  unfold update_final_token_prices.update_record, listed.
  destruct (_ !! Py.strip (get r "_id")) as [final_data|] eqn:Hl; simpl.
  - left. split; [by eexists|].
    destruct (final_lookup_values _ _ Hl) as [-> Hprice]. by eexists.
  - right. split; [|done]. by intros [? ?].
Qed.

(** X24. The script of [update_final_token_prices.py], on a file whose header
    has distinct names, among them the two output columns, and whose lines
    have as many fields as the header, ends normally and saves the same
    header and as many lines; each line is the record the loop left, every
    field of another column is the one read, and the line of a record that
    is not in the table is the line read. *)
Theorem final_prices_saved (fieldnames : list string) (lines : list (list string)) :
  NoDup fieldnames →
  "token_price_number" ∈ fieldnames →
  "price_currency_option_currency_type" ∈ fieldnames →
  Forall (λ line, length line = length fieldnames) lines →
  ∃ saved,
    update_final_token_prices.script fieldnames lines = (fieldnames :: saved, Ok tt)
    ∧ length saved = length lines
    ∧ ∀ i line, lines !! i = Some line →
        ∃ line', saved !! i = Some line'
          ∧ line' = get (update_final_token_prices.update_record
                           (dict_of_line fieldnames line)).1 <$> fieldnames
          ∧ (∀ j name, fieldnames !! j = Some name →
               name ≠ "token_price_number" →
               name ≠ "price_currency_option_currency_type" →
               line' !! j = line !! j)
          ∧ (¬ listed (dict_of_line fieldnames line) → line' = line).
Proof.
  intros Hnd Hk1 Hk2 Hrect.
  assert (fieldnames ≠ []) as Hne by (intros ->; by apply elem_of_nil in Hk1).
  unfold update_final_token_prices.script.
  rewrite (DictReader_rows _ _ Hne Hrect). simpl.
  rewrite <- !list_fmap_compose.
  rewrite writerows_Ok.
  2:{ apply Forall_fmap. eapply Forall_impl; [done|]. intros line Hl. simpl.
      destruct (update_record_cases (dict_of_line fieldnames line))
        as [(_ & tokens & _ & ->)|[_ ->]].
      - rewrite !dom_insert_L, dict_of_line_dom by done.
        intros k Hk. rewrite !elem_of_union, !elem_of_singleton in Hk.
        rewrite elem_of_list_to_set. destruct Hk as [->|[->|Hk]]; [done..|].
        by rewrite elem_of_list_to_set in Hk.
      - by rewrite dict_of_line_dom. }
  eexists. split; [done|]. split; [by rewrite !length_fmap|].
  intros i line Hi. rewrite !list_lookup_fmap, Hi. simpl.
  assert (length line = length fieldnames) as Hll.
  { rewrite Forall_forall in Hrect. apply Hrect. by eapply list_elem_of_lookup_2. }
  eexists. split; [done|]. split; [done|]. split.
  - intros j name Hj Hn1 Hn2. rewrite list_lookup_fmap, Hj. simpl.
    trans ((get (dict_of_line fieldnames line) <$> fieldnames) !! j);
      [|by rewrite dict_of_line_fields].
    rewrite list_lookup_fmap, Hj. simpl. unfold get.
    destruct (update_record_same_inputs _ _ (same_inputs_refl (dict_of_line fieldnames line)))
      as (_ & Hsame & _).
    by rewrite Hsame.
  - intros Hno.
    destruct (update_record_cases (dict_of_line fieldnames line)) as [[? _]|[_ ->]]; [done|].
    by apply dict_of_line_fields.
Qed.

Lemma final_prices_saved_witness :
  ∃ saved,
    update_final_token_prices.script header_with_columns final_lines_with_columns
    = (header_with_columns :: saved, Ok tt)
    ∧ saved = [ ["x"; "1"; "1"; EmptyString; "CLP"];
                ["1765145428310x333400327492867400"; "1"; "1"; "6"; "token"] ].
Proof.
  destruct (final_prices_saved header_with_columns final_lines_with_columns)
    as (saved & Hs & _).
  - apply (bool_decide_unpack _). vm_compute. reflexivity.
  - apply (bool_decide_unpack _). vm_compute. reflexivity.
  - apply (bool_decide_unpack _). vm_compute. reflexivity.
  - repeat constructor.
  - exists saved. split; [exact Hs|].
    vm_compute in Hs. injection Hs as <-. reflexivity.
Defined.

(** X25. When the header lacks one of the two output columns, the script of
    [update_final_token_prices.py] writes the file back as it was if no
    record is in the table; otherwise saving raises [ValueError] at the first
    record of the table, and the file is left with its header and the lines
    before that record. *)
Theorem final_prices_without_the_columns (fieldnames : list string)
    (lines : list (list string)) :
  fieldnames ≠ [] → NoDup fieldnames →
  "token_price_number" ∉ fieldnames
    ∨ "price_currency_option_currency_type" ∉ fieldnames →
  Forall (λ line, length line = length fieldnames) lines →
  (Forall (λ line, ¬ listed (dict_of_line fieldnames line)) lines →
     update_final_token_prices.script fieldnames lines = (fieldnames :: lines, Ok tt))
  ∧ (∀ n line,
       lines !! n = Some line → listed (dict_of_line fieldnames line) →
       Forall (λ line, ¬ listed (dict_of_line fieldnames line)) (take n lines) →
       update_final_token_prices.script fieldnames lines
       = (fieldnames :: take n lines, Raise ValueError)).
Proof.
  intros Hne Hnd Hmiss Hrect.
  unfold update_final_token_prices.script.
  rewrite (DictReader_rows _ _ Hne Hrect). simpl.
  rewrite <- !list_fmap_compose.
  assert (∀ ls, Forall (λ line, length line = length fieldnames) ls →
            Forall (λ line, ¬ listed (dict_of_line fieldnames line)) ls →
            (fst ∘ update_final_token_prices.update_record ∘ dict_of_line fieldnames) <$> ls
            = dict_of_line fieldnames <$> ls) as Hsame.
  { intros ls Hr Hl. apply list_fmap_ext. intros i line Hi. simpl.
    rewrite Forall_forall in Hl.
    destruct (update_record_cases (dict_of_line fieldnames line)) as [[Hy _]|[_ ->]];
      [|done].
    destruct (Hl line); [by eapply list_elem_of_lookup_2|done]. }
  assert (∀ ls, Forall (λ line, length line = length fieldnames) ls →
            Forall (λ r, dom r ⊆ list_to_set (C := gset string) fieldnames)
              (dict_of_line fieldnames <$> ls)) as Hdom.
  { intros ls Hr. apply Forall_fmap. eapply Forall_impl; [done|].
    intros line Hl. simpl. by rewrite dict_of_line_dom. }
  split.
  - intros Hno. rewrite Hsame by done. rewrite writerows_Ok by by apply Hdom.
    simpl. by rewrite lines_of_rows.
  - intros n line Hn Hyes Hno.
    rewrite <- (take_drop_middle lines n line Hn) at 1.
    rewrite fmap_app, fmap_cons. rewrite Hsame; [|by apply Forall_take|done].
    rewrite writerows_stops.
    + simpl. rewrite lines_of_rows; [done|done|by apply Forall_take].
    + apply Hdom. by apply Forall_take.
    + simpl.
      destruct (update_record_cases (dict_of_line fieldnames line))
        as [(_ & tokens & _ & ->)|[? _]]; [|done].
      destruct Hmiss as [Hm|Hm].
      * apply (dict_to_list_wrong _ _ "token_price_number"); [|done].
        by rewrite lookup_insert_ne, lookup_insert_eq.
      * apply (dict_to_list_wrong _ _ "price_currency_option_currency_type"); [|done].
        by rewrite lookup_insert_eq.
Qed.

Lemma final_prices_without_the_columns_witness :
  update_final_token_prices.script header_without_columns final_lines_without_columns
  = (header_without_columns :: take 1 final_lines_without_columns, Raise ValueError).
Proof.
  refine (proj2 (final_prices_without_the_columns header_without_columns
                   final_lines_without_columns _ _ _ _) 1%nat
            ["1765145428310x333400327492867400"; "1"; "1"] _ _ _).
  - discriminate.
  - apply (bool_decide_unpack _). vm_compute. reflexivity.
  - left. apply (bool_decide_unpack _). vm_compute. reflexivity.
  - repeat constructor.
  - reflexivity.
  - apply (bool_decide_unpack _). vm_compute. reflexivity.
  - repeat constructor. apply (bool_decide_unpack _). vm_compute. reflexivity.
Defined.

(** ** The image fields *)

Section ImageFields.
Import fix_program_image_format.

Lemma span_url_spec (s : string) :
  let '(body, rest) := span_url s in
  s = body +:+ rest
  ∧ all_chars url_char body = true
  ∧ match rest with
    | EmptyString => True
    | String c _ => url_char c = false
    end.
Proof.
  induction s as [|c s IH]; simpl; [done|].
  destruct (url_char c) eqn:Hc.
  - destruct (span_url s) as [body rest]. destruct IH as (-> & Hall & Hrest).
    simpl. by rewrite Hc.
  - simpl. by rewrite Hc.
Qed.

Lemma findall_from_shaped (fuel : nat) (s : string) :
  Forall url_shaped (findall_from fuel s).
Proof.
  revert s. induction fuel as [|fuel IH]; intros s; simpl; [constructor|].
  destruct s as [|c s1]; [constructor|].
  destruct (decide (c = "/"%char)) as [->|Hc].
  2:{ destruct c as [[] [] [] [] [] [] [] []]; try apply IH. done. }
  destruct s1 as [|c1 s2]; [apply IH|].
  destruct (decide (c1 = "/"%char)) as [->|Hc1].
  2:{ destruct c1 as [[] [] [] [] [] [] [] []]; try apply IH. done. }
  pose proof (span_url_spec s2) as Hspan.
  destruct (span_url s2) as [[|b body] rest]; [apply IH|].
  destruct Hspan as (_ & Hall & _).
  constructor; [|apply IH]. by exists (String b body).
Qed.

Lemma rstrip_char_cons (c d : ascii) (s : string) :
  d ≠ c → Py.rstrip_char c (String d s) = String d (Py.rstrip_char c s).
Proof. intros Hd. simpl. destruct (Py.rstrip_char c s); [|done]. by rewrite decide_False. Qed.

Lemma rstrip_char_all (p : ascii → bool) (c : ascii) (s : string) :
  all_chars p s = true → all_chars p (Py.rstrip_char c s) = true.
Proof.
  induction s as [|d s IH]; simpl; [done|]. intros H.
  apply andb_true_iff in H as [Hd Hs]. specialize (IH Hs).
  destruct (Py.rstrip_char c s) eqn:Hr.
  - destruct (decide (d = c)); simpl; [done|]. by rewrite Hd.
  - simpl in *. by rewrite Hd, IH.
Qed.

Lemma rstrip_char_last (c : ascii) (s : string) :
  last_char (Py.rstrip_char c s) ≠ Some c.
Proof.
  induction s as [|d s IH]; simpl; [done|].
  destruct (Py.rstrip_char c s) as [|e r] eqn:Hr.
  - destruct (decide (d = c)); simpl; [done|]. congruence.
  - simpl in *. done.
Qed.

Lemma rstrip_char_fixed (c : ascii) (s : string) :
  last_char s ≠ Some c → Py.rstrip_char c s = s.
Proof.
  induction s as [|d s IH]; simpl; [done|]. intros H.
  destruct s as [|e s'].
  - simpl. rewrite decide_False; [done|]. congruence.
  - rewrite IH by done. done.
Qed.

Lemma rstrip_char_shaped (c : ascii) (u : string) :
  c ≠ "/"%char → url_shaped u → url_shaped (Py.rstrip_char c u).
Proof.
  intros Hc (body & -> & Hall). exists (Py.rstrip_char c body).
  split; [|by apply rstrip_char_all].
  change ("//" +:+ body) with (String "/" (String "/" body)).
  by rewrite !rstrip_char_cons by done.
Qed.

Lemma trim_shaped (u : string) :
  url_shaped u → url_shaped (trim u) ∧ last_char (trim u) ≠ Some ")"%char.
Proof.
  intros H. split; [|apply rstrip_char_last].
  unfold trim. by repeat (apply rstrip_char_shaped; [done|]).
Qed.

Lemma unique_spec (urls acc : list string) :
  NoDup acc →
  NoDup (unique urls acc)
  ∧ ∀ u, u ∈ unique urls acc → u ∈ acc ∨ ∃ url, url ∈ urls ∧ u = trim url.
Proof.
  revert acc. induction urls as [|url rest IH]; intros acc Hacc; simpl.
  { split; [done|]. auto. }
  destruct (Py.nonempty (trim url) && negb (bool_decide (trim url ∈ acc))) eqn:Hnew.
  - apply andb_true_iff in Hnew as [_ Hnew]. apply negb_true_iff in Hnew.
    apply bool_decide_eq_false in Hnew.
    destruct (IH (acc ++ [trim url])) as [Hnd Hin].
    { apply NoDup_app. split; [done|]. split; [|apply NoDup_singleton].
      intros x Hx Hx'. apply list_elem_of_singleton in Hx'. by subst. }
    split; [done|]. intros u Hu. destruct (Hin u Hu) as [Hu'|(url' & ? & ->)].
    + apply elem_of_app in Hu' as [?|Hu']; [by left|].
      apply list_elem_of_singleton in Hu' as ->. right. exists url. split; [by left|done].
    + right. exists url'. split; [by right|done].
  - destruct (IH acc Hacc) as [Hnd Hin]. split; [done|].
    intros u Hu. destruct (Hin u Hu) as [?|(url' & ? & ->)]; [by left|].
    right. exists url'. split; [by right|done].
Qed.

(** X17. What [clean_image_urls] returns is a comma-separated list of distinct
    URLs, each made of two slashes followed by characters that are neither
    quotes, white space, square brackets nor commas, and none ending with a
    closing parenthesis; a blank field gives the empty list. *)
Theorem cleaned_field_shape (value : string) :
  ∃ urls,
    clean_image_urls value = Py.join "," urls
    ∧ NoDup urls
    ∧ Forall (λ u, url_shaped u ∧ last_char u ≠ Some ")"%char) urls
    ∧ (Py.strip value = EmptyString → urls = []).
Proof.
  unfold clean_image_urls.
  destruct (negb (Py.nonempty value) || negb (Py.nonempty (Py.strip value))) eqn:Hblank.
  { exists []. repeat split; constructor. }
  exists (unique (findall value) []).
  destruct (unique_spec (findall value) []) as [Hnd Hin]; [constructor|].
  split; [done|]. split; [done|]. split.
  - apply Forall_forall. intros u Hu.
    destruct (Hin u Hu) as [Hu'|(url & Hurl & ->)]; [by apply elem_of_nil in Hu'|].
    apply trim_shaped.
    pose proof (findall_from_shaped (String.length value) value) as Hall.
    rewrite Forall_forall in Hall. by apply Hall.
  - intros Hs. rewrite Hs in Hblank. simpl in Hblank. by rewrite orb_true_r in Hblank.
Qed.

Lemma string_length_app (s t : string) :
  String.length (s +:+ t) = (String.length s + String.length t)%nat.
Proof. induction s as [|c s IH]; simpl; [done|]. by rewrite IH. Qed.

Lemma span_url_app (body rest : string) :
  all_chars url_char body = true →
  match rest with
  | EmptyString => True
  | String c _ => url_char c = false
  end →
  span_url (body +:+ rest) = (body, rest).
Proof.
  intros Hall Hrest. induction body as [|c body IH]; simpl in *.
  - destruct rest as [|c rest]; [done|]. simpl. by rewrite Hrest.
  - apply andb_true_iff in Hall as [Hc Hall]. by rewrite Hc, IH.
Qed.

Lemma all_chars_last (p : ascii → bool) (s : string) (c : ascii) :
  all_chars p s = true → last_char s = Some c → p c = true.
Proof.
  induction s as [|d s IH]; simpl; [done|]. intros H Hl.
  apply andb_true_iff in H as [Hd Hs].
  destruct s as [|e s']; [by injection Hl as <-|]. by apply IH.
Qed.

Lemma trim_clean_url (u : string) : clean_url u → trim u = u ∧ Py.nonempty u = true.
Proof.
  intros (body & -> & Hall & c & Hlast & Hc1 & Hc2). split; [|done].
  assert (url_char c = true) as Hurl by by eapply all_chars_last.
  assert (last_char ("//" +:+ body) = Some c) as Hl.
  { simpl. by destruct body. }
  unfold trim.
  rewrite (rstrip_char_fixed "092"); [|rewrite Hl; congruence].
  rewrite (rstrip_char_fixed "034"); [|rewrite Hl; intros [= ->]; done].
  rewrite (rstrip_char_fixed "'"); [|rewrite Hl; intros [= ->]; done].
  rewrite (rstrip_char_fixed "]"); [|rewrite Hl; intros [= ->]; done].
  rewrite (rstrip_char_fixed ")"); [done|rewrite Hl; congruence].
Qed.

Lemma unique_fixed (urls acc : list string) :
  NoDup (acc ++ urls) →
  Forall (λ u, trim u = u ∧ Py.nonempty u = true) urls →
  unique urls acc = acc ++ urls.
Proof.
  revert acc. induction urls as [|u rest IH]; intros acc Hnd Hall; simpl.
  { by rewrite app_nil_r. }
  apply Forall_cons in Hall as [[Htrim Hne] Hall]. rewrite Htrim, Hne. simpl.
  rewrite bool_decide_eq_false_2.
  - simpl. rewrite IH; [by rewrite <- app_assoc| |done]. by rewrite <- app_assoc.
  - apply NoDup_app in Hnd as (_ & Hdisj & _). intros Hin.
    apply (Hdisj u Hin). by left.
Qed.

Lemma span_url_all (body : string) :
  all_chars url_char body = true → span_url body = (body, EmptyString).
Proof.
  induction body as [|c body IH]; simpl; [done|]. intros Hall.
  apply andb_true_iff in Hall as [Hc Hall]. by rewrite Hc, IH.
Qed.

Lemma findall_from_join (urls : list string) (fuel : nat) :
  Forall clean_url urls →
  (String.length (Py.join "," urls) ≤ fuel)%nat →
  findall_from fuel (Py.join "," urls) = urls.
Proof.
  intros Hall. revert fuel. induction Hall as [|u rest Hu Hrest IH]; intros fuel Hfuel.
  { by destruct fuel. }
  destruct Hu as (body & -> & Hbody & c & Hlast & _).
  destruct body as [|b body]; [done|].
  destruct rest as [|u2 rest].
  - simpl in Hfuel. destruct fuel as [|fuel]; [lia|].
    change (Py.join "," ["//" +:+ String b body])
      with (String "/" (String "/" (String b body))).
    cbn [findall_from].
    rewrite (span_url_all (String b body)) by done.
    f_equal. by destruct fuel.
  - change (Py.join "," (("//" +:+ String b body) :: u2 :: rest))
      with (String "/" (String "/" (String b body +:+ String "," (Py.join "," (u2 :: rest)))))
      in *.
    set (others := Py.join "," (u2 :: rest)) in *.
    simpl in Hfuel. rewrite string_length_app in Hfuel. simpl in Hfuel.
    destruct fuel as [|fuel]; [lia|]. cbn [findall_from].
    rewrite (span_url_app (String b body)) by done.
    f_equal. destruct fuel as [|fuel]; [lia|]. cbn [findall_from].
    apply IH. lia.
Qed.

(** X18. A field that already is a comma-separated list of distinct URLs, each
    starting with two slashes, made of characters of the class and ending
    with neither a backslash nor a closing parenthesis, is returned as it
    is. *)
Theorem clean_list_is_unchanged (urls : list string) :
  NoDup urls → Forall clean_url urls →
  clean_image_urls (Py.join "," urls) = Py.join "," urls.
Proof.
  intros Hnd Hall. unfold clean_image_urls.
  destruct urls as [|u rest]; [done|].
  assert (∃ s, Py.join "," (u :: rest) = String "/" s) as [s Hs].
  { inversion Hall as [|? ? (body & -> & _) _]; subst.
    destruct rest; simpl; by eexists. }
  rewrite Hs. simpl Py.nonempty.
  assert (Py.nonempty (Py.strip (String "/" s)) = true) as ->.
  { unfold Py.strip. simpl. by destruct (Py.rstrip s). }
  simpl. rewrite <- Hs. unfold findall.
  rewrite findall_from_join by done.
  rewrite unique_fixed; [done..|].
  eapply Forall_impl; [done|]. intros url. apply trim_clean_url.
Qed.

Lemma clean_list_is_unchanged_witness :
  fix_program_image_format.clean_image_urls "//a.com/x.png,//b.com/y.png"
  = "//a.com/x.png,//b.com/y.png".
Proof.
  apply (clean_list_is_unchanged ["//a.com/x.png"; "//b.com/y.png"]).
  - apply (bool_decide_unpack _). vm_compute. reflexivity.
  - repeat constructor.
    + exists "a.com/x.png". split; [reflexivity|]. split; [vm_compute; reflexivity|].
      exists "g"%char. split; [reflexivity|]. split; discriminate.
    + exists "b.com/y.png". split; [reflexivity|]. split; [vm_compute; reflexivity|].
      exists "g"%char. split; [reflexivity|]. split; discriminate.
Defined.

Lemma rewrite_column_lookup (f : string → string) (column k : string) (r : row) :
  match r !! column with
  | Some old_val => <[column := f old_val]> r
  | None => r
  end !! k
  = if decide (k = column) then f <$> r !! k else r !! k.
Proof.
  destruct (decide (k = column)) as [->|Hk].
  - destruct (r !! column) as [v|] eqn:Hv; [by rewrite lookup_insert_eq|by rewrite Hv].
  - destruct (r !! column) as [v|] eqn:Hv; [by rewrite lookup_insert_ne|done].
Qed.

Lemma clean_row_lookup (r : row) (name : string) :
  clean_row r !! name = cleaned_field name <$> r !! name.
Proof.
  unfold clean_row, cleaned_field. rewrite !rewrite_column_lookup.
  destruct (decide (name = "posters_square_list_image")) as [->|Hp].
  { rewrite decide_False by done. by destruct (r !! _). }
  destruct (decide (name = "banners_list_image")) as [->|Hb].
  { by destruct (r !! _). }
  rewrite bool_decide_eq_false_2; [by destruct (r !! name)|].
  intros Hin. repeat (apply elem_of_cons in Hin as [->|Hin]); try done.
  by apply elem_of_nil in Hin.
Qed.

Lemma clean_row_dom (r : row) : dom (clean_row r) = dom r.
Proof.
  apply set_eq. intros k. rewrite !elem_of_dom, clean_row_lookup.
  by rewrite fmap_is_Some.
Qed.

(** X19. The script of [fix_program_image_format.py], on a file whose header has
    distinct names and whose lines have as many fields as the header, ends
    normally and saves the same header and as many lines of the same length;
    a field of one of the two image columns is the cleaned field, every other
    field is the one read. *)
Theorem image_columns_only (fieldnames : list string) (lines : list (list string)) :
  fieldnames ≠ [] → NoDup fieldnames →
  Forall (λ line, length line = length fieldnames) lines →
  ∃ saved,
    script fieldnames lines = (fieldnames :: saved, Ok tt)
    ∧ length saved = length lines
    ∧ ∀ i j line name v,
        lines !! i = Some line → fieldnames !! j = Some name → line !! j = Some v →
        ∃ line', saved !! i = Some line'
                 ∧ length line' = length line
                 ∧ line' !! j = Some (cleaned_field name v).
Proof.
  intros Hne Hnd Hrect. unfold script.
  rewrite (DictReader_rows _ _ Hne Hrect). simpl.
  rewrite writerows_Ok.
  2:{ apply Forall_fmap, Forall_fmap. eapply Forall_impl; [done|].
      intros line Hl. simpl. by rewrite clean_row_dom, dict_of_line_dom. }
  eexists. split; [done|]. split; [by rewrite !length_fmap|].
  intros i j line name v Hi Hj Hv.
  rewrite !list_lookup_fmap, Hi. simpl. eexists. split; [done|].
  assert (length line = length fieldnames) as Hll.
  { rewrite Forall_forall in Hrect. apply Hrect. by eapply list_elem_of_lookup_2. }
  split; [by rewrite length_fmap|].
  rewrite list_lookup_fmap, Hj. simpl. unfold get.
  by rewrite clean_row_lookup, (dict_of_line_lookup _ _ j name v).
Qed.

Lemma image_columns_only_witness :
  ∃ saved,
    fix_program_image_format.script program_header program_lines
    = (program_header :: saved, Ok tt)
    ∧ saved = [ ["p"; "//a.com/x.png,//b.com/y.png"] ].
Proof.
  destruct (image_columns_only program_header program_lines) as (saved & Hs & _).
  - discriminate.
  - apply (bool_decide_unpack _). vm_compute. reflexivity.
  - repeat constructor.
  - exists saved. split; [exact Hs|].
    vm_compute in Hs. injection Hs as <-. reflexivity.
Defined.
End ImageFields.

(** ** The text of a price *)

Section PriceText.
Import scrape_jumbo_prices.

Lemma remove_char_spec (c : ascii) (p : ascii → bool) (s : string) :
  p c = false →
  (String.length (Py.remove_char c s) ≤ String.length s)%nat
  ∧ any_char p (Py.remove_char c s) = any_char p s.
Proof.
  intros Hc. induction s as [|d s [IHl IHa]]; simpl; [done|].
  destruct (decide (d = c)) as [->|Hd]; simpl.
  - split; [lia|]. by rewrite Hc.
  - split; [lia|]. by rewrite IHa.
Qed.

Lemma remove_three_spec (a b c : ascii) (p : ascii → bool) (s : string) :
  p a = false → p b = false → p c = false →
  (String.length (Py.remove_three a b c s) ≤ String.length s)%nat
  ∧ any_char p (Py.remove_three a b c s) = any_char p s.
Proof.
  intros Ha Hb Hc.
  assert (∀ n s, (String.length s < n)%nat →
            (String.length (Py.remove_three a b c s) ≤ String.length s)%nat
            ∧ any_char p (Py.remove_three a b c s) = any_char p s) as H.
  { intros n. induction n as [|n IH]; intros t Hn; [lia|].
    destruct t as [|x [|y [|z t]]]; simpl; [done..|].
    destruct (decide (x = a ∧ y = b ∧ z = c)) as [(-> & -> & ->)|Hno].
    - destruct (IH t) as [Hl Hany]; [simpl in Hn; lia|]. split; [lia|].
      by rewrite Hany, Ha, Hb, Hc.
    - destruct (IH (String y (String z t))) as [Hl Hany]; [simpl in *; lia|].
      simpl in *. split; [lia|]. by rewrite Hany. }
  apply (H (S (String.length s))). lia.
Qed.

Lemma lstrip_spec (p : ascii → bool) (s : string) :
  (∀ c, Py.isspace c = true → p c = false) →
  (String.length (Py.lstrip s) ≤ String.length s)%nat
  ∧ any_char p (Py.lstrip s) = any_char p s.
Proof.
  intros Hp. induction s as [|c s [IHl IHa]]; simpl; [done|].
  destruct (Py.isspace c) eqn:Hc; simpl; [|done].
  split; [lia|]. by rewrite Hp.
Qed.

Lemma rstrip_spec (p : ascii → bool) (s : string) :
  (∀ c, Py.isspace c = true → p c = false) →
  (String.length (Py.rstrip s) ≤ String.length s)%nat
  ∧ any_char p (Py.rstrip s) = any_char p s.
Proof.
  intros Hp. induction s as [|c s [IHl IHa]]; simpl; [done|].
  destruct (Py.rstrip s) as [|d r] eqn:Hr.
  - destruct (Py.isspace c) eqn:Hc; simpl in *.
    + split; [lia|]. by rewrite Hp, <- IHa.
    + split; [lia|]. by rewrite <- IHa.
  - simpl in *. split; [lia|]. by rewrite IHa.
Qed.

Lemma strip_spec (p : ascii → bool) (s : string) :
  (∀ c, Py.isspace c = true → p c = false) →
  (String.length (Py.strip s) ≤ String.length s)%nat
  ∧ any_char p (Py.strip s) = any_char p s.
Proof.
  intros Hp. unfold Py.strip.
  destruct (lstrip_spec p s Hp) as [Hl Ha].
  destruct (rstrip_spec p (Py.lstrip s) Hp) as [Hl' Ha'].
  split; [lia|congruence].
Qed.

Lemma decimal_not_space (c : ascii) : Py.isspace c = true → Py.is_decimal c = false.
Proof.
  intros Hs. unfold Py.is_decimal. apply bool_decide_eq_false. intros [d Hd].
  unfold Py.decimal_value in Hd. unfold Py.isspace in Hs.
  destruct (_ && _) eqn:Hr in Hd; [|done]. lia.
Qed.

Lemma all_decimal_value (s : string) (acc : Z) :
  all_chars Py.is_decimal s = true → 0 ≤ acc →
  ∃ n, Py.decimal_of acc s = Some n ∧ 0 ≤ n.
Proof.
  revert acc. induction s as [|c s IH]; intros acc Hall Hacc; simpl.
  { by exists acc. }
  simpl in Hall. apply andb_true_iff in Hall as [Hc Hall].
  apply bool_decide_eq_true in Hc as [d Hd]. rewrite Hd.
  apply IH; [done|]. apply decimal_value_range in Hd. lia.
Qed.

Lemma int_of_str_digits (s : string) :
  all_chars Py.is_decimal s = true → s ≠ EmptyString →
  (String.length s ≤ Py.int_max_str_digits)%nat →
  ∃ n, Py.int_of_str s = Ok n ∧ Py.decimal_of 0 s = Some n ∧ 0 ≤ n.
Proof.
  intros Hall Hne Hlen. unfold Py.int_of_str.
  destruct (all_decimal_value s 0 Hall) as (n & Hn & Hpos); [done|].
  assert ((Py.int_max_str_digits <? String.length s)%nat = false) as ->.
  { apply Nat.ltb_ge. lia. }
  destruct s; [done|]. rewrite Hn. exists n. auto.
Qed.

Lemma all_chars_app (p : ascii → bool) (s t : string) :
  all_chars p (s +:+ t) = all_chars p s && all_chars p t.
Proof. induction s as [|c s IH]; simpl; [done|]. by rewrite IH, andb_assoc. Qed.

Lemma digit_runs_spec (run s : string) :
  all_chars Py.is_decimal run = true →
  Forall (λ n, all_chars Py.is_decimal n = true ∧ n ≠ EmptyString
               ∧ (String.length n ≤ String.length run + String.length s)%nat)
    (Py.digit_runs run s)
  ∧ (Py.digit_runs run s = []
     ↔ run = EmptyString ∧ any_char Py.is_decimal s = false).
Proof.
  revert run. induction s as [|c s IH]; intros run Hrun; simpl.
  - destruct run as [|d run]; simpl.
    + split; [constructor|done].
    + split; [|split; [done|by intros [? _]]].
      apply Forall_cons. split; [|constructor].
      split; [done|]. split; [done|]. simpl. lia.
  - destruct (Py.is_decimal c) eqn:Hc; simpl.
    + destruct (IH (run +:+ String c EmptyString)) as [Hall Hnil].
      { rewrite all_chars_app, Hrun. simpl. by rewrite Hc. }
      split.
      * eapply Forall_impl; [done|]. intros n (? & ? & Hlen).
        rewrite string_length_app in Hlen. simpl in Hlen. repeat split; [done..|lia].
      * rewrite Hnil. split; [|by intros [_ ?]]. intros [Hr _]. by destruct run.
    + destruct (IH EmptyString eq_refl) as [Hall Hnil].
      destruct run as [|d run]; simpl.
      * split; [|by rewrite Hnil].
        eapply Forall_impl; [done|]. intros n (? & ? & Hlen). simpl in *.
        repeat split; [done..|lia].
      * split; [|split; [done|by intros [? _]]].
        apply Forall_cons. split; [split; [done|]; split; [done|]; simpl; lia|].
        eapply Forall_impl; [done|]. intros n (? & ? & Hlen). simpl in *.
        repeat split; [done..|lia].
Qed.

Lemma max_of_ge (n : Z) (l : list Z) : n ≤ Py.max_of n l.
Proof.
  unfold Py.max_of. revert n. induction l as [|x l IH]; intros n; simpl; [done|].
  etrans; [|apply IH]. lia.
Qed.

Lemma mapM_int_of_str (l : list string) :
  Forall (λ n, all_chars Py.is_decimal n = true ∧ n ≠ EmptyString
               ∧ (String.length n ≤ Py.int_max_str_digits)%nat) l →
  ∃ k, mapM Py.int_of_str l = Ok k.
Proof.
  induction 1 as [|n l (Hall & Hne & Hlen) _ [k IH]]; simpl; [by eexists|].
  destruct (int_of_str_digits n Hall Hne Hlen) as (z & -> & _). simpl.
  rewrite IH. simpl. by eexists.
Qed.

Lemma bare_spec (text : string) :
  (String.length (bare text) ≤ String.length text)%nat
  ∧ any_char Py.is_decimal (bare text) = any_char Py.is_decimal text.
Proof.
  unfold bare.
  destruct (remove_char_spec "$" Py.is_decimal text eq_refl) as [L1 A1].
  destruct (remove_three_spec "C" "L" "P" Py.is_decimal
              (Py.remove_char "$" text) eq_refl eq_refl eq_refl) as [L2 A2].
  destruct (remove_three_spec "c" "l" "p" Py.is_decimal
              (Py.remove_three "C" "L" "P" (Py.remove_char "$" text))
              eq_refl eq_refl eq_refl) as [L3 A3].
  destruct (strip_spec Py.is_decimal
              (Py.remove_three "c" "l" "p"
                 (Py.remove_three "C" "L" "P" (Py.remove_char "$" text)))
              decimal_not_space) as [L4 A4].
  destruct (remove_char_spec "." Py.is_decimal
              (Py.strip (Py.remove_three "c" "l" "p"
                 (Py.remove_three "C" "L" "P" (Py.remove_char "$" text))))
              eq_refl) as [L5 A5].
  destruct (remove_char_spec "," Py.is_decimal
              (Py.remove_char "."
                (Py.strip (Py.remove_three "c" "l" "p"
                   (Py.remove_three "C" "L" "P" (Py.remove_char "$" text)))))
              eq_refl) as [L6 A6].
  split; [lia|congruence].
Qed.

(** X20. On a text of at most 4300 characters [extract_price_from_text] raises
    nothing; it returns [None] exactly when the text has no decimal digit, and
    otherwise an integer that is not negative. *)
Theorem price_found_iff_a_digit (text : string) :
  (String.length text ≤ Py.int_max_str_digits)%nat →
  ∃ price,
    extract_price_from_text text = Ok price
    ∧ (price = None ↔ any_char Py.is_decimal text = false)
    ∧ ∀ n, price = Some n → 0 ≤ n.
Proof.
  intros Hlen. unfold extract_price_from_text.
  destruct (Py.nonempty text) eqn:Htext; simpl negb; cbv iota.
  2:{ exists None. destruct text; [|done]. by repeat split. }
  fold (bare text).
  destruct (bare_spec text) as [Hl Ha].
  destruct (digit_runs_spec EmptyString (bare text) eq_refl) as [Hall Hnil].
  destruct (Py.digit_runs EmptyString (bare text)) as [|n rest] eqn:Hruns.
  - exists None. split; [done|]. split; [|done].
    destruct Hnil as [Hnil _]. destruct (Hnil eq_refl) as [_ Hno].
    split; [intros _; congruence|done].
  - apply Forall_cons in Hall as [(Hn & Hne & Hnl) Hall].
    destruct (int_of_str_digits n Hn Hne) as (first & -> & _ & Hfirst).
    { simpl in Hnl. lia. }
    destruct (mapM_int_of_str rest) as [others ->].
    { eapply Forall_impl; [done|]. intros m (? & ? & Hm). simpl in Hm.
      repeat split; [done..|lia]. }
    simpl. eexists. split; [done|]. split.
    + split; [done|]. intros Hno. rewrite <- Ha in Hno.
      destruct Hnil as [_ Hnil]. by specialize (Hnil (conj eq_refl Hno)).
    + intros m [= <-]. pose proof (max_of_ge first others). lia.
Qed.

Lemma price_found_iff_a_digit_witness :
  ∃ price,
    scrape_jumbo_prices.extract_price_from_text "Precio: $5.990 CLP" = Ok price
    ∧ (price = None ↔ any_char Py.is_decimal "Precio: $5.990 CLP" = false)
    ∧ ∀ n, price = Some n → 0 ≤ n.
Proof.
  apply (price_found_iff_a_digit "Precio: $5.990 CLP").
  unfold Py.int_max_str_digits. simpl. lia.
Defined.

Lemma all_chars_impl (p q : ascii → bool) (s : string) :
  (∀ c, p c = true → q c = true) → all_chars p s = true → all_chars q s = true.
Proof.
  intros Hpq. induction s as [|c s IH]; simpl; [done|]. intros H.
  apply andb_true_iff in H as [Hc Hs]. by rewrite (Hpq c Hc), IH.
Qed.

Lemma remove_char_keep (c : ascii) (p q : ascii → bool) (s : string) :
  p c = false →
  all_chars (λ d, q d || bool_decide (d = c)) s = true →
  keep_chars p (Py.remove_char c s) = keep_chars p s
  ∧ all_chars q (Py.remove_char c s) = true.
Proof.
  intros Hc. induction s as [|d s IH]; simpl; [done|]. intros H.
  apply andb_true_iff in H as [Hd Hs]. destruct (IH Hs) as [IHk IHa].
  destruct (decide (d = c)) as [->|Hne]; simpl.
  - by rewrite Hc.
  - rewrite IHk, IHa. rewrite bool_decide_eq_false_2 in Hd by done.
    rewrite orb_false_r in Hd. by rewrite Hd.
Qed.

Lemma remove_three_absent (a b c : ascii) (s : string) :
  all_chars (λ x, negb (bool_decide (x = a))) s = true →
  Py.remove_three a b c s = s.
Proof.
  induction s as [|x s IH]; simpl; [done|]. intros H.
  apply andb_true_iff in H as [Hx Hs]. apply negb_true_iff, bool_decide_eq_false in Hx.
  rewrite (IH Hs). destruct s as [|y [|z s]]; [done..|].
  rewrite decide_False; [done|]. by intros [? _].
Qed.

Lemma lstrip_no_space (s : string) :
  all_chars (λ c, negb (Py.isspace c)) s = true → Py.lstrip s = s.
Proof.
  destruct s as [|c s]; simpl; [done|]. intros H.
  apply andb_true_iff in H as [Hc _]. apply negb_true_iff in Hc. by rewrite Hc.
Qed.

Lemma rstrip_no_space (s : string) :
  all_chars (λ c, negb (Py.isspace c)) s = true → Py.rstrip s = s.
Proof.
  induction s as [|c s IH]; simpl; [done|]. intros H.
  apply andb_true_iff in H as [Hc Hs]. apply negb_true_iff in Hc.
  rewrite (IH Hs), Hc. by destruct s.
Qed.

Lemma string_app_nil_r (s : string) : s +:+ EmptyString = s.
Proof.
  induction s as [|a s IH]; [done|].
  change (String a (s +:+ EmptyString) = String a s). by rewrite IH.
Qed.

Lemma string_app_snoc (s t : string) (c : ascii) :
  (s +:+ String c EmptyString) +:+ t = s +:+ String c t.
Proof.
  induction s as [|a s IH]; [done|].
  change (String a ((s +:+ String c EmptyString) +:+ t) = String a (s +:+ String c t)).
  by rewrite IH.
Qed.

Lemma digit_runs_all (run s : string) :
  all_chars Py.is_decimal s = true →
  Py.digit_runs run s = if Py.nonempty (run +:+ s) then [run +:+ s] else [].
Proof.
  revert run. induction s as [|c s IH]; intros run H; simpl.
  - by rewrite string_app_nil_r.
  - simpl in H. apply andb_true_iff in H as [Hc Hs]. rewrite Hc, (IH _ Hs).
    by rewrite string_app_snoc.
Qed.

Lemma keep_chars_spec (p : ascii → bool) (s : string) :
  all_chars p (keep_chars p s) = true
  ∧ (String.length (keep_chars p s) ≤ String.length s)%nat
  ∧ (any_char p s = true → keep_chars p s ≠ EmptyString).
Proof.
  induction s as [|c s (IHa & IHl & IHn)]; simpl; [done|].
  destruct (p c) eqn:Hc; simpl.
  - rewrite Hc, IHa. split; [done|]. split; [lia|done].
  - split; [done|]. split; [lia|done].
Qed.

Lemma bare_price_text (text : string) :
  all_chars price_char text = true → bare text = keep_chars Py.is_decimal text.
Proof.
  intros H. unfold bare.
  destruct (remove_char_keep "$" Py.is_decimal
              (λ d, Py.is_decimal d || bool_decide (d ∈ ["."; ","]%char)) text)
    as [K1 A1]; [done| |].
  { eapply all_chars_impl; [|done]. intros c. unfold price_char.
    destruct (Py.is_decimal c); [done|]. simpl.
    intros Hc. apply bool_decide_eq_true in Hc.
    repeat (apply elem_of_cons in Hc as [->|Hc]); try done. by apply elem_of_nil in Hc. }
  set (t1 := Py.remove_char "$" text) in *.
  rewrite (remove_three_absent "C").
  2:{ eapply all_chars_impl; [|exact A1]. intros c Hc.
      apply negb_true_iff, bool_decide_eq_false. intros ->. done. }
  rewrite (remove_three_absent "c").
  2:{ eapply all_chars_impl; [|exact A1]. intros c Hc.
      apply negb_true_iff, bool_decide_eq_false. intros ->. done. }
  assert (all_chars (λ c, negb (Py.isspace c)) t1 = true) as Hsp.
  { eapply all_chars_impl; [|exact A1]. intros c Hc. apply negb_true_iff.
    destruct (Py.isspace c) eqn:Hs; [|done]. cbv beta in Hc.
    rewrite (decimal_not_space c Hs) in Hc. simpl in Hc.
    apply bool_decide_eq_true in Hc.
    repeat (apply elem_of_cons in Hc as [->|Hc]); try done. by apply elem_of_nil in Hc. }
  unfold Py.strip. rewrite lstrip_no_space, rstrip_no_space by done.
  destruct (remove_char_keep "." Py.is_decimal
              (λ d, Py.is_decimal d || bool_decide (d = ","%char)) t1)
    as [K2 A2]; [done| |].
  { eapply all_chars_impl; [|exact A1]. intros c. cbv beta.
    destruct (Py.is_decimal c); [done|]. simpl. intros Hc.
    apply bool_decide_eq_true in Hc.
    repeat (apply elem_of_cons in Hc as [->|Hc]); try done. by apply elem_of_nil in Hc. }
  set (t2 := Py.remove_char "." t1) in *.
  destruct (remove_char_keep "," Py.is_decimal Py.is_decimal t2)
    as [K3 A3]; [done..|].
  set (t3 := Py.remove_char "," t2) in *.
  rewrite <- K1, <- K2, <- K3.
  clear -A3. induction t3 as [|c t IH]; simpl in *; [done|].
  apply andb_true_iff in A3 as [Hc Ht]. by rewrite Hc, <- IH.
Qed.

(** X21. On a text made of decimal digits, dollar signs, dots and commas, with
    at least one digit, the price extracted is the integer written by the
    digits alone, in their order: a dot or a comma, thousands separator or
    decimal mark, is dropped. *)
Theorem separators_are_dropped (text : string) :
  all_chars price_char text = true →
  any_char Py.is_decimal text = true →
  (String.length text ≤ Py.int_max_str_digits)%nat →
  ∃ n, Py.decimal_of 0 (keep_chars Py.is_decimal text) = Some n
       ∧ extract_price_from_text text = Ok (Some n).
Proof.
  intros Hall Hany Hlen. unfold extract_price_from_text.
  assert (Py.nonempty text = true) as -> by by destruct text.
  simpl negb. cbv iota. fold (bare text). rewrite bare_price_text by done.
  destruct (keep_chars_spec Py.is_decimal text) as (Hdec & Hl & Hne).
  specialize (Hne Hany).
  rewrite digit_runs_all by done.
  change (EmptyString +:+ keep_chars Py.is_decimal text)
    with (keep_chars Py.is_decimal text).
  destruct (keep_chars Py.is_decimal text) as [|d digits] eqn:Hk; [done|].
  simpl Py.nonempty. cbv iota.
  destruct (int_of_str_digits (String d digits)) as (n & -> & Hn & _); [done..|lia|].
  exists n. split; [done|]. done.
Qed.

Lemma separators_are_dropped_witness :
  scrape_jumbo_prices.extract_price_from_text "$5.990" = Ok (Some 5990).
Proof.
  destruct (separators_are_dropped "$5.990") as (n & Hn & He).
  - vm_compute. reflexivity.
  - vm_compute. reflexivity.
  - unfold Py.int_max_str_digits. simpl. lia.
  - vm_compute in Hn. injection Hn as <-. exact He.
Defined.
End PriceText.

(** ** Products that have a price already *)

Section AlreadyPriced.
Import scrape_jumbo_prices.

Lemma int_of_str_decimal (s : string) (n : Z) :
  Py.isdigit s = true → Py.decimal_of 0 s = Some n →
  (String.length s ≤ Py.int_max_str_digits)%nat →
  Py.int_of_str s = Ok n.
Proof.
  intros Hd Hn Hlen. unfold Py.int_of_str.
  assert ((Py.int_max_str_digits <? String.length s)%nat = false) as ->.
  { apply Nat.ltb_ge. lia. }
  destruct s; [done|]. by rewrite Hn.
Qed.

(** X26. The test by which the price scraper skips a product (lines 277-281), on
    a price of at most 4300 characters: the product is not skipped exactly
    when its stripped price fails [isdigit]; the message of line 279 raises
    [ValueError] exactly when the price passes [isdigit] with a digit that is
    not decimal; a price that the allocation accepts is always skipped; and
    a price of zero is skipped although the allocation rejects it. *)
Theorem skip_rule (pc : row) :
  let current_price := Py.strip (get pc "pvp_number") in
  (String.length current_price ≤ Py.int_max_str_digits)%nat →
  (already_priced pc = Ok false ↔ Py.isdigit current_price = false)
  ∧ (already_priced pc = Raise ValueError
     ↔ Py.isdigit current_price = true ∧ Py.decimal_of 0 current_price = None)
  ∧ (∀ n k, accepted pc n k → already_priced pc = Ok true)
  ∧ (Py.isdigit current_price = true → Py.decimal_of 0 current_price = Some 0 →
       already_priced pc = Ok true ∧ ∀ n k, ¬ accepted pc n k).
Proof.
  cbv zeta. unfold already_priced, accepted, reads_positive.
  remember (Py.strip (get pc "pvp_number")) as current_price eqn:Hcp.
  intros Hlen.
  destruct (Py.isdigit current_price) eqn:Hd.
  - rewrite (isdigit_nonempty _ Hd). simpl.
    destruct (Py.decimal_of 0 current_price) as [n|] eqn:Hn.
    + rewrite (int_of_str_decimal _ n) by done. simpl.
      split; [done|]. split; [split; [done|by intros [_ ?]]|]. split; [done|].
      intros _ [= ->]. split; [done|].
      intros m k [(_ & Hm & Hpos) _]. injection Hm as <-. lia.
    + assert (Py.int_of_str current_price = Raise ValueError) as ->.
      { unfold Py.int_of_str. clear -Hn. destruct (_ <? _)%nat; [done|].
        destruct current_price; [done|]. by rewrite Hn. }
      simpl. split; [done|]. split; [done|]. split; [|done].
      intros n k [(_ & Hm & _) _]. congruence.
  - rewrite andb_false_r. split; [done|]. split; [split; [done|by intros [? _]]|].
    split; [|done]. intros n k [(Hm & _) _]. congruence.
Qed.

Lemma skip_rule_witness :
  (scrape_jumbo_prices.already_priced (challenge "a" "0" "5") = Ok false
   ↔ Py.isdigit (Py.strip (get (challenge "a" "0" "5") "pvp_number")) = false)
  ∧ (scrape_jumbo_prices.already_priced (challenge "a" "0" "5") = Raise ValueError
     ↔ Py.isdigit (Py.strip (get (challenge "a" "0" "5") "pvp_number")) = true
       ∧ Py.decimal_of 0 (Py.strip (get (challenge "a" "0" "5") "pvp_number")) = None)
  ∧ (∀ n k, accepted (challenge "a" "0" "5") n k →
       scrape_jumbo_prices.already_priced (challenge "a" "0" "5") = Ok true)
  ∧ (Py.isdigit (Py.strip (get (challenge "a" "0" "5") "pvp_number")) = true →
     Py.decimal_of 0 (Py.strip (get (challenge "a" "0" "5") "pvp_number")) = Some 0 →
       scrape_jumbo_prices.already_priced (challenge "a" "0" "5") = Ok true
       ∧ ∀ n k, ¬ accepted (challenge "a" "0" "5") n k).
Proof.
  apply (skip_rule (challenge "a" "0" "5")).
  unfold Py.int_max_str_digits. vm_compute. lia.
Defined.
End AlreadyPriced.

(** ** The search query *)

Section SearchQuery.
Import scrape_jumbo_prices.

Lemma lower_char_not_capital (c : ascii) : Py.lower_char c ≠ "195"%char.
Proof. destruct c as [[] [] [] [] [] [] [] []]; by vm_compute. Qed.

Lemma contains_first_char (c : ascii) (needle hay : string) :
  Py.contains (String c needle) hay = true →
  any_char (λ d, bool_decide (c = d)) hay = true.
Proof.
  induction hay as [|d hay IH]; simpl; [done|]. intros H.
  apply orb_true_iff in H as [H|H].
  - apply andb_true_iff in H as [-> _]. done.
  - rewrite (IH H). apply orb_true_r.
Qed.

Lemma lower_has_no_capital (s : string) :
  any_char (λ d, bool_decide ("195"%char = d)) (Py.lower s) = false.
Proof.
  induction s as [|c s IH]; simpl; [done|]. rewrite IH, orb_false_r.
  apply bool_decide_eq_false. intros H. by apply (lower_char_not_capital c).
Qed.

Lemma oleo_misread_never_found (name : string) :
  Py.contains oleo_misread (Py.lower name) = false.
Proof.
  destruct (Py.contains oleo_misread (Py.lower name)) eqn:H; [|done].
  apply contains_first_char in H. by rewrite lower_has_no_capital in H.
Qed.

(** X22. The second test of line 197 never succeeds, its text having a capital
    letter that a lowered name cannot have; so a name with [elvive] and none
    of [hialuronico], [micelar], [color vive] and [oleo extraordinario], for
    instance one that spells the last with an accented [o], gets no query. *)
Theorem accented_oleo_is_not_recognised (name : string) :
  Py.contains oleo_misread (Py.lower name) = false
  ∧ (Py.contains "elvive" (Py.lower name) = true →
     Py.contains "hialuronico" (Py.lower name) = false →
     Py.contains "micelar" (Py.lower name) = false →
     Py.contains "color vive" (Py.lower name) = false →
     Py.contains "oleo extraordinario" (Py.lower name) = false →
     build_search_query_from_product_name name = None).
Proof.
  split; [apply oleo_misread_never_found|].
  intros H1 H2 H3 H4 H5. unfold build_search_query_from_product_name.
  destruct (negb (Py.nonempty name)); [done|]. cbv zeta.
  by rewrite H1, H2, H3, H4, H5, oleo_misread_never_found.
Qed.

Lemma accented_oleo_is_not_recognised_witness :
  build_search_query_from_product_name accented_name = None.
Proof.
  apply (accented_oleo_is_not_recognised accented_name); vm_compute; reflexivity.
Defined.

Lemma join_nonempty (sep w : string) (ws : list string) :
  w ≠ EmptyString → Py.join sep (w :: ws) ≠ EmptyString.
Proof. intros Hw. destruct w; [done|]. by destruct ws. Qed.

(** X23. A search query, when there is one, is not the empty string; and there
    is none only for an empty name or a name with [elvive], [infallible] or
    [infaillible]. *)
Theorem search_query_is_never_empty (name : string) :
  (∀ query, build_search_query_from_product_name name = Some query →
            query ≠ EmptyString)
  ∧ (build_search_query_from_product_name name = None →
       name = EmptyString
       ∨ Py.contains "elvive" (Py.lower name) = true
       ∨ Py.contains "infallible" (Py.lower name) = true
       ∨ Py.contains "infaillible" (Py.lower name) = true).
Proof.
  unfold build_search_query_from_product_name.
  destruct name as [|c name]; [by split; [|left]|].
  simpl negb. cbv iota zeta.
  set (name_lower := Py.lower (String c name)).
  destruct (Py.contains "elvive" name_lower) eqn:He.
  { split; [|by right; left]. intros query. by repeat case_match; intros [= <-]. }
  destruct (Py.contains "infallible" name_lower) eqn:Hi.
  { split; [|by right; right; left]. intros query.
    by repeat case_match; intros [= <-]. }
  destruct (Py.contains "infaillible" name_lower) eqn:Hj.
  { split; [|by right; right; right]. intros query.
    by repeat case_match; intros [= <-]. }
  simpl orb. cbv iota.
  split.
  - intros query.
    destruct (Py.contains "telescopic" name_lower); [by intros [= <-]|].
    destruct (_ || _); [by intros [= <-]|].
    destruct (_ || _); [by intros [= <-]|].
    destruct (take 4 _) as [|w ws] eqn:Hw; intros [= <-]; [done|].
    apply join_nonempty.
    assert (w ∈ take 4 (filter (λ w, (3 < String.length w)%nat) (Py.split name_lower)))
      as Hin by (rewrite Hw; by left).
    apply elem_of_take in Hin as (i & Hin & _).
    apply list_elem_of_lookup_2, list_elem_of_filter in Hin as [Hlen _].
    intros ->. simpl in Hlen. lia.
  - by repeat case_match.
Qed.
End SearchQuery.

(** ** The two copies of the cascade *)

Section TwoCascades.
Import scrape_jumbo_prices scrape_jumbo_images.

(** X27. The cascade of the products loop of [scrape_jumbo_images.py] and
    [build_search_query_from_product_name] agree on a name that is not
    empty, but for two cases: where the function returns [None] the loop
    assigns nothing and [search_query] keeps the value the previous product
    left; and where no word of the name has more than three characters the
    loop searches for the empty string while the function returns the
    lowered name. *)
Theorem the_two_cascades (search_query : option string) (name : string) :
  name ≠ EmptyString →
  match build_search_query_from_product_name name with
  | None => search_query_after search_query name = search_query
  | Some query =>
      search_query_after search_query name = Some query
      ∨ (search_query_after search_query name = Some EmptyString
         ∧ query = Py.lower name
         ∧ Forall (λ w, (String.length w ≤ 3)%nat) (Py.split (Py.lower name)))
  end.
Proof.
  intros Hname. unfold build_search_query_from_product_name, search_query_after.
  destruct name as [|c name]; [done|]. simpl negb. cbv iota zeta.
  set (name_lower := Py.lower (String c name)).
  destruct (Py.contains "elvive" name_lower).
  { destruct (_ || _); [auto|].
    destruct (Py.contains "color vive" name_lower).
    - destruct (Py.contains "shampoo" name_lower); [auto|].
      destruct (Py.contains "acondicionador" name_lower); auto.
    - destruct (_ || _); [|done].
      destruct (Py.contains "shampoo" name_lower); auto. }
  destruct (_ || _).
  { destruct (Py.contains "matte resistance" name_lower); [|auto].
    destruct (_ || _); [auto|].
    destruct (Py.contains "fairytale" name_lower); auto. }
  destruct (Py.contains "telescopic" name_lower); [auto|].
  destruct (_ || _); [auto|].
  destruct (_ || _); [auto|].
  destruct (take 4 _) as [|w ws] eqn:Hw; [|auto].
  right. split; [done|]. split; [done|].
  apply Forall_forall. intros w Hin.
  destruct (decide (3 < String.length w)%nat) as [Hlong|]; [|lia].
  assert (w ∈ filter (λ w, (3 < String.length w)%nat) (Py.split name_lower)) as Hf.
  { by apply list_elem_of_filter. }
  destruct (filter _ _) as [|x l]; [by apply elem_of_nil in Hf|done].
Qed.

Lemma the_two_cascades_witness :
  search_query_after (Some "loreal telescopic lift mascara") accented_name
  = Some "loreal telescopic lift mascara".
Proof.
  exact (the_two_cascades (Some "loreal telescopic lift mascara") accented_name
           ltac:(discriminate)).
Defined.
End TwoCascades.
